(** * RashPlayer-C: vision engine, logic brain and frame handoff

    A shallow embedding of [src/c_core/vision_engine.c],
    [src/c_core/logic_brain.c], [include/shared_bridge.h] and
    [src/game_functions/flappy_bird/game_functions.c].

    Conventions of the embedding.
    - C [int], [int32_t] and [int64_t] coordinates and counters are [Z]; where
      the source narrows a value ([uint8_t] casts, [int32_t] expression values)
      the wrap-around is written out.
    - [float] and [double] are IEEE binary32 / binary64 values of the standard
      library's [spec_float], with its correctly rounded operations.
    - A [const char*] is the [string] of the characters before its terminator.
    - A pixel buffer is the list of its bytes; a read outside the buffer
      (undefined in C) yields 0.
    - The process-wide tables ([g_templates], [g_triggers], [g_rules],
      [g_variables], [g_current_state]) are fields of explicit state records. *)

From Stdlib Require Import ZArith List Bool String Ascii Lia DecimalString.
From Stdlib Require Import Floats.SpecFloat.
Import ListNotations.

Local Open Scope Z_scope.

(* ------------------------------------------------------------------------- *)
(** ** Machine arithmetic *)

Module CInt.

(** [(uint8_t) z] *)
Definition u8 (z : Z) : Z := z mod 256.

(** [(int32_t) z]: two's complement wrap-around. *)
Definition i32 (z : Z) : Z := (z + 2147483648) mod 4294967296 - 2147483648.

(** [(uint32_t) z] *)
Definition u32 (z : Z) : Z := z mod 4294967296.

(** C99 integer division truncates toward zero. *)
Definition div (a b : Z) : Z := Z.quot a b.

(** [abs] of [stdlib.h] on values that do not overflow. *)
Definition abs (a : Z) : Z := Z.abs a.

Definition LONG_MAX : Z := 9223372036854775807.
Definition LONG_MIN : Z := -9223372036854775808.

End CInt.

(* ------------------------------------------------------------------------- *)
(** ** IEEE arithmetic: C [float] and [double] *)

Module F32.

Definition prec : Z := 24.
Definition emax : Z := 128.

Definition of_Z (z : Z) : spec_float := binary_normalize prec emax z 0 false.
Definition add : spec_float -> spec_float -> spec_float := SFadd prec emax.
Definition sub : spec_float -> spec_float -> spec_float := SFsub prec emax.
Definition mul : spec_float -> spec_float -> spec_float := SFmul prec emax.
Definition div : spec_float -> spec_float -> spec_float := SFdiv prec emax.
Definition sqrt : spec_float -> spec_float := SFsqrt prec emax.

Definition zero : spec_float := S754_zero false.
Definition one : spec_float := of_Z 1.

(** The literals [0.5f] and [0.3f]: the binary32 values nearest to 1/2 and
    3/10 (a correctly rounded quotient of two exact integers). *)
Definition half : spec_float := div (of_Z 1) (of_Z 2).
Definition three_tenths : spec_float := div (of_Z 3) (of_Z 10).

(** [x < y], [x <= y] on floats (false when unordered). *)
Definition ltb : spec_float -> spec_float -> bool := SFltb.
Definition leb : spec_float -> spec_float -> bool := SFleb.
Definition eqb : spec_float -> spec_float -> bool := SFeqb.

(** Conversion to an integer type truncates toward zero (undefined in C for
    NaN and infinities: 0 here). *)
Definition trunc (x : spec_float) : Z :=
  match x with
  | S754_finite s m e =>
      cond_Zopp s (if 0 <=? e then Zpos m * 2 ^ e else Z.quot (Zpos m) (2 ^ (- e)))
  | _ => 0
  end.

(** [fmaxf], [fminf] on ordered arguments. *)
Definition fmaxf (x y : spec_float) : spec_float := if ltb x y then y else x.
Definition fminf (x y : spec_float) : spec_float := if ltb y x then y else x.

(** [fmodf x y]: [x - n*y] with [n] the quotient truncated toward zero; the
    result is exact, so it is computed on the common exponent. *)
Definition fmodf (x y : spec_float) : spec_float :=
  match x, y with
  | S754_finite sx mx ex, S754_finite _ my ey =>
      let e := Z.min ex ey in
      let ix := Zpos mx * 2 ^ (ex - e) in
      let iy := Zpos my * 2 ^ (ey - e) in
      binary_normalize prec emax (cond_Zopp sx (Z.rem ix iy)) e sx
  | S754_zero s, S754_finite _ _ _ => S754_zero s
  | S754_finite _ _ _, S754_infinity _ => x
  | S754_zero s, S754_infinity _ => x
  | _, _ => S754_nan
  end.

End F32.

Module F64.

Definition prec : Z := 53.
Definition emax : Z := 1024.

Definition of_Z (z : Z) : spec_float := binary_normalize prec emax z 0 false.
Definition add : spec_float -> spec_float -> spec_float := SFadd prec emax.
Definition mul : spec_float -> spec_float -> spec_float := SFmul prec emax.
Definition div : spec_float -> spec_float -> spec_float := SFdiv prec emax.
Definition sqrt : spec_float -> spec_float := SFsqrt prec emax.
Definition zero : spec_float := S754_zero false.

(** [(double) x] for a [float] [x]: exact. *)
Definition of_f32 (x : spec_float) : spec_float :=
  match x with
  | S754_finite s m e => binary_normalize prec emax (cond_Zopp s (Zpos m)) e s
  | _ => x
  end.

(** [(float) x] for a [double] [x]: rounded to nearest even. *)
Definition to_f32 (x : spec_float) : spec_float :=
  match x with
  | S754_finite s m e => binary_normalize F32.prec F32.emax (cond_Zopp s (Zpos m)) e s
  | _ => x
  end.

End F64.

(* ------------------------------------------------------------------------- *)
(** ** shared_bridge.h: data structures *)

Inductive GameState :=
| GAME_STATE_IDLE
| GAME_STATE_DETECTING
| GAME_STATE_ACTION_PENDING
| GAME_STATE_EXECUTING
| GAME_STATE_PAUSED
| GAME_STATE_ERROR.

Inductive ActionType :=
| ACTION_NONE
| ACTION_TAP
| ACTION_SWIPE
| ACTION_LONG_PRESS
| ACTION_DRAG
| ACTION_WAIT.

Record Point2D := mkPoint { pt_x : Z; pt_y : Z }.

Record Rect2D := mkRect { rect_x : Z; rect_y : Z; rect_width : Z; rect_height : Z }.

Record ColorHSV := mkHSV { hsv_h : Z; hsv_s : Z; hsv_v : Z }.

Record TemplateData := mkTemplate {
  tmpl_id : Z;
  tmpl_name : string;
  tmpl_data : list Z;
  tmpl_width : Z;
  tmpl_height : Z;
  tmpl_threshold : spec_float;
  tmpl_search_region : Rect2D
}.

(** [TriggerType] together with the member of the [params] union it selects. *)
Inductive TriggerParams :=
| TRIGGER_TEMPLATE_MATCH (template_id : Z)
| TRIGGER_COLOR_MATCH (color_hsv : ColorHSV)
| TRIGGER_EDGE_DETECT (edge_color : ColorHSV) (horizontal : bool)
| TRIGGER_OCR_REGION.

Record VisualTrigger := mkTrigger {
  trig_id : Z;
  trig_name : string;
  trig_params : TriggerParams;
  trig_region : Rect2D;
  trig_active : bool
}.

Record VisionResult := mkResult {
  res_trigger_id : Z;
  res_found : bool;
  res_confidence : spec_float;
  res_location : Point2D;
  res_bounding_box : Rect2D;
  res_timestamp_ns : Z
}.

Record ActionCommand := mkAction {
  act_type : ActionType;
  act_start : Point2D;
  act_end : Point2D;
  act_duration_ms : Z;
  act_hold_ms : Z;
  act_randomize : spec_float
}.

Record DecisionRule := mkRule {
  rule_condition : string;
  rule_action : ActionType;
  rule_action_target : Point2D;
  rule_priority : Z
}.

(** [SharedMemoryHeader] followed by the frame bytes it precedes in the mapped
    region ([(uint8_t* )shm + sizeof(SharedMemoryHeader)]). Padding is left out. *)
Record SharedMemoryHeader := mkShm {
  magic : Z;
  version : Z;
  frame_number : Z;
  frame_timestamp_ns : Z;
  frame_ready : Z;
  result_ready : Z;
  current_state : GameState;
  frame_width : Z;
  frame_height : Z;
  frame_stride : Z;
  vision_latency_ns : Z;
  brain_latency_ns : Z;
  total_latency_ns : Z;
  num_results : Z;
  results : list VisionResult;
  pending_action : ActionCommand;
  frame_data : list Z
}.

(** [memset(&x, 0, sizeof x)] images. *)
Definition zero_point : Point2D := mkPoint 0 0.
Definition zero_rect : Rect2D := mkRect 0 0 0 0.
Definition zero_result : VisionResult :=
  mkResult 0 false (S754_zero false) zero_point zero_rect 0.
Definition zero_action : ActionCommand :=
  mkAction ACTION_NONE zero_point zero_point 0 0 (S754_zero false).

(** [CLOCK_MONOTONIC] as an oracle: the reading of the [n]-th call. *)
Record Clock := mkClock { clock_reads : nat; clock_at : nat -> Z }.

Definition get_time_ns (c : Clock) : Z * Clock :=
  (clock_at c (clock_reads c), mkClock (S (clock_reads c)) (clock_at c)).

(** Which variant the preprocessor selects: [USE_SSE] on x86-64, [USE_NEON] on
    AArch64, neither elsewhere. *)
Inductive Build := USE_SSE | USE_NEON | NO_SIMD.

(** Loop indices of [for (i = lo; i < hi; i += step)], [step > 0]. *)
Definition steps (lo hi step : Z) : list Z :=
  map (fun k => lo + step * Z.of_nat k)
      (seq 0 (Z.to_nat ((hi - lo + step - 1) / step))).

(** Positions [(x, y)] of a row loop nested around a column loop. *)
Definition grid (ys xs : list Z) : list (Z * Z) :=
  flat_map (fun y => map (fun x => (x, y)) xs) ys.

(** [buf[i]] *)
Definition byte_at (buf : list Z) (i : Z) : Z :=
  if i <? 0 then 0 else nth (Z.to_nat i) buf 0.

(** [array[i] = v] on a fixed-size array. *)
Fixpoint store {A} (l : list A) (i : nat) (v : A) : list A :=
  match l, i with
  | [], _ => []
  | _ :: t, O => v :: t
  | a :: t, S j => a :: store t j v
  end.

(* ------------------------------------------------------------------------- *)
(** ** vision_engine.c *)

Module VisionEngine.

Import CInt.

(** [rgb_to_hsv] (integer arithmetic, results narrowed to [uint8_t]). *)
Definition rgb_to_hsv (r g b : Z) : ColorHSV :=
  let max := if r >? g then (if r >? b then r else b) else (if g >? b then g else b) in
  let min := if r <? g then (if r <? b then r else b) else (if g <? b then g else b) in
  let delta := u8 (max - min) in
  let v := max in
  let s := if max =? 0 then 0 else u8 (div (255 * delta) max) in
  let h :=
    if delta =? 0 then 0
    else if max =? r then u8 (div (30 * (g - b)) delta + (if g <? b then 180 else 0))
    else if max =? g then u8 (div (30 * (b - r)) delta + 60)
    else u8 (div (30 * (r - g)) delta + 120) in
  mkHSV h s v.

(** The tolerance test shared by the three colour scans. *)
Definition hsv_close (target c : ColorHSV) (tolerance : Z) : bool :=
  let dh := abs (hsv_h c - hsv_h target) in
  let dh := if dh >? 90 then 180 - dh else dh in
  let ds := abs (hsv_s c - hsv_s target) in
  let dv := abs (hsv_v c - hsv_v target) in
  (dh <=? tolerance) && (ds <=? tolerance) && (dv <=? tolerance).

(** The pixel at [(x, y)] of a frame [width] pixels wide, converted. *)
Definition pixel_hsv (frame : list Z) (width x y : Z) : ColorHSV :=
  let i := y * width * 4 + x * 4 in
  rgb_to_hsv (byte_at frame i) (byte_at frame (i + 1)) (byte_at frame (i + 2)).

(** The region as every detector resolves it: origin clamped at 0, a
    non-positive extent replaced by the frame's. *)
Definition region_origin (region : Rect2D) : Z * Z :=
  (if rect_x region >? 0 then rect_x region else 0,
   if rect_y region >? 0 then rect_y region else 0).

Definition region_extent (region : Rect2D) (width height : Z) : Z * Z :=
  (if rect_width region >? 0 then rect_width region else width,
   if rect_height region >? 0 then rect_height region else height).

(** ... and trimmed at the right and bottom edges by the colour and edge scans. *)
Definition clip_region (region : Rect2D) (width height : Z) : Z * Z * Z * Z :=
  let '(rx, ry) := region_origin region in
  let '(rw, rh) := region_extent region width height in
  let rw := if rx + rw >? width then width - rx else rw in
  let rh := if ry + rh >? height then height - ry else rh in
  (rx, ry, rw, rh).

(** Running state of a colour scan: [match_count], [sum_x], [sum_y]. *)
Record ColorAcc := mkAcc { match_count : Z; sum_x : Z; sum_y : Z }.

Definition acc_add (a : ColorAcc) (x y : Z) : ColorAcc :=
  mkAcc (match_count a + 1) (sum_x a + x) (sum_y a + y).

(** The centre written to [matches[0]] when there is a match and a place
    to write it. *)
Definition color_result (a : ColorAcc) (matches : bool) : Z * option Point2D :=
  (match_count a,
   if (match_count a >? 0) && matches
   then Some (mkPoint (i32 (div (sum_x a) (match_count a)))
                      (i32 (div (sum_y a) (match_count a))))
   else None).

(** The two nested loops of [find_color_scalar]; [goto done] ends the scan. *)
Fixpoint scan_scalar (frame : list Z) (width : Z) (target : ColorHSV)
    (tolerance max_matches : Z) (ps : list (Z * Z)) (a : ColorAcc) : ColorAcc :=
  match ps with
  | [] => a
  | (x, y) :: ps' =>
      if hsv_close target (pixel_hsv frame width x y) tolerance then
        let a' := acc_add a x y in
        if match_count a' >=? max_matches then a'
        else scan_scalar frame width target tolerance max_matches ps' a'
      else scan_scalar frame width target tolerance max_matches ps' a
  end.

Definition find_color_scalar (frame : list Z) (width height : Z) (region : Rect2D)
    (target : ColorHSV) (tolerance : Z) (matches : bool) (max_matches : Z)
    : Z * option Point2D :=
  let '(rx, ry, rw, rh) := clip_region region width height in
  let ps := grid (steps ry (ry + rh) 1) (steps rx (rx + rw) 1) in
  color_result
    (scan_scalar frame width target tolerance max_matches ps (mkAcc 0 0 0)) matches.

(** [find_color_neon] repeats [find_color_scalar] statement for statement. *)
Definition find_color_neon := find_color_scalar.

(** [find_color_sse]: blocks of four pixels, [x < rx + rw - 3]; a pixel is
    looked at only while [match_count < max_matches], and no loop is left
    early. *)
Fixpoint scan_sse (frame : list Z) (width : Z) (target : ColorHSV)
    (tolerance max_matches : Z) (ps : list (Z * Z)) (a : ColorAcc) : ColorAcc :=
  match ps with
  | [] => a
  | (x, y) :: ps' =>
      if match_count a <? max_matches then
        if hsv_close target (pixel_hsv frame width x y) tolerance
        then scan_sse frame width target tolerance max_matches ps' (acc_add a x y)
        else scan_sse frame width target tolerance max_matches ps' a
      else scan_sse frame width target tolerance max_matches ps' a
  end.

Definition find_color_sse (frame : list Z) (width height : Z) (region : Rect2D)
    (target : ColorHSV) (tolerance : Z) (matches : bool) (max_matches : Z)
    : Z * option Point2D :=
  let '(rx, ry, rw, rh) := clip_region region width height in
  let xs := flat_map (fun x => [x; x + 1; x + 2; x + 3]) (steps rx (rx + rw - 3) 4) in
  let ps := grid (steps ry (ry + rh) 1) xs in
  color_result
    (scan_sse frame width target tolerance max_matches ps (mkAcc 0 0 0)) matches.

(** [vision_find_color_region]; [region = None] is the null pointer. *)
Definition vision_find_color_region (build : Build) (frame : list Z) (width height : Z)
    (region : option Rect2D) (color : ColorHSV) (tolerance : Z) (out_center : bool)
    : Z * option Point2D :=
  let full_region := mkRect 0 0 width height in
  let r := match region with Some r => r | None => full_region end in
  match build with
  | USE_SSE => find_color_sse frame width height r color tolerance out_center 10000
  | USE_NEON => find_color_neon frame width height r color tolerance out_center 10000
  | NO_SIMD => find_color_scalar frame width height r color tolerance out_center 10000
  end.

(** Grey value of a pixel as both matchers take it: [(r + g + b) / 3.0f]. *)
Definition grey (buf : list Z) (i : Z) : spec_float :=
  F32.div (F32.of_Z (byte_at buf i + byte_at buf (i + 1) + byte_at buf (i + 2)))
          (F32.of_Z 3).

(** Template pixels [(tx, ty)] in the order both matchers visit them. *)
Definition template_pixels (tmpl : TemplateData) : list (Z * Z) :=
  grid (steps 0 (tmpl_height tmpl) 1) (steps 0 (tmpl_width tmpl) 1).

Definition outside_frame (frame_width frame_height fx fy : Z) (tmpl : TemplateData) : bool :=
  (fx <? 0) || (fy <? 0) || (fx + tmpl_width tmpl >? frame_width)
  || (fy + tmpl_height tmpl >? frame_height).

(** [template_match_scalar]: [double] accumulators over [float] products. *)
Definition template_match_scalar (frame : list Z) (frame_width frame_height fx fy : Z)
    (tmpl : TemplateData) : spec_float :=
  if outside_frame frame_width frame_height fx fy tmpl then F32.zero
  else
    let '(sum_prod, sum_frame_sq, sum_tmpl_sq) :=
      fold_left
        (fun '(sp, sf, st) '(tx, ty) =>
           let fval := grey frame ((fy + ty) * frame_width * 4 + fx * 4 + tx * 4) in
           let tval := grey (tmpl_data tmpl) (ty * tmpl_width tmpl * 4 + tx * 4) in
           (F64.add sp (F64.of_f32 (F32.mul fval tval)),
            F64.add sf (F64.of_f32 (F32.mul fval fval)),
            F64.add st (F64.of_f32 (F32.mul tval tval))))
        (template_pixels tmpl) (F64.zero, F64.zero, F64.zero) in
    let denom := F64.sqrt (F64.mul sum_frame_sq sum_tmpl_sq) in
    if SFltb F64.zero denom then F64.to_f32 (F64.div sum_prod denom) else F32.zero.

(** [template_match_sse]: four [float] lanes that all receive the same
    addend, summed lane by lane at the end. *)
Definition template_match_sse (frame : list Z) (frame_width frame_height fx fy : Z)
    (tmpl : TemplateData) : spec_float :=
  if outside_frame frame_width frame_height fx fy tmpl then F32.zero
  else
    let '(sum_prod, sum_frame_sq, sum_tmpl_sq) :=
      fold_left
        (fun '(sp, sf, st) '(tx, ty) =>
           let fval := grey frame ((fy + ty) * frame_width * 4 + fx * 4 + tx * 4) in
           let tval := grey (tmpl_data tmpl) (ty * tmpl_width tmpl * 4 + tx * 4) in
           (F32.add sp (F32.mul fval tval),
            F32.add sf (F32.mul fval fval),
            F32.add st (F32.mul tval tval)))
        (template_pixels tmpl) (F32.zero, F32.zero, F32.zero) in
    let lanes v := F32.add (F32.add (F32.add v v) v) v in
    let total_prod := lanes sum_prod in
    let total_fsq := lanes sum_frame_sq in
    let total_tsq := lanes sum_tmpl_sq in
    let denom := F32.sqrt (F32.mul total_fsq total_tsq) in
    if F32.ltb F32.zero denom then F32.div total_prod denom else F32.zero.

Definition template_match (build : Build) :=
  match build with
  | USE_SSE => template_match_sse
  | _ => template_match_scalar
  end.

(** [best_score], [best_x], [best_y] of [vision_find_template]. *)
Definition Best : Type := spec_float * Z * Z.

(** One candidate position: [if (score > best_score) { ... }]. *)
Definition try_position (score_at : Z -> Z -> spec_float) (best : Best) (p : Z * Z) : Best :=
  let '(best_score, best_x, best_y) := best in
  let '(x, y) := p in
  let score := score_at x y in
  if F32.ltb best_score score then (score, x, y) else best.

Definition search_step : Z := 4.

(** Positions of the coarse loops. *)
Definition coarse_positions (tmpl : TemplateData) (width height : Z) : list (Z * Z) :=
  let '(rx, ry) := region_origin (tmpl_search_region tmpl) in
  let '(rw, rh) := region_extent (tmpl_search_region tmpl) width height in
  grid (steps ry (ry + rh - tmpl_height tmpl) search_step)
       (steps rx (rx + rw - tmpl_width tmpl) search_step).

(** The inner fine loop, [for (x = best_x - step; x <= best_x + step; x++)],
    from column [x] of row [y]. Its bound is read again at every iteration
    and moves with [best_x] when a better position is found, so the loop is
    run on [fuel]; [None] when the fuel ends before the loop does. *)
Fixpoint fine_columns (fuel : nat) (score_at : Z -> Z -> spec_float) (y x : Z)
    (best : Best) : option Best :=
  match fuel with
  | O => None
  | S fuel' =>
      let '(_, best_x, _) := best in
      if x <=? best_x + search_step
      then fine_columns fuel' score_at y (x + 1) (try_position score_at best (x, y))
      else Some best
  end.

(** The outer fine loop, [for (y = best_y - step; y <= best_y + step; y++)],
    from row [y]; each row starts at the current [best_x - step]. *)
Fixpoint fine_rows (fuel fuel_x : nat) (score_at : Z -> Z -> spec_float) (y : Z)
    (best : Best) : option Best :=
  match fuel with
  | O => None
  | S fuel' =>
      let '(_, best_x, best_y) := best in
      if y <=? best_y + search_step then
        match fine_columns fuel_x score_at y (best_x - search_step) best with
        | Some best' => fine_rows fuel' fuel_x score_at (y + 1) best'
        | None => None
        end
      else Some best
  end.

(** The fine phase. A score above 0 is only given inside the frame, so the
    window ends within 4 of it and [width + 9] columns, [height + 9] rows
    are fuel enough (see [TemplateSearch.fine_match_total]). *)
Definition fine_match (score_at : Z -> Z -> spec_float) (width height : Z)
    (coarse : Best) : option Best :=
  let '(_, _, best_y) := coarse in
  fine_rows (Z.to_nat (height + 9)) (Z.to_nat (width + 9)) score_at
            (best_y - search_step) coarse.

(** The coarse phase, from [best_score = 0], [best_x = best_y = 0]. *)
Definition coarse_match (score_at : Z -> Z -> spec_float) (tmpl : TemplateData)
    (width height : Z) : Best :=
  fold_left (try_position score_at) (coarse_positions tmpl width height)
            (F32.zero, 0, 0).

(** The two search phases. *)
Definition best_match (score_at : Z -> Z -> spec_float) (tmpl : TemplateData)
    (width height : Z) : Best :=
  let coarse := coarse_match score_at tmpl width height in
  let '(best_score, _, _) := coarse in
  if F32.ltb F32.half best_score then
    match fine_match score_at width height coarse with
    | Some best => best
    | None => coarse
    end
  else coarse.

(** [vision_find_template]; the static [result] is returned by value. *)
Definition vision_find_template (build : Build) (clock : Clock) (frame : list Z)
    (width height : Z) (tmpl : TemplateData) : VisionResult * Clock :=
  let '(now, clock) := get_time_ns clock in
  let '(best_score, best_x, best_y) :=
    best_match (fun x y => template_match build frame width height x y tmpl)
               tmpl width height in
  (mkResult (tmpl_id tmpl)
            (F32.leb (tmpl_threshold tmpl) best_score)
            best_score
            (mkPoint (best_x + div (tmpl_width tmpl) 2) (best_y + div (tmpl_height tmpl) 2))
            (mkRect best_x best_y (tmpl_width tmpl) (tmpl_height tmpl))
            now,
   clock).

(** One pixel's gradient between two positions of the frame: the three
    colour channels' absolute differences. *)
Definition grad (frame : list Z) (i_next i_prev : Z) : Z :=
  abs (byte_at frame i_next - byte_at frame i_prev)
  + abs (byte_at frame (i_next + 1) - byte_at frame (i_prev + 1))
  + abs (byte_at frame (i_next + 2) - byte_at frame (i_prev + 2)).

(** [max_gradient], [edge_pos] after one more row or column. *)
Definition edge_step (gradient_sum : Z -> Z) (acc : Z * Z) (pos : Z) : Z * Z :=
  let '(max_gradient, edge_pos) := acc in
  if gradient_sum pos >? max_gradient then (gradient_sum pos, pos) else acc.

(** [vision_detect_edge]: the return value and [*out_position]. *)
Definition vision_detect_edge (frame : list Z) (width height : Z) (region : Rect2D)
    (horizontal : bool) : Z * Z :=
  let '(rx, ry, rw, rh) := clip_region region width height in
  let '(max_gradient, edge_pos) :=
    if horizontal then
      fold_left
        (edge_step (fun y =>
           fold_left (fun sum x =>
                        sum + grad frame ((y + 1) * width * 4 + x * 4)
                                         ((y - 1) * width * 4 + x * 4))
                     (steps rx (rx + rw) 1) 0))
        (steps (ry + 1) (ry + rh - 1) 1) (0, -1)
    else
      fold_left
        (edge_step (fun x =>
           fold_left (fun sum y =>
                        sum + grad frame (y * width * 4 + (x + 1) * 4)
                                         (y * width * 4 + (x - 1) * 4))
                     (steps ry (ry + rh) 1) 0))
        (steps (rx + 1) (rx + rw - 1) 1) (0, -1) in
  (if max_gradient >? 1000 then 0 else -1, edge_pos).

(** The engine's tables; [g_template_count] and [g_trigger_count] are the
    lists' lengths. [uninit_center] is the indeterminate content of the local
    [center] that the colour case copies when nothing was written to it. *)
Record State := mkState {
  g_templates : list TemplateData;
  g_triggers : list VisualTrigger;
  g_vision_initialized : bool;
  uninit_center : Point2D
}.

(** The body of the trigger loop for an active trigger: the slot after the
    writes through [r]. *)
Definition run_trigger (build : Build) (st : State) (shm : SharedMemoryHeader)
    (start_time : Z) (trigger : VisualTrigger) (slot : VisionResult) (clock : Clock)
    : VisionResult * Clock :=
  let r := mkResult (trig_id trigger) (res_found slot) (res_confidence slot)
                    (res_location slot) (res_bounding_box slot) start_time in
  let frame := frame_data shm in
  match trig_params trigger with
  | TRIGGER_TEMPLATE_MATCH template_id =>
      let tmpl_idx := i32 template_id in
      if tmpl_idx <? Z.of_nat (List.length (g_templates st)) then
        (* a negative index reads before the table (undefined in C): the
           slot is left as it is *)
        match (if tmpl_idx <? 0 then None
               else nth_error (g_templates st) (Z.to_nat tmpl_idx)) with
        | Some tmpl =>
            vision_find_template build clock frame (frame_width shm) (frame_height shm) tmpl
        | None => (r, clock)
        end
      else (r, clock)
  | TRIGGER_COLOR_MATCH color_hsv =>
      let '(count, center) :=
        vision_find_color_region build frame (frame_width shm) (frame_height shm)
                                 (Some (trig_region trigger)) color_hsv 15 true in
      (mkResult (res_trigger_id r) (count >? 100)
                (if count >? 0 then F32.one else F32.zero)
                (match center with Some c => c | None => uninit_center st end)
                (res_bounding_box r) (res_timestamp_ns r),
       clock)
  | TRIGGER_EDGE_DETECT _ horizontal =>
      let '(ret, pos) :=
        vision_detect_edge frame (frame_width shm) (frame_height shm)
                           (trig_region trigger) horizontal in
      let found := ret =? 0 in
      let region := trig_region trigger in
      (mkResult (res_trigger_id r) found
                (if found then F32.one else F32.zero)
                (if horizontal
                 then mkPoint (rect_x region + div (rect_width region) 2) pos
                 else mkPoint pos (rect_y region + div (rect_height region) 2))
                (res_bounding_box r) (res_timestamp_ns r),
       clock)
  | TRIGGER_OCR_REGION => (r, clock)
  end.

(** The trigger loop: [for (i = 0; i < g_trigger_count && result_count < 16; i++)]. *)
Fixpoint trigger_loop (build : Build) (st : State) (shm : SharedMemoryHeader)
    (start_time : Z) (triggers : list VisualTrigger)
    (slots : list VisionResult) (result_count : nat) (clock : Clock)
    : list VisionResult * nat * Clock :=
  match triggers with
  | [] => (slots, result_count, clock)
  | trigger :: rest =>
      if (Z.of_nat result_count <? 16) then
        if trig_active trigger then
          let '(r, clock) :=
            run_trigger build st shm start_time trigger
                        (nth result_count slots zero_result) clock in
          trigger_loop build st shm start_time rest
                       (store slots result_count r) (S result_count) clock
        else trigger_loop build st shm start_time rest slots result_count clock
      else (slots, result_count, clock)
  end.

Definition set_vision_output (shm : SharedMemoryHeader) (slots : list VisionResult)
    (count latency : Z) : SharedMemoryHeader :=
  mkShm (magic shm) (version shm) (frame_number shm) (frame_timestamp_ns shm)
        (frame_ready shm) (result_ready shm) (current_state shm)
        (frame_width shm) (frame_height shm) (frame_stride shm)
        latency (brain_latency_ns shm) (total_latency_ns shm)
        count slots (pending_action shm) (frame_data shm).

(** [vision_process_frame]; [shm = None] is the null pointer. Returns the
    status, the header after the call and the clock. *)
Definition vision_process_frame (build : Build) (st : State) (clock : Clock)
    (shm : option SharedMemoryHeader) : Z * option SharedMemoryHeader * Clock :=
  match shm with
  | None => (-1, None, clock)
  | Some h =>
      if frame_ready h =? 0 then (-1, Some h, clock)
      else
        let '(start_time, clock) := get_time_ns clock in
        let '(slots, result_count, clock) :=
          trigger_loop build st h start_time (g_triggers st) (results h) 0%nat clock in
        let '(end_time, clock) := get_time_ns clock in
        (0, Some (set_vision_output h slots (Z.of_nat result_count) (end_time - start_time)),
         clock)
  end.

(** *** Table management *)

Definition RASHPLAYER_MAX_TEMPLATES : Z := 32.
Definition RASHPLAYER_MAX_TRIGGERS : Z := 64.

(** [vision_init]: a second call leaves the tables alone. *)
Definition vision_init (st : State) : Z * State :=
  if g_vision_initialized st then (0, st)
  else (0, mkState [] [] true (uninit_center st)).

Definition vision_shutdown (st : State) : State :=
  mkState [] [] false (uninit_center st).

(** [(size_t) z] on a 64-bit target. *)
Definition size_t (z : Z) : Z := z mod 18446744073709551616.

(** [memcpy(dst, src, n)] into a fresh buffer of [n] bytes. *)
Definition memcpy (src : list Z) (n : Z) : list Z := map (byte_at src) (steps 0 n 1).

(** [vision_load_template]; [tmpl = None] is the null pointer and [malloc]
    tells whether an allocation of the given size succeeds. The slot written
    before a failed allocation lies beyond [g_template_count]. *)
Definition vision_load_template (malloc : Z -> bool) (st : State)
    (tmpl : option TemplateData) : Z * State :=
  match tmpl with
  | None => (-1, st)
  | Some t =>
      if Z.of_nat (List.length (g_templates st)) >=? RASHPLAYER_MAX_TEMPLATES then (-1, st)
      else
        let data_size := size_t (i32 (tmpl_width t * tmpl_height t * 4)) in
        if malloc data_size then
          (Z.of_nat (List.length (g_templates st)),
           mkState (g_templates st
                    ++ [mkTemplate (tmpl_id t) (tmpl_name t) (memcpy (tmpl_data t) data_size)
                                   (tmpl_width t) (tmpl_height t) (tmpl_threshold t)
                                   (tmpl_search_region t)])
                   (g_triggers st) (g_vision_initialized st) (uninit_center st))
        else (-1, st)
  end.

(** [vision_add_trigger]; [trigger = None] is the null pointer. *)
Definition vision_add_trigger (st : State) (trigger : option VisualTrigger) : Z * State :=
  match trigger with
  | None => (-1, st)
  | Some t =>
      if Z.of_nat (List.length (g_triggers st)) >=? RASHPLAYER_MAX_TRIGGERS then (-1, st)
      else
        (Z.of_nat (List.length (g_triggers st)),
         mkState (g_templates st) (g_triggers st ++ [t])
                 (g_vision_initialized st) (uninit_center st))
  end.

End VisionEngine.

(* ------------------------------------------------------------------------- *)
(** ** game_functions.c *)

Module GameFunctions.

(** [rgb_to_hsv] (binary32 arithmetic, results converted to [uint8_t]). *)
Definition rgb_to_hsv (r g b : Z) : ColorHSV :=
  let c255 := F32.of_Z 255 in
  let rf := F32.div (F32.of_Z r) c255 in
  let gf := F32.div (F32.of_Z g) c255 in
  let bf := F32.div (F32.of_Z b) c255 in
  let cmax := F32.fmaxf (F32.fmaxf rf gf) bf in
  let cmin := F32.fminf (F32.fminf rf gf) bf in
  let delta := F32.sub cmax cmin in
  let hf :=
    if negb (F32.eqb delta F32.zero) then
      if F32.eqb cmax rf then
        F32.mul (F32.of_Z 60) (F32.fmodf (F32.div (F32.sub gf bf) delta) (F32.of_Z 6))
      else if F32.eqb cmax gf then
        F32.mul (F32.of_Z 60) (F32.add (F32.div (F32.sub bf rf) delta) (F32.of_Z 2))
      else
        F32.mul (F32.of_Z 60) (F32.add (F32.div (F32.sub rf gf) delta) (F32.of_Z 4))
    else F32.zero in
  let hf := if F32.ltb hf F32.zero then F32.add hf (F32.of_Z 360) else hf in
  let sf := if F32.eqb cmax F32.zero then F32.zero else F32.div delta cmax in
  let vf := cmax in
  mkHSV (CInt.u8 (F32.trunc (F32.div hf (F32.of_Z 2))))
        (CInt.u8 (F32.trunc (F32.mul sf c255)))
        (CInt.u8 (F32.trunc (F32.mul vf c255))).

(** [hsv_in_range]: three inclusive interval tests. *)
Definition hsv_in_range (h s v : Z) (low high : Z * Z * Z) : bool :=
  let '(l0, l1, l2) := low in
  let '(h0, h1, h2) := high in
  (h >=? l0) && (h <=? h0) && (s >=? l1) && (s <=? h1) && (v >=? l2) && (v <=? h2).

(** *** Detection *)

Record BirdDetection := mkBird {
  bird_x : Z; bird_y : Z;
  bird_width : Z; bird_height : Z;
  bird_center_x : Z; bird_center_y : Z
}.

Record PipeDetection := mkPipe {
  pipe_x : Z; pipe_y : Z;
  pipe_width : Z; pipe_height : Z;
  pipe_center_x : Z; pipe_center_y : Z;
  is_top : bool
}.

Record GapInfo := mkGap { gap_x : Z; gap_y : Z; gap_pipe_x : Z }.

(** [search_region ? search_region[k] : ...]; [None] is the null pointer. *)
Definition search_bounds (search_region : option (Z * Z * Z * Z)) (width height : Z)
    : Z * Z * Z * Z :=
  match search_region with
  | Some r => r
  | None => (0, 0, width, height)
  end.

(** The pixel at [(x, y)] read as RGBA (four channels) or BGR, converted and
    tested against the range. *)
Definition pixel_in_range (frame_data : list Z) (width channels : Z)
    (hsv_low hsv_high : Z * Z * Z) (x y : Z) : bool :=
  let idx := (y * width + x) * channels in
  let '(r, g, b) :=
    if channels =? 4
    then (byte_at frame_data idx, byte_at frame_data (idx + 1), byte_at frame_data (idx + 2))
    else (byte_at frame_data (idx + 2), byte_at frame_data (idx + 1), byte_at frame_data idx) in
  let c := rgb_to_hsv r g b in
  hsv_in_range (hsv_h c) (hsv_s c) (hsv_v c) hsv_low hsv_high.

Record BlobBounds := mkBlob {
  min_x : Z; min_y : Z; max_x : Z; max_y : Z; pixel_count : Z
}.

(** The update of [best] for a matching pixel. *)
Definition blob_add (best : BlobBounds) (x y : Z) : BlobBounds :=
  if pixel_count best =? 0 then mkBlob x y x y (pixel_count best + 1)
  else mkBlob (if x <? min_x best then x else min_x best)
              (if y <? min_y best then y else min_y best)
              (if x >? max_x best then x else max_x best)
              (if y >? max_y best then y else max_y best)
              (pixel_count best + 1).

(** The scan of [detect_bird_color] over the pixels [ps]. *)
Definition blob_scan (frame_data : list Z) (width channels : Z)
    (hsv_low hsv_high : Z * Z * Z) (ps : list (Z * Z)) (best : BlobBounds) : BlobBounds :=
  fold_left (fun best '(x, y) =>
               if pixel_in_range frame_data width channels hsv_low hsv_high x y
               then blob_add best x y else best)
            ps best.

(** [detect_bird_color]: [Some] is [true] with the content of [*out_bird];
    on [false] nothing is written. *)
Definition detect_bird_color (frame_data : list Z) (width height channels : Z)
    (search_region : option (Z * Z * Z * Z)) (hsv_low hsv_high : Z * Z * Z)
    : option BirdDetection :=
  let '(sx, sy, sw, sh) := search_bounds search_region width height in
  let sw := if sx + sw >? width then width - sx else sw in
  let sh := if sy + sh >? height then height - sy else sh in
  let best :=
    blob_scan frame_data width channels hsv_low hsv_high
              (grid (steps sy (sy + sh) 1) (steps sx (sx + sw) 1)) (mkBlob 0 0 0 0 0) in
  if pixel_count best >? 200 then
    let w := max_x best - min_x best + 1 in
    let h := max_y best - min_y best + 1 in
    Some (mkBird (min_x best) (min_y best) w h
                 (min_x best + CInt.div w 2) (min_y best + CInt.div h 2))
  else None.

Definition MAX_COLUMNS : Z := 100.

(** [column_counts], [column_min_y], [column_max_y]. *)
Record Columns := mkColumns {
  column_counts : list Z;
  column_min_y : list Z;
  column_max_y : list Z
}.

(** The update of the three arrays for a matching pixel. *)
Definition column_add (sx col_width : Z) (cs : Columns) (x y : Z) : Columns :=
  let col := CInt.div (x - sx) col_width in
  let col := if col >=? MAX_COLUMNS then MAX_COLUMNS - 1 else col in
  let c := Z.to_nat col in
  mkColumns (store (column_counts cs) c (nth c (column_counts cs) 0 + 1))
            (if y <? nth c (column_min_y cs) 0
             then store (column_min_y cs) c y else column_min_y cs)
            (if y >? nth c (column_max_y cs) 0
             then store (column_max_y cs) c y else column_max_y cs).

Definition column_scan (frame_data : list Z) (width channels : Z)
    (hsv_low hsv_high : Z * Z * Z) (sx col_width : Z) (ps : list (Z * Z)) (cs : Columns)
    : Columns :=
  fold_left (fun cs '(x, y) =>
               if pixel_in_range frame_data width channels hsv_low hsv_high x y
               then column_add sx col_width cs x y else cs)
            ps cs.

(** [py], [ph_max] over the columns [pipe_start_col .. col - 1]. *)
Definition vertical_bounds (cs : Columns) (height pipe_start_col col : Z) : Z * Z :=
  fold_left (fun '(py, ph_max) c =>
               let n := Z.to_nat c in
               (if nth n (column_min_y cs) 0 <? py then nth n (column_min_y cs) 0 else py,
                if nth n (column_max_y cs) 0 >? ph_max
                then nth n (column_max_y cs) 0 else ph_max))
            (steps pipe_start_col col 1) (height, 0).

(** [out_pipes[0 .. pipe_count - 1]], [in_pipe], [pipe_start_col]. *)
Record Segments := mkSegments {
  out_pipes : list PipeDetection;
  in_pipe : bool;
  pipe_start_col : Z
}.

(** The body of the segment loop at column [col]. *)
Definition segment_step (cs : Columns) (height sx sh col_width : Z) (s : Segments) (col : Z)
    : Segments :=
  let is_pipe_col := nth (Z.to_nat col) (column_counts cs) 0 >? CInt.div sh 4 in
  if is_pipe_col && negb (in_pipe s) then mkSegments (out_pipes s) true col
  else if negb is_pipe_col && in_pipe s then
    let px := sx + pipe_start_col s * col_width in
    let pw := (col - pipe_start_col s) * col_width in
    let '(py, ph_max) := vertical_bounds cs height (pipe_start_col s) col in
    let ph := ph_max - py + 1 in
    if (pw >? 20) && (ph >? 50) then
      mkSegments (out_pipes s
                  ++ [mkPipe px py pw ph (px + CInt.div pw 2) (py + CInt.div ph 2)
                             (py <? CInt.div sh 3)])
                 false (pipe_start_col s)
    else mkSegments (out_pipes s) false (pipe_start_col s)
  else s.

(** [for (col = 0; col < MAX_COLUMNS && pipe_count < max_pipes; col++)] from
    the columns [cols] on. *)
Fixpoint segment_loop (cs : Columns) (height sx sh col_width max_pipes : Z)
    (cols : list Z) (s : Segments) : Segments :=
  match cols with
  | [] => s
  | col :: rest =>
      if Z.of_nat (List.length (out_pipes s)) <? max_pipes
      then segment_loop cs height sx sh col_width max_pipes rest
                        (segment_step cs height sx sh col_width s col)
      else s
  end.

(** [detect_pipes_color]: the entries written to [out_pipes]; the return
    value is their number. *)
Definition detect_pipes_color (frame_data : list Z) (width height channels : Z)
    (search_region : option (Z * Z * Z * Z)) (hsv_low hsv_high : Z * Z * Z)
    (max_pipes : Z) : list PipeDetection :=
  let '(sx, sy, sw, sh) := search_bounds search_region width height in
  let columns := Z.to_nat MAX_COLUMNS in
  let cs := mkColumns (repeat 0 columns) (repeat height columns) (repeat 0 columns) in
  let col_width := CInt.div sw MAX_COLUMNS in
  let col_width := if col_width <? 1 then 1 else col_width in
  let cs :=
    column_scan frame_data width channels hsv_low hsv_high sx col_width
                (grid (steps sy (sy + sh) 1) (steps sx (sx + sw) 1)) cs in
  out_pipes (segment_loop cs height sx sh col_width max_pipes
                          (steps 0 MAX_COLUMNS 1) (mkSegments [] false 0)).

(** *** Pipe analysis *)

(** [pipes[i]]. *)
Definition pipe_at (pipes : list PipeDetection) (i : Z) : PipeDetection :=
  nth (Z.to_nat i) pipes (mkPipe 0 0 0 0 0 0 false).

(** The pairs [(i, j)] of the two nested loops, [i < j < pipe_count]. *)
Definition pipe_pairs (pipe_count : Z) : list (Z * Z) :=
  flat_map (fun i => map (fun j => (i, j)) (steps (i + 1) pipe_count 1))
           (steps 0 pipe_count 1).

(** Close in [x] and of different kinds. *)
Definition forms_pair (pipes : list PipeDetection) (i j : Z) : bool :=
  (CInt.abs (pipe_center_x (pipe_at pipes i) - pipe_center_x (pipe_at pipes j)) <? 100)
  && negb (Bool.eqb (is_top (pipe_at pipes i)) (is_top (pipe_at pipes j))).

Definition pair_x (pipes : list PipeDetection) (i j : Z) : Z :=
  CInt.div (pipe_center_x (pipe_at pipes i) + pipe_center_x (pipe_at pipes j)) 2.

(** What is written to [*out_gap] for the pair [(i, j)]. *)
Definition gap_of (pipes : list PipeDetection) (i j : Z) : GapInfo :=
  let top := if is_top (pipe_at pipes i) then pipe_at pipes i else pipe_at pipes j in
  let bottom := if is_top (pipe_at pipes i) then pipe_at pipes j else pipe_at pipes i in
  mkGap (pair_x pipes i j)
        (CInt.div (pipe_y top + pipe_height top + pipe_y bottom) 2)
        (pair_x pipes i j).

(** One pair on [best_x] and [*out_gap] ([None] while nothing was written,
    which is while [found] is false). *)
Definition gap_step (pipes : list PipeDetection) (acc : Z * option GapInfo) (p : Z * Z)
    : Z * option GapInfo :=
  let '(i, j) := p in
  if forms_pair pipes i j then
    if pair_x pipes i j <? fst acc then (pair_x pipes i j, Some (gap_of pipes i j))
    else acc
  else acc.

(** [find_leftmost_gap]: [Some] is [true] with the content of [*out_gap]. *)
Definition find_leftmost_gap (pipes : list PipeDetection) (pipe_count : Z)
    : option GapInfo :=
  if pipe_count <? 2 then None
  else snd (fold_left (gap_step pipes) (pipe_pairs pipe_count) (999999, None)).

(** *** Decision *)

(** [should_tap]; [None] is a null pointer. *)
Definition should_tap (bird : option BirdDetection) (gap : option GapInfo) (threshold : Z)
    : bool :=
  match bird, gap with
  | Some b, Some g => bird_center_y b >? gap_y g + threshold
  | _, _ => false
  end.

Record GameVariables := mkVariables {
  var_bird_x : spec_float; var_bird_y : spec_float; var_bird_found : bool;
  var_pipe_count : Z;
  var_gap_center_x : spec_float; var_gap_center_y : spec_float; var_gap_found : bool
}.

(** [extract_game_variables]: [*out_vars] after the call; the fields of an
    object that was not found keep what [out_vars] held. The [config]
    argument is not read. *)
Definition extract_game_variables (frame_data : list Z) (width height channels : Z)
    (out_vars : GameVariables) : GameVariables :=
  let bird_low := (20, 150, 150) in
  let bird_high := (40, 255, 255) in
  let pipe_low := (35, 100, 100) in
  let pipe_high := (85, 255, 255) in
  let '(bx, by_, bird_found) :=
    match detect_bird_color frame_data width height channels None bird_low bird_high with
    | Some bird => (F32.of_Z (bird_center_x bird), F32.of_Z (bird_center_y bird), true)
    | None => (var_bird_x out_vars, var_bird_y out_vars, false)
    end in
  let pipes :=
    detect_pipes_color frame_data width height channels None pipe_low pipe_high 10 in
  let pipe_count := Z.of_nat (List.length pipes) in
  let '(gx, gy, gap_found) :=
    match find_leftmost_gap pipes pipe_count with
    | Some gap => (F32.of_Z (gap_x gap), F32.of_Z (gap_y gap), true)
    | None => (var_gap_center_x out_vars, var_gap_center_y out_vars, false)
    end in
  mkVariables bx by_ bird_found pipe_count gx gy gap_found.

End GameFunctions.

(* ------------------------------------------------------------------------- *)
(** ** logic_brain.c *)

Module LogicBrain.

Import CInt.

Definition MAX_RULES : Z := 256.
Definition MAX_VARIABLES : Z := 64.

(** [Variable] (a reserved word here): a name of at most 31 characters and
    its value. *)
Record VariableEntry := mkVar { var_name : string; var_value : Z }.

(** The brain's tables; [g_rule_count] and [g_variable_count] are the lists'
    lengths. *)
Record State := mkState {
  g_rules : list DecisionRule;
  g_variables : list VariableEntry;
  g_current_state : GameState;
  g_brain_initialized : bool
}.

(** [strncpy(dst, name, n); dst[n] = 0]: the first [n] characters. *)
Fixpoint strncpy (name : string) (n : nat) : string :=
  match n, name with
  | S k, String c rest => String c (strncpy rest k)
  | _, _ => EmptyString
  end.

(** The first loop of [set_variable]: overwrite the first entry whose name
    compares equal, if there is one. *)
Fixpoint replace_variable (vars : list VariableEntry) (name : string) (value : Z)
    : option (list VariableEntry) :=
  match vars with
  | [] => None
  | v :: rest =>
      if String.eqb (var_name v) name then Some (mkVar (var_name v) value :: rest)
      else match replace_variable rest name value with
           | Some rest' => Some (v :: rest')
           | None => None
           end
  end.

(** [set_variable]: the status and the table after the call. *)
Definition set_variable (vars : list VariableEntry) (name : string) (value : Z)
    : Z * list VariableEntry :=
  match replace_variable vars name value with
  | Some vars' => (0, vars')
  | None =>
      if Z.of_nat (List.length vars) >=? MAX_VARIABLES then (-1, vars)
      else (0, vars ++ [mkVar (strncpy name 31) value])
  end.

Fixpoint get_variable (vars : list VariableEntry) (name : string) : Z :=
  match vars with
  | [] => 0
  | v :: rest =>
      if String.eqb (var_name v) name then var_value v else get_variable rest name
  end.

(** *** Expression parser *)

Inductive Token :=
| TOKEN_NUMBER (num_value : Z)
| TOKEN_VARIABLE (str_value : string)
| TOKEN_OP_GT
| TOKEN_OP_LT
| TOKEN_OP_GE
| TOKEN_OP_LE
| TOKEN_OP_EQ
| TOKEN_OP_NE
| TOKEN_OP_ADD
| TOKEN_OP_SUB
| TOKEN_OP_AND
| TOKEN_OP_OR
| TOKEN_END.

(** [ctype.h] in the C locale. *)
Definition code (c : ascii) : Z := Z.of_N (N_of_ascii c).

Definition isspace (c : ascii) : bool :=
  (code c =? 32) || ((9 <=? code c) && (code c <=? 13)).

Definition isdigit (c : ascii) : bool := (48 <=? code c) && (code c <=? 57).

Definition isalpha (c : ascii) : bool :=
  ((65 <=? code c) && (code c <=? 90)) || ((97 <=? code c) && (code c <=? 122)).

Definition isalnum (c : ascii) : bool := isalpha c || isdigit c.

Fixpoint skip_spaces (expr : string) : string :=
  match expr with
  | String c rest => if isspace c then skip_spaces rest else expr
  | EmptyString => expr
  end.

(** The digits read by [strtol] in base 10, and where they end. *)
Fixpoint read_digits (expr : string) (acc : Z) : Z * string :=
  match expr with
  | String c rest =>
      if isdigit c then read_digits rest (acc * 10 + (code c - 48)) else (acc, expr)
  | EmptyString => (acc, expr)
  end.

(** [strtol(expr, &expr, 10)] on a text that starts with a digit or with a
    minus sign and a digit (the only texts [tokenize] gives it); the value
    saturates at the bounds of [long]. *)
Definition strtol (expr : string) : Z * string :=
  match expr with
  | String c rest =>
      if Ascii.eqb c "-"%char then
        let '(v, rest') := read_digits rest 0 in (Z.max LONG_MIN (- v), rest')
      else
        let '(v, rest') := read_digits expr 0 in (Z.min LONG_MAX v, rest')
  | EmptyString => (0, expr)
  end.

(** The identifier loop: at most [n] characters are copied. *)
Fixpoint read_name (expr : string) (n : nat) : string * string :=
  match n, expr with
  | S k, String c rest =>
      if isalnum c || Ascii.eqb c "_"%char then
        let '(name, rest') := read_name rest k in (String c name, rest')
      else (EmptyString, expr)
  | _, _ => (EmptyString, expr)
  end.

(** [isdigit(expr[0])] and [expr[0] == a]; the terminator is neither. *)
Definition starts_with_digit (expr : string) : bool :=
  match expr with
  | String c _ => isdigit c
  | EmptyString => false
  end.

Definition starts_with (a : ascii) (expr : string) : bool :=
  match expr with
  | String c _ => Ascii.eqb c a
  | EmptyString => false
  end.

(** [expr[0] == a && expr[1] == b] *)
Definition two_chars (a b : ascii) (expr : string) : bool :=
  match expr with
  | String c rest => Ascii.eqb c a && starts_with b rest
  | EmptyString => false
  end.

(** [expr + n] *)
Fixpoint advance (n : nat) (expr : string) : string :=
  match n, expr with
  | S k, String _ rest => advance k rest
  | _, _ => expr
  end.

(** [tokenize]: the token and the rest of the text. *)
Definition tokenize (expr : string) : Token * string :=
  let expr := skip_spaces expr in
  match expr with
  | EmptyString => (TOKEN_END, expr)
  | String c rest =>
      if isdigit c || (Ascii.eqb c "-"%char && starts_with_digit rest) then
        let '(v, expr') := strtol expr in (TOKEN_NUMBER (i32 v), expr')
      else if two_chars ">" "=" expr then (TOKEN_OP_GE, advance 2 expr)
      else if two_chars "<" "=" expr then (TOKEN_OP_LE, advance 2 expr)
      else if two_chars "=" "=" expr then (TOKEN_OP_EQ, advance 2 expr)
      else if two_chars "!" "=" expr then (TOKEN_OP_NE, advance 2 expr)
      else if two_chars "&" "&" expr then (TOKEN_OP_AND, advance 2 expr)
      else if two_chars "|" "|" expr then (TOKEN_OP_OR, advance 2 expr)
      else if Ascii.eqb c ">" then (TOKEN_OP_GT, advance 1 expr)
      else if Ascii.eqb c "<" then (TOKEN_OP_LT, advance 1 expr)
      else if Ascii.eqb c "+" then (TOKEN_OP_ADD, advance 1 expr)
      else if Ascii.eqb c "-" then (TOKEN_OP_SUB, advance 1 expr)
      else if isalpha c || Ascii.eqb c "_" then
        let '(name, expr') := read_name expr 31 in (TOKEN_VARIABLE name, expr')
      else (TOKEN_END, expr)
  end.

(** [eval_value]: the value and the advanced text. The recursion follows the
    text, which gets shorter with every operator read; [fuel] bounds it. *)
Fixpoint eval_value_fuel (fuel : nat) (vars : list VariableEntry) (expr : string)
    : option (Z * string) :=
  match fuel with
  | O => None
  | S fuel' =>
      let '(token, expr1) := tokenize expr in
      let value :=
        match token with
        | TOKEN_NUMBER n => n
        | TOKEN_VARIABLE name => get_variable vars name
        | _ => 0
        end in
      let saved := expr1 in
      let '(op, expr2) := tokenize expr1 in
      match op with
      | TOKEN_OP_ADD =>
          match eval_value_fuel fuel' vars expr2 with
          | Some (v, expr3) => Some (i32 (value + v), expr3)
          | None => None
          end
      | TOKEN_OP_SUB =>
          match eval_value_fuel fuel' vars expr2 with
          | Some (v, expr3) => Some (i32 (value - v), expr3)
          | None => None
          end
      | _ => Some (value, saved)
      end
  end.

Definition eval_value (vars : list VariableEntry) (expr : string) : option (Z * string) :=
  eval_value_fuel (S (String.length expr)) vars expr.

(** The [switch] on the relational operator ([lhs], [rhs] are the source's
    [left], [right]); any other token leaves 0. *)
Definition compare_values (op : Token) (lhs rhs : Z) : bool :=
  match op with
  | TOKEN_OP_GT => lhs >? rhs
  | TOKEN_OP_LT => lhs <? rhs
  | TOKEN_OP_GE => lhs >=? rhs
  | TOKEN_OP_LE => lhs <=? rhs
  | TOKEN_OP_EQ => lhs =? rhs
  | TOKEN_OP_NE => negb (lhs =? rhs)
  | _ => false
  end.

(** [eval_condition]; [&&] and [||] evaluate their rhs operand only when
    C does. *)
Fixpoint eval_condition_fuel (fuel : nat) (vars : list VariableEntry) (condition : string)
    : option bool :=
  match fuel with
  | O => None
  | S fuel' =>
      match eval_value vars condition with
      | None => None
      | Some (lhs, condition1) =>
          let '(op, condition2) := tokenize condition1 in
          match op with
          | TOKEN_END => Some (negb (lhs =? 0))
          | _ =>
              match eval_value vars condition2 with
              | None => None
              | Some (rhs, condition3) =>
                  let result := compare_values op lhs rhs in
                  let '(logical, condition4) := tokenize condition3 in
                  match logical with
                  | TOKEN_OP_AND =>
                      if result then eval_condition_fuel fuel' vars condition4
                      else Some false
                  | TOKEN_OP_OR =>
                      if result then Some true
                      else eval_condition_fuel fuel' vars condition4
                  | _ => Some result
                  end
              end
          end
      end
  end.

(** The text's length is fuel enough (see [eval_condition_total]); the
    default is never taken. *)
Definition eval_condition (vars : list VariableEntry) (condition : string) : bool :=
  match eval_condition_fuel (S (String.length condition)) vars condition with
  | Some b => b
  | None => false
  end.

(** *** FSM *)

Definition fsm_transition (current : GameState) (vision_results : Z) (action_pending : bool)
    : GameState :=
  match current with
  | GAME_STATE_IDLE =>
      if vision_results >? 0 then GAME_STATE_DETECTING else current
  | GAME_STATE_DETECTING =>
      if action_pending then GAME_STATE_ACTION_PENDING
      else if vision_results =? 0 then GAME_STATE_IDLE
      else current
  | GAME_STATE_ACTION_PENDING => GAME_STATE_EXECUTING
  | GAME_STATE_EXECUTING => GAME_STATE_DETECTING
  | GAME_STATE_PAUSED => current
  | GAME_STATE_ERROR => current
  end.

(** *** Public API *)

Definition brain_init (st : State) : Z * State :=
  if g_brain_initialized st then (0, st)
  else (0, mkState [] [] GAME_STATE_IDLE true).

Definition brain_shutdown (st : State) : State :=
  mkState [] [] GAME_STATE_IDLE false.

(** [brain_load_rules]; [rules = None] is the null pointer. The first [count]
    entries of the table are overwritten and [g_rule_count] becomes [count]. *)
Definition brain_load_rules (st : State) (rules : option (list DecisionRule)) (count : Z)
    : Z * State :=
  match rules with
  | None => (-1, st)
  | Some rs =>
      if (count <=? 0) || (count >? MAX_RULES) then (-1, st)
      else (0, mkState (firstn (Z.to_nat count) rs) (g_variables st)
                       (g_current_state st) (g_brain_initialized st))
  end.

Definition brain_set_state (st : State) (state : GameState) : Z * State :=
  (0, mkState (g_rules st) (g_variables st) state (g_brain_initialized st)).

Definition brain_get_state (st : State) : GameState := g_current_state st.

(** [snprintf(buf, 64, "%u", id)] *)
Definition decimal (id : Z) : string :=
  NilZero.string_of_uint (N.to_uint (Z.to_N id)).

(** The variables one result sets. *)
Definition ingest_result (vars : list VariableEntry) (r : VisionResult) : list VariableEntry :=
  if res_found r then
    let id := res_trigger_id r in
    let var_x := ("trigger_" ++ decimal id ++ "_x")%string in
    let var_y := ("trigger_" ++ decimal id ++ "_y")%string in
    let var_found := ("trigger_" ++ decimal id ++ "_found")%string in
    let vars := snd (set_variable vars var_x (pt_x (res_location r))) in
    let vars := snd (set_variable vars var_y (pt_y (res_location r))) in
    let vars := snd (set_variable vars var_found 1) in
    if id =? 1 then
      let vars := snd (set_variable vars "bird_x"%string (pt_x (res_location r))) in
      snd (set_variable vars "bird_y"%string (pt_y (res_location r)))
    else if id =? 2 then
      let vars := snd (set_variable vars "gap_center_x"%string (pt_x (res_location r))) in
      snd (set_variable vars "gap_center_y"%string (pt_y (res_location r)))
    else vars
  else vars.

(** One iteration of the rule loop on [best_priority], [best_rule]. *)
Definition consider_rule (vars : list VariableEntry) (best : Z * option DecisionRule)
    (rule : DecisionRule) : Z * option DecisionRule :=
  if rule_priority rule >? fst best then
    if eval_condition vars (rule_condition rule) then (rule_priority rule, Some rule)
    else best
  else best.

Definition select_rule (vars : list VariableEntry) (rules : list DecisionRule)
    : option DecisionRule :=
  snd (fold_left (consider_rule vars) rules (-1, None)).

(** [brain_evaluate]; [results = None] is the null pointer; the static
    [action] is returned by value, with the state after the call. *)
Definition brain_evaluate (st : State) (results : option (list VisionResult)) (count : Z)
    : ActionCommand * State :=
  let action := zero_action in
  match results with
  | None => (action, st)
  | Some rs =>
      if count <=? 0 then (action, st)
      else
        let vars := fold_left ingest_result (firstn (Z.to_nat count) rs) (g_variables st) in
        let st' := mkState (g_rules st) vars (g_current_state st) (g_brain_initialized st) in
        match select_rule vars (g_rules st) with
        | Some best_rule =>
            (mkAction (rule_action best_rule) (rule_action_target best_rule)
                      (act_end action) 50 (act_hold_ms action) F32.three_tenths,
             st')
        | None => (action, st')
        end
  end.

Definition is_none (t : ActionType) : bool :=
  match t with ACTION_NONE => true | _ => false end.

Definition is_action_pending (s : GameState) : bool :=
  match s with GAME_STATE_ACTION_PENDING => true | _ => false end.

(** [brain_process]; [shm = None] is the null pointer. *)
Definition brain_process (st : State) (clock : Clock) (shm : option SharedMemoryHeader)
    : Z * option SharedMemoryHeader * State * Clock :=
  match shm with
  | None => (-1, None, st, clock)
  | Some h =>
      let '(start_time, clock) := get_time_ns clock in
      let populated := firstn (Z.to_nat (num_results h)) (results h) in
      let has_results :=
        if (num_results h >? 0) && forallb res_found populated then 1 else 0 in
      let '(action, st) := brain_evaluate st (Some (results h)) (i32 (num_results h)) in
      let action_pending := negb (is_none (act_type action)) in
      let new_state := fsm_transition (g_current_state st) has_results action_pending in
      let st := mkState (g_rules st) (g_variables st) new_state (g_brain_initialized st) in
      let pending :=
        if action_pending && is_action_pending new_state then action
        else pending_action h in
      let '(end_time, clock) := get_time_ns clock in
      let brain_latency := end_time - start_time in
      (0,
       Some (mkShm (magic h) (version h) (frame_number h) (frame_timestamp_ns h)
                   (frame_ready h) 1 new_state
                   (frame_width h) (frame_height h) (frame_stride h)
                   (vision_latency_ns h) brain_latency
                   (vision_latency_ns h + brain_latency)
                   (num_results h) (results h) pending (frame_data h)),
       st, clock)
  end.

End LogicBrain.

(* ========================================================================= *)
(** * Properties *)

(* ------------------------------------------------------------------------- *)
(** ** Blackboard: [set_variable] and [get_variable] *)

Module Blackboard.

Import LogicBrain.

Lemma strncpy_short name n :
  (String.length name <= n)%nat -> strncpy name n = name.
Proof.
  revert n; induction name as [|c rest IH]; intros [|n] H; simpl in *;
    try reflexivity; try lia.
  f_equal; apply IH; lia.
Qed.

Lemma strncpy_length name n : (String.length (strncpy name n) <= n)%nat.
Proof.
  revert name; induction n as [|n IH]; intros [|c rest]; simpl; try lia.
  specialize (IH rest); lia.
Qed.

(** No entry of the table carries [name]. *)
Definition absent (vars : list VariableEntry) (name : string) : Prop :=
  Forall (fun v => var_name v <> name) vars.

Lemma replace_variable_none vars name value :
  replace_variable vars name value = None <-> absent vars name.
Proof.
  unfold absent; induction vars as [|v rest IH]; simpl.
  - split; [constructor | reflexivity].
  - destruct (String.eqb_spec (var_name v) name) as [E|E].
    + split; [discriminate | intros H; inversion H; contradiction].
    + destruct (replace_variable rest name value).
      * split; [discriminate|]. intros H; inversion H; subst.
        apply IH in H3; discriminate.
      * split; [|reflexivity]. intros _; constructor; [exact E | now apply IH].
Qed.

Lemma get_variable_absent vars name : absent vars name -> get_variable vars name = 0.
Proof.
  induction 1 as [|v rest Hv _ IH]; simpl; [reflexivity|].
  apply String.eqb_neq in Hv; now rewrite Hv.
Qed.

Lemma get_variable_app_absent vars extra name :
  absent vars name -> get_variable (vars ++ extra) name = get_variable extra name.
Proof.
  induction 1 as [|v rest Hv _ IH]; simpl; [reflexivity|].
  apply String.eqb_neq in Hv; now rewrite Hv.
Qed.

Lemma get_variable_app_present vars extra name :
  ~ absent vars name -> get_variable (vars ++ extra) name = get_variable vars name.
Proof.
  unfold absent; induction vars as [|v rest IH]; simpl; intros H.
  - exfalso; apply H; constructor.
  - destruct (String.eqb_spec (var_name v) name) as [E|E]; [reflexivity|].
    apply IH; intros Hr; apply H; now constructor.
Qed.

Lemma get_after_replace vars name value vars' :
  replace_variable vars name value = Some vars' -> get_variable vars' name = value.
Proof.
  revert vars'; induction vars as [|v rest IH]; simpl; intros vars' H; [discriminate|].
  destruct (String.eqb_spec (var_name v) name) as [E|E].
  - inversion H; subst; simpl. now rewrite String.eqb_refl.
  - destruct (replace_variable rest name value) as [rest'|]; [|discriminate].
    inversion H; subst; simpl. apply String.eqb_neq in E; rewrite E; now apply IH.
Qed.

Lemma get_other_after_replace vars name value vars' other :
  replace_variable vars name value = Some vars' -> other <> name ->
  get_variable vars' other = get_variable vars other.
Proof.
  revert vars'; induction vars as [|v rest IH]; simpl; intros vars' H Hne; [discriminate|].
  destruct (String.eqb_spec (var_name v) name) as [E|E].
  - inversion H; subst; simpl.
    destruct (String.eqb_spec (var_name v) other) as [E'|E']; [congruence | reflexivity].
  - destruct (replace_variable rest name value) as [rest'|]; [|discriminate].
    inversion H; subst; simpl.
    destruct (String.eqb (var_name v) other); [reflexivity | now apply IH].
Qed.

(** The entries of a replaced table: same names in the same order, the first
    entry called [name] now holding [value]. *)
Lemma replace_variable_shape vars name value vars' :
  replace_variable vars name value = Some vars' ->
  exists before v after,
    vars = before ++ v :: after /\ absent before name /\ var_name v = name /\
    vars' = before ++ mkVar name value :: after.
Proof.
  revert vars'; induction vars as [|v rest IH]; simpl; intros vars' H; [discriminate|].
  destruct (String.eqb_spec (var_name v) name) as [E|E].
  - inversion H; subst. exists [], v, rest. repeat split; constructor.
  - destruct (replace_variable rest name value) as [rest'|]; [|discriminate].
    inversion H; subst.
    destruct (IH rest' eq_refl) as (before & w & after & -> & Hb & Hw & ->).
    exists (v :: before), w, after. repeat split; try assumption.
    now constructor.
Qed.

Lemma strncpy_long name n :
  (n <= String.length name)%nat -> String.length (strncpy name n) = n.
Proof.
  revert name; induction n as [|n IH]; intros [|c rest] H; simpl in *;
    try reflexivity; try lia.
  f_equal. apply IH. lia.
Qed.

Lemma get_variable_snoc_other vars e other :
  var_name e <> other -> get_variable (vars ++ [e]) other = get_variable vars other.
Proof.
  intros H. induction vars as [|v rest IH]; cbn [app get_variable].
  - apply String.eqb_neq in H. now rewrite H.
  - now rewrite IH.
Qed.

(** C7 (as amended): with fewer than 64 live names [set_variable] succeeds
    for every name. It overwrites the first entry of that name when there is
    one, and otherwise appends an entry under the first 31 characters of the
    name, which is the name itself when it has no more. A following
    [get_variable name] yields [value] when the name was in the table or has
    at most 31 characters; for a longer name that was not in the table it
    yields 0, and the value is read under the 31-character prefix instead
    (when that prefix was not in the table before). The value read under any
    name other than the name and the stored prefix is unchanged. *)
Theorem set_then_get_truncated vars name value :
  (List.length vars < 64)%nat ->
  let '(status, vars') := set_variable vars name value in
  let stored := strncpy name 31 in
  status = 0 /\
  (absent vars name -> vars' = vars ++ [mkVar stored value]) /\
  (~ absent vars name ->
     exists before v after,
       vars = before ++ v :: after /\ absent before name /\ var_name v = name /\
       vars' = before ++ mkVar name value :: after) /\
  ((String.length name <= 31)%nat -> stored = name) /\
  (~ absent vars name \/ (String.length name <= 31)%nat ->
   get_variable vars' name = value) /\
  (absent vars name -> (31 < String.length name)%nat ->
   String.length stored = 31%nat /\
   get_variable vars' name = 0 /\
   (absent vars stored -> get_variable vars' stored = value)) /\
  (forall other, other <> name -> other <> stored ->
     get_variable vars' other = get_variable vars other).
Proof.
  intros Hlen. unfold set_variable.
  destruct (replace_variable vars name value) as [vars'|] eqn:R; cbv zeta.
  - assert (Hpresent : ~ absent vars name).
    { intros Ha. apply replace_variable_none with (value := value) in Ha. congruence. }
    split; [reflexivity|]. split; [intros Ha; contradiction|].
    split; [intros _; now apply replace_variable_shape|].
    split; [apply strncpy_short|].
    split; [intros _; now apply get_after_replace with (vars := vars)|].
    split; [intros Ha; contradiction|].
    intros other Hne _.
    now apply get_other_after_replace with (name := name) (value := value).
  - apply replace_variable_none in R.
    unfold MAX_VARIABLES.
    destruct (Z.of_nat (List.length vars) >=? 64) eqn:Full; [lia|].
    split; [reflexivity|]. split; [reflexivity|].
    split; [intros Hn; contradiction|].
    split; [apply strncpy_short|]. split; [|split].
    + intros [Hn|Hshort]; [contradiction|].
      rewrite (strncpy_short name 31 Hshort).
      rewrite get_variable_app_absent by assumption. simpl. now rewrite String.eqb_refl.
    + intros _ Hlong.
      assert (Hl : String.length (strncpy name 31) = 31%nat) by (apply strncpy_long; lia).
      split; [exact Hl|]. split.
      * rewrite get_variable_app_absent by assumption. cbn [get_variable var_name].
        destruct (String.eqb_spec (strncpy name 31) name) as [E|E]; [|reflexivity].
        rewrite E in Hl. lia.
      * intros Ha. rewrite get_variable_app_absent by assumption.
        cbn [get_variable var_name var_value]. now rewrite String.eqb_refl.
    + intros other _ Hne. apply get_variable_snoc_other. cbn [var_name]. congruence.
Qed.

(** A name of 36 characters. *)
Definition long_name : string := "abcdefghijklmnopqrstuvwxyz0123456789".

(** A table of one entry and a name of 36 characters that it does not
    hold: the entry appended carries the first 31. *)
Lemma set_then_get_truncated_witness :
  let '(status, vars') := set_variable [mkVar "bird_x" 3] long_name 9 in
  let stored := strncpy long_name 31 in
  status = 0 /\
  (absent [mkVar "bird_x" 3] long_name -> vars' = [mkVar "bird_x" 3] ++ [mkVar stored 9]) /\
  (~ absent [mkVar "bird_x" 3] long_name ->
     exists before v after,
       [mkVar "bird_x" 3] = before ++ v :: after /\ absent before long_name /\
       var_name v = long_name /\ vars' = before ++ mkVar long_name 9 :: after) /\
  ((String.length long_name <= 31)%nat -> stored = long_name) /\
  (~ absent [mkVar "bird_x" 3] long_name \/ (String.length long_name <= 31)%nat ->
   get_variable vars' long_name = 9) /\
  (absent [mkVar "bird_x" 3] long_name -> (31 < String.length long_name)%nat ->
   String.length stored = 31%nat /\
   get_variable vars' long_name = 0 /\
   (absent [mkVar "bird_x" 3] stored -> get_variable vars' stored = 9)) /\
  (forall other, other <> long_name -> other <> stored ->
     get_variable vars' other = get_variable [mkVar "bird_x" 3] other).
Proof.
  apply (set_then_get_truncated [mkVar "bird_x" 3] long_name 9). simpl. lia.
Defined.

(** C7 (as stated) fails: after [set_variable] of a 36-character name on an
    empty table, [get_variable] of that name is 0, not the value set. *)
Lemma set_then_get_long_name_counterexample :
  fst (set_variable [] long_name 7) = 0 /\
  snd (set_variable [] long_name 7) = [mkVar "abcdefghijklmnopqrstuvwxyz01234" 7] /\
  get_variable (snd (set_variable [] long_name 7)) long_name <> 7.
Proof.
  repeat split; try reflexivity. vm_compute. discriminate.
Qed.

End Blackboard.

(* ------------------------------------------------------------------------- *)
(** ** Pixel primitives: the two [rgb_to_hsv] *)

Module Pixels.

(** Truncating division of [a] by a positive [d], for [|a| <= k * d]. *)
Lemma quot_range a d k :
  0 < d -> 0 <= k -> - (k * d) <= a <= k * d ->
  - k <= Z.quot a d <= k /\ (0 <= a -> 0 <= Z.quot a d) /\ (a <= 0 -> Z.quot a d <= 0).
Proof.
  intros Hd Hk Ha.
  assert (Hpos : forall x, 0 <= x <= k * d -> 0 <= Z.quot x d <= k).
  { intros x Hx. rewrite Z.quot_div_nonneg by lia. split.
    - apply Z.div_pos; lia.
    - apply Z.div_le_upper_bound; lia. }
  destruct (Z_le_dec 0 a) as [H|H].
  - pose proof (Hpos a ltac:(lia)) as Hq. repeat split; try lia.
    intros Hle. replace a with 0 by lia. rewrite Z.quot_0_l; lia.
  - pose proof (Hpos (- a) ltac:(lia)) as Hq.
    rewrite Z.quot_opp_l in Hq by lia. repeat split; lia.
Qed.

(** X30: where the integer conversion agrees with the reference of section
    4.1: value and saturation always, hue 0 on greys; the hue never exceeds
    180, a bound it reaches (see [rgb_to_hsv_hue_180]). *)
Lemma rgb_to_hsv_bytes r g b :
  0 <= r <= 255 -> 0 <= g <= 255 -> 0 <= b <= 255 ->
  let c := VisionEngine.rgb_to_hsv r g b in
  let cmax := Z.max r (Z.max g b) in
  let cmin := Z.min r (Z.min g b) in
  hsv_v c = cmax /\
  hsv_s c = (if cmax =? 0 then 0 else 255 * (cmax - cmin) / cmax) /\
  (cmax = cmin -> hsv_h c = 0) /\
  0 <= hsv_h c <= 180.
Proof.
  intros Hr Hg Hb c cmax cmin. subst c. unfold VisionEngine.rgb_to_hsv.
  set (mx := if r >? g then if r >? b then r else b else if g >? b then g else b).
  set (mn := if r <? g then if r <? b then r else b else if g <? b then g else b).
  assert (Emx : mx = cmax).
  { subst mx cmax. destruct (r >? g) eqn:E1; destruct (r >? b) eqn:E2;
      destruct (g >? b) eqn:E3; lia. }
  assert (Emn : mn = cmin).
  { subst mn cmin. destruct (r <? g) eqn:E1; destruct (r <? b) eqn:E2;
      destruct (g <? b) eqn:E3; lia. }
  assert (Hd : CInt.u8 (mx - mn) = cmax - cmin).
  { rewrite Emx, Emn. unfold CInt.u8. apply Z.mod_small. subst cmax cmin. lia. }
  rewrite Hd. cbn [hsv_h hsv_s hsv_v].
  assert (Hrange : 0 <= cmin /\ cmin <= cmax /\ cmax <= 255) by (subst cmax cmin; lia).
  split; [exact Emx|]. split; [|split].
  - rewrite Emx. destruct (cmax =? 0) eqn:E0; [reflexivity|].
    unfold CInt.div, CInt.u8. rewrite Z.quot_div_nonneg by lia.
    apply Z.mod_small. split; [apply Z.div_pos; lia|].
    apply Z.div_lt_upper_bound; nia.
  - intros Heq. now replace (cmax - cmin =? 0) with true by lia.
  - destruct (cmax - cmin =? 0) eqn:E0; [lia|].
    assert (Hdelta : 0 < cmax - cmin) by lia.
    assert (Hu8 : forall z, 0 <= z <= 180 -> 0 <= CInt.u8 z <= 180).
    { intros z Hz. unfold CInt.u8. rewrite Z.mod_small; lia. }
    unfold CInt.div.
    destruct (mx =? r); [|destruct (mx =? g)]; apply Hu8.
    + destruct (quot_range (30 * (g - b)) (cmax - cmin) 30) as (Hq & Hp & Hn);
        [lia | lia | subst cmax cmin; lia |].
      destruct (g <? b) eqn:E; lia.
    + destruct (quot_range (30 * (b - r)) (cmax - cmin) 30) as (Hq & _);
        [lia | lia | subst cmax cmin; lia |]. lia.
    + destruct (quot_range (30 * (r - g)) (cmax - cmin) 30) as (Hq & _);
        [lia | lia | subst cmax cmin; lia |]. lia.
Qed.

Lemma rgb_to_hsv_bytes_witness :
  let c := VisionEngine.rgb_to_hsv 200 100 50 in
  let cmax := Z.max 200 (Z.max 100 50) in
  let cmin := Z.min 200 (Z.min 100 50) in
  hsv_v c = cmax /\
  hsv_s c = (if cmax =? 0 then 0 else 255 * (cmax - cmin) / cmax) /\
  (cmax = cmin -> hsv_h c = 0) /\
  0 <= hsv_h c <= 180.
Proof. apply (rgb_to_hsv_bytes 200 100 50); lia. Defined.

(** C1, at the input where the code leaves the documented hue range: for
    [(r, g, b) = (255, 0, 1)] the integer [rgb_to_hsv] of the vision engine
    yields hue 180 ([30 * (0 - 1) / 255] truncates to 0 before 180 is added),
    outside the [0-179] of [ColorHSV]; the float [rgb_to_hsv] of the game
    functions yields 179 for the same pixel, so the two do not agree. *)
Theorem rgb_to_hsv_hue_180 :
  VisionEngine.rgb_to_hsv 255 0 1 = mkHSV 180 255 255 /\
  GameFunctions.rgb_to_hsv 255 0 1 = mkHSV 179 255 255.
Proof. split; vm_compute; reflexivity. Qed.

(** The two conversions also part on saturation, where the float one loses a
    unit to rounding: [(3, 2, 1)] has saturation [255 * 2 / 3 = 170]. *)
Lemma rgb_to_hsv_saturation_differs :
  hsv_s (VisionEngine.rgb_to_hsv 3 2 1) = 170 /\
  hsv_s (GameFunctions.rgb_to_hsv 3 2 1) = 169.
Proof. split; vm_compute; reflexivity. Qed.

End Pixels.

(* ------------------------------------------------------------------------- *)
(** ** Test frames *)

Module Fixtures.

(** An RGBA frame [w] by [h] whose pixel [(x, y)] has the colour [f x y]. *)
Definition paint (w h : Z) (f : Z -> Z -> Z * Z * Z) : list Z :=
  flat_map (fun '(x, y) => let '(r, g, b) := f x y in [r; g; b; 255])
           (grid (steps 0 h 1) (steps 0 w 1)).

Definition black : Z * Z * Z := (0, 0, 0).
Definition white : Z * Z * Z := (255, 255, 255).
Definition yellow : Z * Z * Z := (255, 255, 0).

(** A header announcing a [w] by [h] frame, every result slot zeroed. *)
Definition header (w h : Z) (frame : list Z) : SharedMemoryHeader :=
  mkShm 1380012872 1 1 0 1 0 GAME_STATE_IDLE w h (w * 4) 0 0 0 0
        (repeat zero_result 16) zero_action frame.

(** A clock that advances by one microsecond per reading. *)
Definition ticking : Clock := mkClock 0 (fun n => 1000 * Z.of_nat n).

Definition no_name : string := EmptyString.

End Fixtures.

(* ------------------------------------------------------------------------- *)
(** ** Loop ranges *)

Module Loops.

(** A loop whose bound is not above its start has no iteration. *)
Lemma steps_empty lo hi : hi <= lo -> steps lo hi 1 = [].
Proof.
  intros H. unfold steps. replace (Z.to_nat ((hi - lo + 1 - 1) / 1)) with 0%nat;
    [reflexivity|]. rewrite Z.div_1_r. lia.
Qed.

Lemma grid_empty_row ys : grid ys [] = [].
Proof. unfold grid. induction ys as [|y ys IH]; simpl; [reflexivity | exact IH]. Qed.

(** A loop of step 1 passes exactly the indices from its start up to, and
    not including, its bound. *)
Lemma in_steps lo hi x : In x (steps lo hi 1) <-> lo <= x < hi.
Proof.
  unfold steps. rewrite in_map_iff. split.
  - intros (k & <- & Hk). apply in_seq in Hk.
    replace ((hi - lo + 1 - 1) / 1) with (hi - lo) in Hk by (rewrite Z.div_1_r; lia).
    lia.
  - intros H. exists (Z.to_nat (x - lo)). split; [lia|]. apply in_seq.
    replace ((hi - lo + 1 - 1) / 1) with (hi - lo) by (rewrite Z.div_1_r; lia).
    lia.
Qed.

Lemma in_grid ys xs x y : In (x, y) (grid ys xs) <-> In x xs /\ In y ys.
Proof.
  unfold grid. rewrite in_flat_map. split.
  - intros (y' & Hy & Hx). apply in_map_iff in Hx as (x' & E & Hx).
    inversion E; subst. auto.
  - intros [Hx Hy]. exists y. split; [exact Hy|]. apply in_map_iff. now exists x.
Qed.

End Loops.

(* ------------------------------------------------------------------------- *)
(** ** Vision orchestrator: [vision_process_frame] *)

Module Orchestrator.

Import VisionEngine Fixtures.

(** One white pixel as a template, matched over the whole frame. *)
Definition dot : TemplateData :=
  mkTemplate 9 no_name [255; 255; 255; 255] 1 1 F32.half zero_rect.

Definition template_engine : State :=
  mkState [dot] [mkTrigger 5 no_name (TRIGGER_TEMPLATE_MATCH 0) zero_rect true]
          true zero_point.

Definition white_2x2 : SharedMemoryHeader := header 2 2 (paint 2 2 (fun _ _ => white)).

(** C3, at a failing input: one active template trigger, a clock that
    advances between readings. The call succeeds with [num_results = 1], but
    slot 0 carries the time read inside [vision_find_template] (1000), not the
    start time of the frame (0): the [memcpy] of the match overwrites the
    [timestamp_ns] (and the [trigger_id]) stored just before. *)
Theorem template_slot_timestamp (build : Build) :
  let '(status, shm, _) := vision_process_frame build template_engine ticking (Some white_2x2) in
  status = 0 /\
  option_map num_results shm = Some 1 /\
  option_map (fun h => map res_timestamp_ns (firstn 1 (results h))) shm = Some [1000] /\
  fst (get_time_ns ticking) = 0 /\
  option_map (fun h => map res_trigger_id (firstn 1 (results h))) shm = Some [9].
Proof. destruct build; vm_compute; repeat split; reflexivity. Qed.

(** The same frame through a colour and an edge trigger: both keep the start
    time in their slots. *)
Definition sibling_engine : State :=
  mkState [] [mkTrigger 5 no_name (TRIGGER_COLOR_MATCH (mkHSV 0 0 255)) zero_rect true;
              mkTrigger 6 no_name (TRIGGER_EDGE_DETECT (mkHSV 0 0 0) true) zero_rect true]
          true zero_point.

Lemma sibling_slots_timestamp (build : Build) :
  let '(status, shm, _) := vision_process_frame build sibling_engine ticking (Some white_2x2) in
  status = 0 /\
  option_map (fun h => map res_timestamp_ns (firstn 2 (results h))) shm = Some [0; 0].
Proof. destruct build; vm_compute; repeat split; reflexivity. Qed.

(** *** What holds of every frame *)

Lemma store_length {A} (l : list A) i v : List.length (store l i v) = List.length l.
Proof.
  revert i; induction l as [|a l IH]; intros [|i]; simpl; try reflexivity.
  now rewrite IH.
Qed.

Lemma nth_store_same {A} (l : list A) i v d :
  (i < List.length l)%nat -> nth i (store l i v) d = v.
Proof.
  revert i; induction l as [|a l IH]; intros [|i]; simpl; try lia; [reflexivity|].
  intros H. apply IH. lia.
Qed.

Lemma nth_store_other {A} (l : list A) i j v d :
  i <> j -> nth j (store l i v) d = nth j l d.
Proof.
  revert i j; induction l as [|a l IH]; intros [|i] [|j] H; simpl;
    try reflexivity; try contradiction.
  apply IH. congruence.
Qed.

Definition is_template (t : VisualTrigger) : bool :=
  match trig_params t with TRIGGER_TEMPLATE_MATCH _ => true | _ => false end.

(** Every case but the template one leaves the slot the time stored at the
    head of the loop body. *)
Lemma run_trigger_timestamp build st shm start trigger slot clock :
  is_template trigger = false ->
  res_timestamp_ns (fst (run_trigger build st shm start trigger slot clock)) = start.
Proof.
  unfold is_template, run_trigger. destruct (trig_params trigger); try discriminate;
    intros _.
  - destruct (vision_find_color_region _ _ _ _ _ _ _ _) as [count center]. reflexivity.
  - destruct (vision_detect_edge _ _ _ _ _) as [ret pos]. reflexivity.
  - reflexivity.
Qed.

(** The template case leaves the time read inside [vision_find_template]. *)
Lemma run_trigger_template_timestamp build st shm start trigger slot clock idx tmpl :
  trig_params trigger = TRIGGER_TEMPLATE_MATCH idx ->
  0 <= CInt.i32 idx ->
  nth_error (g_templates st) (Z.to_nat (CInt.i32 idx)) = Some tmpl ->
  res_timestamp_ns (fst (run_trigger build st shm start trigger slot clock))
  = fst (get_time_ns clock).
Proof.
  intros Hp Hidx Hnth. unfold run_trigger. rewrite Hp.
  assert (Hlt : (Z.to_nat (CInt.i32 idx) < List.length (g_templates st))%nat)
    by (apply nth_error_Some; congruence).
  replace (CInt.i32 idx <? Z.of_nat (List.length (g_templates st))) with true by lia.
  replace (CInt.i32 idx <? 0) with false by lia. rewrite Hnth.
  unfold vision_find_template. destruct (get_time_ns clock) as [now clock'].
  destruct (best_match _ _ _ _) as [[s x] y]. reflexivity.
Qed.

(** The loop fills at most 16 slots, and the slots it fills for triggers
    other than template ones carry the start time. *)
Lemma trigger_loop_slots build st shm start triggers slots n clock :
  (n <= 16)%nat -> (16 <= List.length slots)%nat ->
  forallb (fun t => negb (trig_active t && is_template t)) triggers = true ->
  let '(slots', n', _) := trigger_loop build st shm start triggers slots n clock in
  (n <= n' <= 16)%nat /\ List.length slots' = List.length slots /\
  (forall i, (i < n)%nat -> nth i slots' zero_result = nth i slots zero_result) /\
  (forall i, (n <= i < n')%nat -> res_timestamp_ns (nth i slots' zero_result) = start).
Proof.
  revert slots n clock; induction triggers as [|t rest IH]; intros slots n clock Hn Hlen Hall;
    cbn [trigger_loop].
  - repeat split; intros; try lia; try reflexivity.
  - cbn [forallb] in Hall. apply andb_prop in Hall as [Ht Hrest].
    destruct (Z.of_nat n <? 16) eqn:E;
      [|repeat split; intros; try lia; try reflexivity].
    destruct (trig_active t) eqn:Ea.
    + simpl in Ht. apply negb_true_iff in Ht.
      pose proof (run_trigger_timestamp build st shm start t (nth n slots zero_result)
                    clock Ht) as Hts.
      destruct (run_trigger build st shm start t (nth n slots zero_result) clock)
        as [r clock'].
      specialize (IH (store slots n r) (S n) clock').
      destruct (trigger_loop build st shm start rest (store slots n r) (S n) clock')
        as [[slots' n'] clock''].
      destruct IH as (Hcount & Hl & Hold & Hnew);
        [lia | rewrite store_length; lia | exact Hrest |].
      rewrite store_length in Hl. repeat split; try lia.
      * intros i Hi. rewrite Hold by lia. apply nth_store_other. lia.
      * intros i Hi. destruct (Nat.eq_dec i n) as [->|Hne].
        -- rewrite Hold by lia. rewrite nth_store_same by lia. exact Hts.
        -- apply Hnew. lia.
    + apply IH; assumption.
Qed.

Lemma trigger_loop_count build st shm start triggers slots n clock :
  (n <= 16)%nat ->
  (snd (fst (trigger_loop build st shm start triggers slots n clock)) <= 16)%nat.
Proof.
  revert slots n clock; induction triggers as [|t rest IH]; intros slots n clock Hn;
    cbn [trigger_loop]; [exact Hn|].
  destruct (Z.of_nat n <? 16) eqn:E; [|exact Hn].
  destruct (trig_active t); [|now apply IH].
  destruct (run_trigger _ _ _ _ _ _ _) as [r c1]. apply IH. lia.
Qed.

(** After every successful call [num_results <= 16]; and when no active
    trigger is a template trigger, every populated slot carries the start
    time of the frame. *)
Lemma process_frame_slots build st clock h :
  frame_ready h <> 0 -> (16 <= List.length (results h))%nat ->
  let '(status, shm, _) := vision_process_frame build st clock (Some h) in
  status = 0 /\
  exists h', shm = Some h' /\ 0 <= num_results h' <= 16 /\
    (forallb (fun t => negb (trig_active t && is_template t)) (g_triggers st) = true ->
     forall i, (i < Z.to_nat (num_results h'))%nat ->
       res_timestamp_ns (nth i (results h') zero_result) = fst (get_time_ns clock)).
Proof.
  intros Hready Hlen. unfold vision_process_frame.
  replace (frame_ready h =? 0) with false by lia.
  destruct (get_time_ns clock) as [start clock1] eqn:Ec. cbn [fst].
  pose proof (trigger_loop_slots build st h start (g_triggers st) (results h) 0 clock1
                (Nat.le_0_l 16) Hlen) as Hloop.
  pose proof (trigger_loop_count build st h start (g_triggers st) (results h) 0 clock1
                (Nat.le_0_l 16)) as Hcount.
  destruct (trigger_loop build st h start (g_triggers st) (results h) 0 clock1)
    as [[slots n] clock2] eqn:El.
  destruct (get_time_ns clock2) as [stop clock3].
  split; [reflexivity|]. eexists. split; [reflexivity|].
  cbn [set_vision_output num_results results]. cbn [fst snd] in Hcount.
  split; [lia|].
  intros Hall i Hi. destruct (Hloop Hall) as (_ & _ & _ & Hnew).
  apply Hnew. lia.
Qed.

(** A 4 by 4 frame, black above white, and a horizontal edge trigger whose
    region [(2, 0, 4, 4)] reaches two pixels past the right border. *)
Definition two_tone : SharedMemoryHeader :=
  header 4 4 (paint 4 4 (fun _ y => if y <? 2 then black else white)).

Definition edge_engine : State :=
  mkState [] [mkTrigger 3 no_name (TRIGGER_EDGE_DETECT (mkHSV 0 0 0) true)
                        (mkRect 2 0 4 4) true]
          true zero_point.

(** C8, at a failing input: the edge is found (gradient sum 1530 over the two
    columns left after clipping), and the reported location is [(4, 1)]: its
    [x] is the unclipped region's midpoint [2 + 4 / 2], which is not below the
    frame width 4. *)
Theorem edge_location_outside_frame (build : Build) :
  let '(status, shm, _) := vision_process_frame build edge_engine ticking (Some two_tone) in
  status = 0 /\
  option_map num_results shm = Some 1 /\
  option_map (fun h => map res_found (firstn 1 (results h))) shm = Some [true] /\
  option_map (fun h => map res_location (firstn 1 (results h))) shm = Some [mkPoint 4 1] /\
  frame_width two_tone = 4.
Proof. destruct build; vm_compute; repeat split; reflexivity. Qed.

End Orchestrator.

(* ------------------------------------------------------------------------- *)
(** ** Colour-blob detector *)

Module ColorScan.

Import VisionEngine Fixtures.

(** *** The scan as a specification: the first [cap] matching pixels *)

Section Scan.

Variables (frame : list Z) (width : Z) (target : ColorHSV) (tolerance cap : Z).

Definition hit (p : Z * Z) : bool :=
  hsv_close target (pixel_hsv frame width (fst p) (snd p)) tolerance.

(** The matching pixels among [ps], in scan order, up to [n] of them. *)
Definition hits (n : Z) (ps : list (Z * Z)) : list (Z * Z) :=
  firstn (Z.to_nat n) (filter hit ps).

Definition total (l : list Z) : Z := fold_right Z.add 0 l.

Lemma hits_nil n : hits n [] = [].
Proof. unfold hits. simpl. apply firstn_nil. Qed.

Lemma hits_none n ps : n <= 0 -> hits n ps = [].
Proof. intros H. unfold hits. now replace (Z.to_nat n) with 0%nat by lia. Qed.

Lemma hits_miss n p ps : hit p = false -> hits n (p :: ps) = hits n ps.
Proof. intros H. unfold hits. simpl. now rewrite H. Qed.

Lemma hits_hit n p ps : 0 < n -> hit p = true -> hits n (p :: ps) = p :: hits (n - 1) ps.
Proof.
  intros Hn H. unfold hits. simpl. rewrite H.
  replace (Z.to_nat n) with (S (Z.to_nat (n - 1))) by lia. reflexivity.
Qed.

Lemma scan_scalar_hits ps a :
  match_count a < cap ->
  let found := hits (cap - match_count a) ps in
  scan_scalar frame width target tolerance cap ps a
  = mkAcc (match_count a + Z.of_nat (List.length found))
          (sum_x a + total (map fst found))
          (sum_y a + total (map snd found)).
Proof.
  revert a; induction ps as [|[x y] ps IH]; intros a Ha; cbn zeta.
  - rewrite hits_nil. simpl. rewrite !Z.add_0_r. now destruct a.
  - cbn [scan_scalar].
    change (hsv_close target (pixel_hsv frame width x y) tolerance) with (hit (x, y)).
    destruct (hit (x, y)) eqn:Hp.
    + rewrite (hits_hit _ _ ps) by (lia || exact Hp).
      destruct (match_count (acc_add a x y) >=? cap) eqn:E.
      * unfold acc_add in *. simpl in E.
        rewrite hits_none by lia. simpl. f_equal; lia.
      * unfold acc_add in E. simpl in E.
        rewrite IH by (unfold acc_add; simpl; lia).
        unfold acc_add. cbn [match_count sum_x sum_y].
        replace (cap - (match_count a + 1)) with (cap - match_count a - 1) by lia.
        cbn [List.length map total fold_right fst snd].
        fold (total (map fst (hits (cap - match_count a - 1) ps))).
        fold (total (map snd (hits (cap - match_count a - 1) ps))).
        f_equal; lia.
    + rewrite (hits_miss _ _ ps Hp). apply IH. exact Ha.
Qed.

End Scan.

(** With a positive cap, [find_color_scalar] returns the number of matching
    pixels of the rectangle [clip_region] computes, taken in row-major order
    and at most [cap] of them, and, when there is one, the centre
    [(sum x / count, sum y / count)] of those pixels. *)
Lemma find_color_scalar_counts frame width height region target tolerance cap :
  0 < cap ->
  let '(rx, ry, rw, rh) := clip_region region width height in
  let pixels := grid (steps ry (ry + rh) 1) (steps rx (rx + rw) 1) in
  let found := hits frame width target tolerance cap pixels in
  let count := Z.of_nat (List.length found) in
  find_color_scalar frame width height region target tolerance true cap
  = (count,
     if count >? 0
     then Some (mkPoint (CInt.i32 (Z.quot (total (map fst found)) count))
                        (CInt.i32 (Z.quot (total (map snd found)) count)))
     else None).
Proof.
  intros Hcap. unfold find_color_scalar.
  destruct (clip_region region width height) as [[[rx ry] rw] rh].
  rewrite scan_scalar_hits by (simpl; lia).
  unfold color_result. simpl. rewrite Z.sub_0_r, andb_true_r. reflexivity.
Qed.

(** The rectangle is the region cut at the frame's right and bottom edges
    whenever the region starts inside the frame's quadrant with a positive
    extent; a non-positive clipped extent leaves nothing to scan. *)
Lemma clip_region_inside region width height :
  0 <= rect_x region -> 0 <= rect_y region ->
  0 < rect_width region -> 0 < rect_height region ->
  clip_region region width height
  = (rect_x region, rect_y region,
     Z.min (rect_width region) (width - rect_x region),
     Z.min (rect_height region) (height - rect_y region)).
Proof.
  intros Hx Hy Hw Hh. unfold clip_region, region_origin, region_extent.
  replace (rect_width region >? 0) with true by lia.
  replace (rect_height region >? 0) with true by lia.
  destruct (rect_x region >? 0) eqn:Ex; destruct (rect_y region >? 0) eqn:Ey;
    repeat match goal with
           | |- context [if ?b then _ else _] => destruct b eqn:?
           end; rewrite !pair_equal_spec; repeat split; lia.
Qed.

Lemma find_color_scalar_empty frame width height region target tolerance cap :
  let '(_, _, rw, rh) := clip_region region width height in
  rw <= 0 \/ rh <= 0 ->
  fst (find_color_scalar frame width height region target tolerance true cap) = 0.
Proof.
  unfold find_color_scalar.
  destruct (clip_region region width height) as [[[rx ry] rw] rh].
  intros [H|H].
  - rewrite (Loops.steps_empty rx (rx + rw)) by lia.
    rewrite Loops.grid_empty_row. reflexivity.
  - rewrite (Loops.steps_empty ry (ry + rh)) by lia. reflexivity.
Qed.

(** *** The centre lies among the scanned pixels *)

Lemma total_range l lo hi :
  Forall (fun x => lo <= x < hi) l ->
  Z.of_nat (List.length l) * lo <= total l <= Z.of_nat (List.length l) * (hi - 1).
Proof.
  induction 1 as [|x l Hx _ IH]; [simpl; lia|].
  change (total (x :: l)) with (x + total l).
  rewrite length_cons, Nat2Z.inj_succ. lia.
Qed.

Lemma mean_range l lo hi :
  l <> [] -> Forall (fun x => lo <= x < hi) l -> 0 <= lo ->
  lo <= Z.quot (total l) (Z.of_nat (List.length l)) < hi.
Proof.
  intros Hne Hall Hlo. pose proof (total_range l lo hi Hall) as Ht.
  assert (Hn : 0 < Z.of_nat (List.length l)) by (destruct l; [congruence | simpl; lia]).
  rewrite Z.quot_div_nonneg by nia. split.
  - apply Z.div_le_lower_bound; lia.
  - apply Z.div_lt_upper_bound; nia.
Qed.

Lemma clip_region_in_frame region width height :
  let '(rx, ry, rw, rh) := clip_region region width height in
  0 <= rx /\ 0 <= ry /\ rx + rw <= width /\ ry + rh <= height.
Proof.
  unfold clip_region, region_origin, region_extent.
  repeat match goal with
         | |- context [if ?b then _ else _] => destruct b eqn:?
         end; lia.
Qed.

(** When [find_color_scalar] reports a centre, it is a pixel of the frame:
    the mean of scanned columns is a scanned column, and likewise for rows. *)
Lemma find_color_scalar_center frame width height region target tolerance cap count c :
  0 < cap -> width <= 1920 -> height <= 1080 ->
  find_color_scalar frame width height region target tolerance true cap = (count, Some c) ->
  0 <= pt_x c < width /\ 0 <= pt_y c < height.
Proof.
  intros Hcap Hw Hh.
  pose proof (find_color_scalar_counts frame width height region target tolerance cap Hcap)
    as Hspec.
  pose proof (clip_region_in_frame region width height) as Hclip.
  destruct (clip_region region width height) as [[[rx ry] rw] rh].
  cbv zeta in Hspec. rewrite Hspec. clear Hspec.
  set (pixels := grid (steps ry (ry + rh) 1) (steps rx (rx + rw) 1)).
  set (found := hits frame width target tolerance cap pixels).
  destruct (Z.of_nat (List.length found) >? 0) eqn:E; [|discriminate].
  intros [= _ <-]. cbn [pt_x pt_y].
  assert (Hin : forall p, In p found -> rx <= fst p < rx + rw /\ ry <= snd p < ry + rh).
  { intros [x y] Hp. subst found. unfold hits in Hp.
    assert (Hf : In (x, y) (filter (hit frame width target tolerance) pixels)).
    { rewrite <- (firstn_skipn (Z.to_nat cap)). apply in_or_app. now left. }
    apply filter_In in Hf as [Hf _]. clear Hp. rename Hf into Hp.
    subst pixels. apply Loops.in_grid in Hp. rewrite !Loops.in_steps in Hp. exact Hp. }
  assert (Hne : found <> []) by (destruct found; [discriminate | congruence]).
  assert (Hx : rx <= Z.quot (total (map fst found)) (Z.of_nat (List.length found)) < rx + rw).
  { rewrite <- (length_map fst found). apply mean_range; [| |lia].
    - destruct found; [congruence | discriminate].
    - apply Forall_forall. intros x Hx. apply in_map_iff in Hx as (p & <- & Hp).
      apply (Hin p Hp). }
  assert (Hy : ry <= Z.quot (total (map snd found)) (Z.of_nat (List.length found)) < ry + rh).
  { rewrite <- (length_map snd found). apply mean_range; [| |lia].
    - destruct found; [congruence | discriminate].
    - apply Forall_forall. intros y Hy. apply in_map_iff in Hy as (p & <- & Hp).
      apply (Hin p Hp). }
  unfold CInt.i32. rewrite !Z.mod_small by lia. lia.
Qed.

(** One row of eight pixels, the right half yellow. *)
Definition half_yellow : list Z := paint 8 1 (fun x _ => if x <? 4 then black else yellow).

Definition yellow_hsv : ColorHSV := mkHSV 30 255 255.

(** The region [(-4, 0, 8, 1)] covers the columns [-4 .. 3]. *)
Definition left_overhang : Rect2D := mkRect (-4) 0 8 1.

(** C5, at a failing input: the part of [left_overhang] inside the frame is
    the columns 0 to 3, none of which passes the tolerance test; the scan
    nevertheless counts the four yellow pixels of columns 4 to 7, because the
    origin is clamped to 0 while the width stays 8. *)
Theorem negative_origin_scans_outside (build : Build) :
  forallb (fun x => negb (hsv_close yellow_hsv (pixel_hsv half_yellow 8 x 0) 15))
          [0; 1; 2; 3] = true /\
  find_color_scalar half_yellow 8 1 left_overhang yellow_hsv 15 true 10000
    = (4, Some (mkPoint 5 0)) /\
  vision_find_color_region build half_yellow 8 1 (Some left_overhang) yellow_hsv 15 true
    = (4, Some (mkPoint 5 0)).
Proof. destruct build; vm_compute; repeat split; reflexivity. Qed.

End ColorScan.

(* ------------------------------------------------------------------------- *)
(** ** Rule evaluator: [brain_evaluate] *)

Module Rules.

Import LogicBrain.

(** A rule the loop can select on the blackboard [vars]: its priority is
    above the initial [best_priority = -1] and its condition holds. *)
Definition eligible (vars : list VariableEntry) (rule : DecisionRule) : bool :=
  (rule_priority rule >? -1) && eval_condition vars (rule_condition rule).

(** [rule], at index [i], wins over every eligible rule of [rules]: none has
    a higher priority, and none of the same priority stands before it. *)
Definition wins (vars : list VariableEntry) (rules : list DecisionRule)
    (i : nat) (rule : DecisionRule) : Prop :=
  nth_error rules i = Some rule /\
  eligible vars rule = true /\
  forall j other,
    nth_error rules j = Some other -> eligible vars other = true ->
    rule_priority other < rule_priority rule \/
    (rule_priority other = rule_priority rule /\ (i <= j)%nat).

(** The blackboard the rules are evaluated on: the variables after the first
    [count] results were ingested. *)
Definition blackboard (st : State) (results : list VisionResult) (count : Z)
    : list VariableEntry :=
  fold_left ingest_result (firstn (Z.to_nat count) results) (g_variables st).

(** The command built from a selected rule. *)
Definition command_of (rule : DecisionRule) : ActionCommand :=
  mkAction (rule_action rule) (rule_action_target rule) (mkPoint 0 0) 50 0
           F32.three_tenths.

(** What the rule loop maintains after the rules [seen]. *)
Definition loop_invariant (vars : list VariableEntry) (seen : list DecisionRule)
    (best : Z * option DecisionRule) : Prop :=
  match snd best with
  | None => fst best = -1 /\ forall r, In r seen -> eligible vars r = false
  | Some rule => fst best = rule_priority rule /\ exists i, wins vars seen i rule
  end.

Lemma nth_error_snoc {A} (l : list A) (x y : A) (j : nat) :
  nth_error (l ++ [x]) j = Some y ->
  nth_error l j = Some y /\ (j < List.length l)%nat \/ j = List.length l /\ y = x.
Proof.
  intros H. destruct (Nat.lt_ge_cases j (List.length l)) as [Hlt|Hge].
  - left. rewrite nth_error_app1 in H by exact Hlt. auto.
  - right. rewrite nth_error_app2 in H by exact Hge.
    destruct (j - List.length l)%nat as [|k] eqn:E; simpl in H.
    + inversion H; split; [lia | reflexivity].
    + destruct k; discriminate.
Qed.

Lemma loop_invariant_step vars seen best rule :
  loop_invariant vars seen best ->
  loop_invariant vars (seen ++ [rule]) (consider_rule vars best rule).
Proof.
  unfold loop_invariant, consider_rule. destruct best as [bp br]; simpl.
  intros Inv.
  destruct (rule_priority rule >? bp) eqn:Hp;
    [destruct (eval_condition vars (rule_condition rule)) eqn:Hc|]; simpl.
  - (* the new rule becomes the best *)
    split; [reflexivity|]. exists (List.length seen). unfold wins.
    assert (Hel : eligible vars rule = true).
    { unfold eligible. rewrite Hc, andb_true_r.
      destruct br as [r|]; destruct Inv as [Hbp Hrest].
      - destruct Hrest as (i & _ & He & _). unfold eligible in He.
        apply andb_prop in He. lia.
      - lia. }
    split; [|split; [exact Hel|]].
    + rewrite nth_error_app2 by lia. now rewrite Nat.sub_diag.
    + intros j other Hj He.
      apply nth_error_snoc in Hj as [[Hj Hlt]|[-> ->]]; [|right; split; [reflexivity|lia]].
      left. destruct br as [r|]; destruct Inv as [Hbp Hrest].
      * destruct Hrest as (i & _ & _ & Hmax).
        destruct (Hmax j other Hj He) as [H|[H _]]; lia.
      * apply nth_error_In in Hj. rewrite (Hrest other Hj) in He. discriminate.
  - (* priority high enough, condition false *)
    destruct br as [r|]; destruct Inv as [Hbp Hrest]; (split; [exact Hbp|]).
    + destruct Hrest as (i & Hi & He & Hmax). exists i. split; [|split; [exact He|]].
      * rewrite nth_error_app1; [exact Hi | apply nth_error_Some; congruence].
      * intros j other Hj Heo.
        apply nth_error_snoc in Hj as [[Hj _]|[_ ->]]; [now apply Hmax|].
        unfold eligible in Heo. rewrite Hc, andb_false_r in Heo. discriminate.
    + intros r Hr. apply in_app_or in Hr as [Hr|[<-|[]]]; [now apply Hrest|].
      unfold eligible. now rewrite Hc, andb_false_r.
  - (* priority not above the best so far *)
    destruct br as [r|]; destruct Inv as [Hbp Hrest]; (split; [exact Hbp|]).
    + destruct Hrest as (i & Hi & He & Hmax). exists i. split; [|split; [exact He|]].
      * rewrite nth_error_app1; [exact Hi | apply nth_error_Some; congruence].
      * intros j other Hj Heo.
        apply nth_error_snoc in Hj as [[Hj _]|[-> ->]]; [now apply Hmax|].
        assert (i < List.length seen)%nat by (apply nth_error_Some; congruence).
        assert (rule_priority rule <= rule_priority r) by lia.
        destruct (Z.eq_dec (rule_priority rule) (rule_priority r));
          [right; split; [assumption | lia] | left; lia].
    + intros r Hr. apply in_app_or in Hr as [Hr|[<-|[]]]; [now apply Hrest|].
      unfold eligible. replace (rule_priority rule >? -1) with false by lia.
      reflexivity.
Qed.

Lemma loop_invariant_fold vars rules seen best :
  loop_invariant vars seen best ->
  loop_invariant vars (seen ++ rules) (fold_left (consider_rule vars) rules best).
Proof.
  revert seen best; induction rules as [|rule rest IH]; intros seen best Inv; simpl.
  - now rewrite app_nil_r.
  - replace (seen ++ rule :: rest) with ((seen ++ [rule]) ++ rest)
      by (now rewrite <- app_assoc).
    apply IH. now apply loop_invariant_step.
Qed.

(** The rule loop selects the winner among the eligible rules, or nothing
    when no rule is eligible. *)
Lemma select_rule_wins vars rules :
  match select_rule vars rules with
  | Some rule => exists i, wins vars rules i rule
  | None => forall r, In r rules -> eligible vars r = false
  end.
Proof.
  unfold select_rule.
  pose proof (loop_invariant_fold vars rules [] (-1, None)) as H.
  simpl in H. unfold loop_invariant in H at 2.
  destruct (snd (fold_left (consider_rule vars) rules (-1, None))) as [rule|];
    apply H; simpl; (split; [reflexivity | intros r []]).
Qed.

(** C4 (as amended): called with a non-null result array and [count > 0],
    [brain_evaluate] evaluates the rules on the blackboard updated from the
    results and selects, among the rules whose priority is above -1 and whose
    condition holds, the one of highest priority, the earliest-inserted among
    equals; the command is then [{rule.action, rule.action_target, (0,0), 50,
    0, 0.3f}]. When no such rule exists the command is the zeroed one, of type
    [ACTION_NONE]. *)
Theorem brain_evaluate_selects st results count :
  0 < count ->
  let vars := blackboard st results count in
  let action := fst (brain_evaluate st (Some results) count) in
  (exists i rule, wins vars (g_rules st) i rule /\ action = command_of rule) \/
  ((forall r, In r (g_rules st) -> eligible vars r = false) /\ action = zero_action).
Proof.
  intros Hcount vars action. subst action. unfold brain_evaluate.
  replace (count <=? 0) with false by lia.
  fold (blackboard st results count). fold vars.
  pose proof (select_rule_wins vars (g_rules st)) as Hsel.
  destruct (select_rule vars (g_rules st)) as [rule|]; simpl.
  - left. destruct Hsel as (i & Hw). exists i, rule. split; [exact Hw | reflexivity].
  - right. split; [exact Hsel | reflexivity].
Qed.

(** Scenario S4: a bird at [y = 100], a gap centred at [y = 50], two rules. *)
Definition s4_results : list VisionResult :=
  [mkResult 1 true F32.one (mkPoint 10 100) zero_rect 0;
   mkResult 2 true F32.one (mkPoint 20 50) zero_rect 0].

Definition s4_brain : State :=
  mkState [mkRule "bird_y > gap_center_y" ACTION_TAP (mkPoint 500 500) 1;
           mkRule "bird_y > gap_center_y + 20" ACTION_TAP (mkPoint 600 600) 2]
          [] GAME_STATE_IDLE true.

Lemma s4_selects_second_rule :
  fst (brain_evaluate s4_brain (Some s4_results) 2)
  = mkAction ACTION_TAP (mkPoint 600 600) (mkPoint 0 0) 50 0 F32.three_tenths.
Proof. vm_compute. reflexivity. Qed.

Lemma brain_evaluate_selects_witness :
  let vars := blackboard s4_brain s4_results 2 in
  let action := fst (brain_evaluate s4_brain (Some s4_results) 2) in
  (exists i rule, wins vars (g_rules s4_brain) i rule /\ action = command_of rule) \/
  ((forall r, In r (g_rules s4_brain) -> eligible vars r = false) /\ action = zero_action).
Proof. apply (brain_evaluate_selects s4_brain s4_results 2). lia. Defined.

(** A single rule of priority -1 whose condition, the constant 1, holds. *)
Definition low_priority_brain : State :=
  mkState [mkRule "1" ACTION_TAP (mkPoint 5 5) (-1)] [] GAME_STATE_IDLE true.

(** C4 (as stated) fails: the only rule's condition is true on the
    blackboard, so it is the true rule of highest priority, yet the command
    has type [ACTION_NONE]: a priority of -1 is not above the initial
    [best_priority]. *)
Lemma negative_priority_counterexample :
  let vars := blackboard low_priority_brain [zero_result] 1 in
  let action := fst (brain_evaluate low_priority_brain (Some [zero_result]) 1) in
  (forall rule, In rule (g_rules low_priority_brain) ->
     eval_condition vars (rule_condition rule) = true) /\
  g_rules low_priority_brain <> [] /\
  act_type action = ACTION_NONE /\
  (forall rule, In rule (g_rules low_priority_brain) ->
     act_type action <> rule_action rule).
Proof.
  simpl. split; [|split; [|split]].
  - intros rule [<-|[]]. vm_compute. reflexivity.
  - discriminate.
  - vm_compute. reflexivity.
  - intros rule [<-|[]]. vm_compute. discriminate.
Qed.

(** C10: with a null [results] or [count <= 0], [brain_evaluate] returns the
    zeroed command (type [ACTION_NONE], both points [(0, 0)], durations 0,
    randomize 0.0) and leaves the whole brain state, rule table and
    blackboard alike, as it was, whatever rules are loaded. *)
Theorem brain_evaluate_without_results st results count :
  results = None \/ count <= 0 ->
  brain_evaluate st results count
  = (mkAction ACTION_NONE (mkPoint 0 0) (mkPoint 0 0) 0 0 (S754_zero false), st).
Proof.
  intros [->|Hcount]; unfold brain_evaluate; [reflexivity|].
  destruct results as [rs|]; [|reflexivity].
  replace (count <=? 0) with true by lia. reflexivity.
Qed.

Lemma brain_evaluate_without_results_witness :
  brain_evaluate s4_brain (Some s4_results) 0
  = (mkAction ACTION_NONE (mkPoint 0 0) (mkPoint 0 0) 0 0 (S754_zero false), s4_brain).
Proof. apply (brain_evaluate_without_results s4_brain (Some s4_results) 0). right. lia. Defined.

End Rules.

(* ------------------------------------------------------------------------- *)
(** ** Template matcher: [vision_find_template] *)

Module TemplateSearch.

Import VisionEngine Fixtures.

(** The frame's rectangle [(px, py, t_w, t_h)] holds the template's bytes. *)
Definition pasted_at (frame : list Z) (width : Z) (tmpl : TemplateData) (px py : Z) : bool :=
  forallb
    (fun '(tx, ty) =>
       forallb
         (fun c => byte_at frame ((py + ty) * width * 4 + (px + tx) * 4 + c)
                   =? byte_at (tmpl_data tmpl) (ty * tmpl_width tmpl * 4 + tx * 4 + c))
         [0; 1; 2; 3])
    (template_pixels tmpl).

(** The rectangle lies inside the searched region. *)
Definition inside_region (tmpl : TemplateData) (width height px py : Z) : bool :=
  let '(rx, ry) := region_origin (tmpl_search_region tmpl) in
  let '(rw, rh) := region_extent (tmpl_search_region tmpl) width height in
  (rx <=? px) && (px + tmpl_width tmpl <=? rx + rw)
  && (ry <=? py) && (py + tmpl_height tmpl <=? ry + rh).

Definition same_position (p q : Z * Z) : bool :=
  (fst p =? fst q) && (snd p =? snd q).

(** The positions the inner and the outer fine loop score, in order. *)
Fixpoint fine_columns_trace (fuel : nat) (score_at : Z -> Z -> spec_float) (y x : Z)
    (best : Best) : list (Z * Z) :=
  match fuel with
  | O => []
  | S fuel' =>
      let '(_, best_x, _) := best in
      if x <=? best_x + search_step
      then (x, y) :: fine_columns_trace fuel' score_at y (x + 1)
                                        (try_position score_at best (x, y))
      else []
  end.

Fixpoint fine_rows_trace (fuel fuel_x : nat) (score_at : Z -> Z -> spec_float) (y : Z)
    (best : Best) : list (Z * Z) :=
  match fuel with
  | O => []
  | S fuel' =>
      let '(_, best_x, best_y) := best in
      if y <=? best_y + search_step then
        let row := fine_columns_trace fuel_x score_at y (best_x - search_step) best in
        row ++ fine_rows_trace fuel' fuel_x score_at (y + 1)
                               (fold_left (try_position score_at) row best)
      else []
  end.

(** Every position one call scores: the coarse grid, then, when the coarse
    best scored above 0.5, the fine window as it moves. *)
Definition visited_positions (score_at : Z -> Z -> spec_float) (tmpl : TemplateData)
    (width height : Z) : list (Z * Z) :=
  let '(best_score, best_x, best_y) := coarse_match score_at tmpl width height in
  coarse_positions tmpl width height
  ++ (if F32.ltb F32.half best_score
      then fine_rows_trace (Z.to_nat (height + 9)) (Z.to_nat (width + 9)) score_at
                           (best_y - search_step) (best_score, best_x, best_y)
      else []).

(** [p] scores strictly above [q], or is [q]. *)
Definition beats (score_at : Z -> Z -> spec_float) (p q : Z * Z) : bool :=
  same_position p q || F32.ltb (score_at (fst q) (snd q)) (score_at (fst p) (snd p)).

Definition all_builds : list Build := [USE_SSE; USE_NEON; NO_SIMD].


(** A row of two pixels, black then white. *)
Definition black_white : list Z := paint 2 1 (fun x _ => if x =? 0 then black else white).

Definition dot : TemplateData :=
  mkTemplate 9 no_name [255; 255; 255; 255] 1 1 F32.half zero_rect.

(** A 12 by 12 frame of varied colours and the template cut out of it at
    [(4, 4)], 4 by 4, with threshold 0.95. *)
Definition hue (x y : Z) : Z * Z * Z :=
  ((x * 37 + y * 91 + x * y * 13) mod 256, (x * x * 7 + y * 3) mod 256,
   (y * y * 11 + x * 5) mod 256).

Definition noisy : list Z := paint 12 12 hue.

Definition patch : TemplateData :=
  mkTemplate 7 no_name (paint 4 4 (fun x y => hue (x + 4) (y + 4))) 4 4
             (F32.div (F32.of_Z 95) (F32.of_Z 100)) zero_rect.

(** *** Order facts on float comparison *)

Lemma SFcompare_antisym a b : SFcompare b a = option_map CompOpp (SFcompare a b).
Proof.
  destruct a as [sa|sa| |sa ma ea], b as [sb|sb| |sb mb eb]; simpl;
    try reflexivity;
    try (destruct sa; reflexivity); try (destruct sb; reflexivity);
    try (destruct sa, sb; reflexivity).
  f_equal. destruct sa, sb; try reflexivity;
    rewrite (Z.compare_antisym ea eb); destruct (ea ?= eb); simpl; try reflexivity;
    change (Pos.compare_cont Eq mb ma) with (Pos.compare mb ma);
    change (Pos.compare_cont Eq ma mb) with (Pos.compare ma mb);
    rewrite (Pos.compare_antisym ma mb); destruct (ma ?= mb)%positive; reflexivity.
Qed.

Lemma ltb_asym a b : F32.ltb a b = true -> F32.ltb b a = false.
Proof.
  unfold F32.ltb, SFltb. rewrite (SFcompare_antisym a b).
  destruct (SFcompare a b) as [[| |]|]; simpl; congruence.
Qed.

Lemma ltb_irrefl a : F32.ltb a a = false.
Proof.
  destruct (F32.ltb a a) eqn:E; [|reflexivity].
  pose proof (ltb_asym a a E). congruence.
Qed.

Lemma same_position_eq p q : same_position p q = true <-> p = q.
Proof.
  destruct p as [a b], q as [c d]; unfold same_position; simpl.
  rewrite andb_true_iff, !Z.eqb_eq. split; [intros [-> ->]; reflexivity|].
  intros H; inversion H; auto.
Qed.

(** *** The scan keeps a strict maximum *)

Section Scan.

Variable score_at : Z -> Z -> spec_float.
Variable p : Z * Z.

Let top : Best := (score_at (fst p) (snd p), fst p, snd p).

(** At the best [p], a position that [p] beats changes nothing. *)
Lemma try_position_at_maximum q :
  beats score_at p q = true -> try_position score_at top q = top.
Proof.
  unfold top, try_position, beats. destruct q as [x y]; simpl. intros Hq.
  apply orb_prop in Hq as [Hq|Hq].
  - apply same_position_eq in Hq. rewrite Hq; simpl. now rewrite ltb_irrefl.
  - now rewrite (ltb_asym _ _ Hq).
Qed.

(** From a best that [p] outscores, trying [p] makes it the best. *)
Lemma try_position_maximum best :
  F32.ltb (fst (fst best)) (score_at (fst p) (snd p)) = true ->
  try_position score_at best p = top.
Proof.
  unfold top, try_position. destruct best as [[s x] y], p as [a b]; simpl.
  now intros ->.
Qed.

(** ... and trying a position that [p] beats leaves a best that [p] outscores. *)
Lemma try_position_below best q :
  same_position p q = false ->
  beats score_at p q = true ->
  F32.ltb (fst (fst best)) (score_at (fst p) (snd p)) = true ->
  F32.ltb (fst (fst (try_position score_at best q))) (score_at (fst p) (snd p)) = true.
Proof.
  unfold beats, try_position. intros -> Hq Hbest; simpl in Hq.
  destruct best as [[s x] y], q as [a b]; simpl in *.
  destruct (F32.ltb s (score_at a b)); simpl; assumption.
Qed.

(** Once the best is [p], positions that [p] beats leave it there. *)
Lemma scan_keeps_maximum (positions : list (Z * Z)) :
  forallb (beats score_at p) positions = true ->
  fold_left (try_position score_at) positions top = top.
Proof.
  induction positions as [|q rest IH]; cbn [fold_left forallb]; [reflexivity|].
  intros H; apply andb_prop in H as [Hq Hrest].
  rewrite (try_position_at_maximum q Hq). now apply IH.
Qed.

(** A scan that meets [p], from a best that [p] outscores, ends at [p]. *)
Lemma scan_finds_maximum (positions : list (Z * Z)) (best : Best) :
  existsb (same_position p) positions = true ->
  forallb (beats score_at p) positions = true ->
  F32.ltb (fst (fst best)) (score_at (fst p) (snd p)) = true ->
  fold_left (try_position score_at) positions best = top.
Proof.
  revert best; induction positions as [|q rest IH];
    cbn [fold_left forallb existsb]; intros best Hin Hall Hbest; [discriminate|].
  apply andb_prop in Hall as [Hq Hrest].
  destruct (same_position p q) eqn:Hpq.
  - apply same_position_eq in Hpq; subst q.
    rewrite (try_position_maximum best Hbest). now apply scan_keeps_maximum.
  - cbn [orb] in Hin. apply IH; [assumption | assumption |].
    now apply try_position_below.
Qed.

End Scan.

(** *** The fine loops score their trace *)

Lemma fine_columns_scan score_at fuel y x best b :
  fine_columns fuel score_at y x best = Some b ->
  b = fold_left (try_position score_at) (fine_columns_trace fuel score_at y x best) best.
Proof.
  revert x best; induction fuel as [|fuel IH]; intros x best;
    cbn [fine_columns fine_columns_trace]; [discriminate|].
  destruct best as [[s bx] by_]. destruct (x <=? bx + search_step).
  - intros H. cbn [fold_left]. now apply IH.
  - intros [= <-]. reflexivity.
Qed.

Lemma fine_rows_scan score_at fuel fuel_x y best b :
  fine_rows fuel fuel_x score_at y best = Some b ->
  b = fold_left (try_position score_at) (fine_rows_trace fuel fuel_x score_at y best) best.
Proof.
  revert y best; induction fuel as [|fuel IH]; intros y best;
    cbn [fine_rows fine_rows_trace]; [discriminate|].
  destruct best as [[s bx] by_]. destruct (y <=? by_ + search_step).
  - destruct (fine_columns fuel_x score_at y (bx - search_step) (s, bx, by_))
      as [best'|] eqn:E; [|discriminate].
    intros H. rewrite fold_left_app. rewrite <- (fine_columns_scan _ _ _ _ _ _ E).
    now apply IH.
  - intros [= <-]. reflexivity.
Qed.

(** *** The fine loops end *)

Lemma ltb_positive a b :
  F32.ltb F32.zero a = true -> F32.ltb a b = true -> F32.ltb F32.zero b = true.
Proof.
  destruct a as [[]|[]| |[] ma ea], b as [[]|[]| |[] mb eb]; cbn;
    intros; try discriminate; reflexivity.
Qed.

Section Totality.

Variable score_at : Z -> Z -> spec_float.
Variables width height : Z.

(** A score above 0 is only given inside the frame. *)
Hypothesis inside :
  forall x y, F32.ltb F32.zero (score_at x y) = true ->
              0 <= x < width /\ 0 <= y < height.

(** The best so far was scored: its score is positive, its position inside. *)
Definition settled (best : Best) : Prop :=
  F32.ltb F32.zero (fst (fst best)) = true /\
  0 <= snd (fst best) < width /\ 0 <= snd best < height.

Definition unset : Best := (F32.zero, 0, 0).

Lemma try_position_settled best p :
  settled best -> settled (try_position score_at best p).
Proof.
  destruct best as [[s x] y], p as [a b]. unfold try_position, settled; simpl.
  intros (Hs & Hx & Hy). destruct (F32.ltb s (score_at a b)) eqn:E; simpl; [|auto].
  pose proof (ltb_positive _ _ Hs E) as Hp. destruct (inside a b Hp). auto.
Qed.

Lemma try_position_unset p :
  try_position score_at unset p = unset \/ settled (try_position score_at unset p).
Proof.
  destruct p as [a b]. unfold try_position, unset, settled.
  destruct (F32.ltb F32.zero (score_at a b)) eqn:E; [right | left; reflexivity].
  simpl. destruct (inside a b E). auto.
Qed.

Lemma scan_settled positions best :
  best = unset \/ settled best ->
  fold_left (try_position score_at) positions best = unset \/
  settled (fold_left (try_position score_at) positions best).
Proof.
  revert best; induction positions as [|p rest IH]; intros best H; cbn [fold_left];
    [exact H|].
  apply IH. destruct H as [->|H]; [apply try_position_unset|].
  right. now apply try_position_settled.
Qed.

Lemma fine_columns_total fuel y x best :
  settled best -> Z.max 0 (width + 4 - x) < Z.of_nat fuel ->
  exists b, fine_columns fuel score_at y x best = Some b /\ settled b.
Proof.
  revert x best; induction fuel as [|fuel IH]; intros x best Hs Hf; [lia|].
  cbn [fine_columns]. destruct best as [[s bx] by_] eqn:Eb.
  destruct (x <=? bx + search_step) eqn:E.
  - apply IH; [now apply try_position_settled|].
    destruct Hs as (_ & Hx & _). simpl in Hx. unfold search_step in E. lia.
  - exists (s, bx, by_). auto.
Qed.

Lemma fine_rows_total fuel y best :
  settled best -> Z.max 0 (height + 4 - y) < Z.of_nat fuel ->
  exists b, fine_rows fuel (Z.to_nat (width + 9)) score_at y best = Some b /\ settled b.
Proof.
  revert y best; induction fuel as [|fuel IH]; intros y best Hs Hf; [lia|].
  cbn [fine_rows]. destruct best as [[s bx] by_] eqn:Eb.
  destruct (y <=? by_ + search_step) eqn:E.
  - destruct (fine_columns_total (Z.to_nat (width + 9)) y (bx - search_step) (s, bx, by_) Hs)
      as (b' & -> & Hs').
    { destruct Hs as (_ & Hx & _). simpl in Hx. unfold search_step. lia. }
    apply IH; [exact Hs'|].
    (* the row bound is read from the best before the row was scanned *)
    destruct Hs as (_ & _ & Hy). simpl in Hy. unfold search_step in E. lia.
  - exists (s, bx, by_). auto.
Qed.

Lemma fine_match_total coarse :
  settled coarse -> exists b, fine_match score_at width height coarse = Some b.
Proof.
  intros Hs. unfold fine_match. destruct coarse as [[s bx] by_] eqn:Eb.
  destruct (fine_rows_total (Z.to_nat (height + 9)) (by_ - search_step) (s, bx, by_) Hs)
    as (b & -> & _); [|now exists b].
  destruct Hs as (_ & _ & Hy). simpl in Hy. unfold search_step. lia.
Qed.

Lemma coarse_settled tmpl :
  F32.ltb F32.half (fst (fst (coarse_match score_at tmpl width height))) = true ->
  settled (coarse_match score_at tmpl width height).
Proof.
  unfold coarse_match.
  destruct (scan_settled (coarse_positions tmpl width height) unset (or_introl eq_refl))
    as [E|H]; [|auto].
  unfold unset in E. rewrite E. cbn. discriminate.
Qed.

(** The two phases are one scan over [visited_positions], and the fuel of
    the fine phase is never used up. *)
Lemma best_match_is_scan tmpl :
  best_match score_at tmpl width height
  = fold_left (try_position score_at) (visited_positions score_at tmpl width height)
              unset.
Proof.
  unfold best_match, visited_positions.
  pose proof (coarse_settled tmpl) as Hc.
  destruct (coarse_match score_at tmpl width height) as [[s x] y] eqn:E.
  rewrite fold_left_app.
  change (fold_left (try_position score_at) (coarse_positions tmpl width height) unset)
    with (coarse_match score_at tmpl width height).
  rewrite E. cbn [fst] in Hc.
  destruct (F32.ltb F32.half s); [|reflexivity].
  destruct (fine_match_total (s, x, y) (Hc eq_refl)) as [b Hb]. rewrite Hb.
  unfold fine_match in Hb. now apply fine_rows_scan.
Qed.

End Totality.

(** Both matchers score 0 outside the frame and on an empty template. *)
Lemma template_pixels_empty tmpl :
  tmpl_width tmpl <= 0 \/ tmpl_height tmpl <= 0 -> template_pixels tmpl = [].
Proof.
  unfold template_pixels. intros [H|H].
  - rewrite (Loops.steps_empty 0 (tmpl_width tmpl)) by lia. apply Loops.grid_empty_row.
  - rewrite (Loops.steps_empty 0 (tmpl_height tmpl)) by lia. reflexivity.
Qed.

Lemma template_match_inside build frame width height tmpl x y :
  F32.ltb F32.zero (template_match build frame width height x y tmpl) = true ->
  0 <= x < width /\ 0 <= y < height.
Proof.
  assert (Hout : outside_frame width height x y tmpl = false ->
                 0 < tmpl_width tmpl -> 0 < tmpl_height tmpl ->
                 0 <= x < width /\ 0 <= y < height).
  { unfold outside_frame. intros H. repeat (apply orb_false_elim in H as [H ?]). lia. }
  destruct (Z_lt_le_dec 0 (tmpl_width tmpl)) as [Hw|Hw];
    [destruct (Z_lt_le_dec 0 (tmpl_height tmpl)) as [Hh|Hh]|].
  - unfold template_match.
    destruct build; unfold template_match_sse, template_match_scalar;
      (destruct (outside_frame width height x y tmpl) eqn:O; [discriminate | auto]).
  - intros H. exfalso. revert H. unfold template_match.
    destruct build; unfold template_match_sse, template_match_scalar;
      rewrite (template_pixels_empty tmpl (or_intror Hh));
      destruct (outside_frame width height x y tmpl); vm_compute; discriminate.
  - intros H. exfalso. revert H. unfold template_match.
    destruct build; unfold template_match_sse, template_match_scalar;
      rewrite (template_pixels_empty tmpl (or_introl Hw));
      destruct (outside_frame width height x y tmpl); vm_compute; discriminate.
Qed.

(** When [(px, py)] is one of the positions the search scores, its score is
    positive and every other scored position scores strictly less,
    [vision_find_template] returns the bounding box [(px, py, t_w, t_h)], the
    location at the box's centre, and that score as confidence. *)
Lemma find_template_strict_maximum build clock frame width height tmpl px py :
  let score_at x y := template_match build frame width height x y tmpl in
  let visited := visited_positions score_at tmpl width height in
  existsb (same_position (px, py)) visited = true ->
  F32.ltb F32.zero (score_at px py) = true ->
  forallb (beats score_at (px, py)) visited = true ->
  let r := fst (vision_find_template build clock frame width height tmpl) in
  res_bounding_box r = mkRect px py (tmpl_width tmpl) (tmpl_height tmpl) /\
  res_location r = mkPoint (px + Z.quot (tmpl_width tmpl) 2)
                           (py + Z.quot (tmpl_height tmpl) 2) /\
  res_confidence r = score_at px py.
Proof.
  intros score_at visited Hin Hpos Hall r. subst r.
  unfold vision_find_template. destruct (get_time_ns clock) as [now clock'].
  fold score_at.
  rewrite (best_match_is_scan score_at width height
             (fun x y => template_match_inside build frame width height tmpl x y)).
  fold visited. unfold unset.
  rewrite (scan_finds_maximum score_at (px, py) visited (F32.zero, 0, 0) Hin Hall Hpos).
  simpl. repeat split.
Qed.

(** *** A maximum on the coarse grid *)

(** The window of 9 by 9 positions centred on [(px, py)]. *)
Definition window (px py : Z) : list (Z * Z) :=
  grid (steps (py - search_step) (py + search_step + 1) 1)
       (steps (px - search_step) (px + search_step + 1) 1).

Section Window.

Variable score_at : Z -> Z -> spec_float.
Variables px py : Z.

Let top : Best := (score_at px py, px, py).

Hypothesis window_beaten : forallb (beats score_at (px, py)) (window px py) = true.

Lemma window_position_beaten x y :
  px - 4 <= x <= px + 4 -> py - 4 <= y <= py + 4 ->
  try_position score_at top (x, y) = top.
Proof.
  intros Hx Hy. apply (try_position_at_maximum score_at (px, py)).
  rewrite forallb_forall in window_beaten. apply window_beaten.
  unfold window, search_step. apply Loops.in_grid. rewrite !Loops.in_steps. lia.
Qed.

(** From the best [(px, py)] the fine loops find nothing better, so their
    bounds stay where they were. *)
Lemma fine_columns_keep fuel y x b :
  py - 4 <= y <= py + 4 -> px - 4 <= x ->
  fine_columns fuel score_at y x top = Some b -> b = top.
Proof.
  revert x; induction fuel as [|fuel IH]; intros x Hy Hx; cbn [fine_columns];
    [discriminate|].
  unfold top at 1. destruct (x <=? px + search_step) eqn:E.
  - fold top. rewrite window_position_beaten by (unfold search_step in E; lia).
    apply IH; lia.
  - now intros [= <-].
Qed.

Lemma fine_rows_keep fuel fuel_x y b :
  py - 4 <= y ->
  fine_rows fuel fuel_x score_at y top = Some b -> b = top.
Proof.
  revert y; induction fuel as [|fuel IH]; intros y Hy; cbn [fine_rows];
    [discriminate|].
  unfold top at 1. destruct (y <=? py + search_step) eqn:E.
  - fold top.
    destruct (fine_columns fuel_x score_at y (px - search_step) top) as [b'|] eqn:Ec;
      [|discriminate].
    apply fine_columns_keep in Ec; [|unfold search_step in E; lia | unfold search_step; lia].
    subst b'. apply IH. lia.
  - now intros [= <-].
Qed.

End Window.

(** When [(px, py)] is a position of the coarse grid whose score is positive
    and strictly above that of every other grid position and of every other
    position within 4 of it, the search returns it. *)
Lemma find_template_grid_maximum build clock frame width height tmpl px py :
  let score_at x y := template_match build frame width height x y tmpl in
  existsb (same_position (px, py)) (coarse_positions tmpl width height) = true ->
  F32.ltb F32.zero (score_at px py) = true ->
  forallb (beats score_at (px, py)) (coarse_positions tmpl width height) = true ->
  forallb (beats score_at (px, py)) (window px py) = true ->
  res_bounding_box (fst (vision_find_template build clock frame width height tmpl))
  = mkRect px py (tmpl_width tmpl) (tmpl_height tmpl).
Proof.
  intros score_at Hin Hpos Hgrid Hwin.
  unfold vision_find_template. destruct (get_time_ns clock) as [now clock'].
  fold score_at. unfold best_match.
  assert (E : coarse_match score_at tmpl width height = (score_at px py, px, py)).
  { unfold coarse_match.
    exact (scan_finds_maximum score_at (px, py) _ (F32.zero, 0, 0) Hin Hgrid Hpos). }
  rewrite E.
  destruct (F32.ltb F32.half (score_at px py)); [|reflexivity].
  destruct (fine_match score_at width height (score_at px py, px, py)) as [b|] eqn:Ef;
    [|reflexivity].
  unfold fine_match in Ef.
  apply (fine_rows_keep score_at px py Hwin) in Ef; [|unfold search_step; lia].
  subst b. reflexivity.
Qed.

(** *** A pasted template on the coarse grid *)
















(** At the right limit of the region no position is scored at all: in
    [black_white] the template sits at [(1, 0)], the loops' bounds
    [y < 0 + 1 - 1] exclude every row, and the box is again [(0, 0, 1, 1)]. *)
Lemma find_template_right_limit :
  pasted_at black_white 2 dot 1 0 = true /\
  inside_region dot 2 1 1 0 = true /\
  coarse_positions dot 2 1 = [] /\
  Forall (fun build =>
            res_bounding_box (fst (vision_find_template build ticking black_white 2 1 dot))
            = mkRect 0 0 1 1)
         all_builds.
Proof.
  repeat split; try reflexivity.
  repeat constructor; vm_compute; reflexivity.
Qed.

End TemplateSearch.

(* ------------------------------------------------------------------------- *)
(** ** The polling loop of [main] and the producer it serves *)

Module Standalone.

(** Everything the consumer process owns, and the shared region. *)
Record World := mkWorld {
  shm : SharedMemoryHeader;
  vision : VisionEngine.State;
  brain : LogicBrain.State;
  clock : Clock
}.

Definition with_shm (w : World) (h : SharedMemoryHeader) : World :=
  mkWorld h (vision w) (brain w) (clock w).

(** [shm->frame_ready = v] and [shm->result_ready = v]: single stores. *)
Definition store_frame_ready (h : SharedMemoryHeader) (v : Z) : SharedMemoryHeader :=
  mkShm (magic h) (version h) (frame_number h) (frame_timestamp_ns h)
        v (result_ready h) (current_state h)
        (frame_width h) (frame_height h) (frame_stride h)
        (vision_latency_ns h) (brain_latency_ns h) (total_latency_ns h)
        (num_results h) (results h) (pending_action h) (frame_data h).

Definition store_result_ready (h : SharedMemoryHeader) (v : Z) : SharedMemoryHeader :=
  mkShm (magic h) (version h) (frame_number h) (frame_timestamp_ns h)
        (frame_ready h) v (current_state h)
        (frame_width h) (frame_height h) (frame_stride h)
        (vision_latency_ns h) (brain_latency_ns h) (total_latency_ns h)
        (num_results h) (results h) (pending_action h) (frame_data h).

(** The statement of the loop body the consumer executes next. *)
Inductive ConsumerPc :=
| AT_POLL     (* loop_start = get_time_ns(); if (shm->frame_ready) *)
| AT_VISION   (* vision_process_frame(shm); *)
| AT_BRAIN    (* brain_process(shm); *)
| AT_CLEAR    (* shm->frame_ready = 0; *)
| AT_SLEEP.   (* elapsed = get_time_ns() - loop_start; nanosleep *)

(** One statement of [main]'s [while (1)] body. *)
Definition consumer_step (build : Build) (pc : ConsumerPc) (w : World) : ConsumerPc * World :=
  match pc with
  | AT_POLL =>
      let '(_, c) := get_time_ns (clock w) in
      let w := mkWorld (shm w) (vision w) (brain w) c in
      if frame_ready (shm w) =? 0 then (AT_SLEEP, w) else (AT_VISION, w)
  | AT_VISION =>
      match VisionEngine.vision_process_frame build (vision w) (clock w) (Some (shm w)) with
      | (_, Some h, c) => (AT_BRAIN, mkWorld h (vision w) (brain w) c)
      | (_, None, c) => (AT_BRAIN, mkWorld (shm w) (vision w) (brain w) c)
      end
  | AT_BRAIN =>
      match LogicBrain.brain_process (brain w) (clock w) (Some (shm w)) with
      | (_, Some h, b, c) => (AT_CLEAR, mkWorld h (vision w) b c)
      | (_, None, b, c) => (AT_CLEAR, mkWorld (shm w) (vision w) b c)
      end
  | AT_CLEAR => (AT_SLEEP, with_shm w (store_frame_ready (shm w) 0))
  | AT_SLEEP =>
      let '(_, c) := get_time_ns (clock w) in
      (AT_POLL, mkWorld (shm w) (vision w) (brain w) c)
  end.

End Standalone.

Module Producer.

Import Standalone.

(** What the producer does next. *)
Inductive ProducerPc :=
| P_FILL    (* write the frame, then frame_ready = 1 *)
| P_WAIT    (* poll result_ready *)
| P_READ.   (* read results and action, then result_ready = 0 *)

(** A captured frame: dimensions and pixels. *)
Record Capture := mkCapture { cap_width : Z; cap_height : Z; cap_pixels : list Z }.

(** Modelled from the spec: the capture producer, which is not part of the
    sources. Section 4.10: it fills the pixels, sets W/H/stride and
    [frame_number], then writes [frame_ready = 1]; it polls [result_ready];
    on 1 it reads results and action, clears [result_ready = 0], then
    prepares the next frame. *)
Definition producer_step (next : Capture) (pc : ProducerPc) (h : SharedMemoryHeader)
    : ProducerPc * SharedMemoryHeader :=
  match pc with
  | P_FILL =>
      (P_WAIT,
       mkShm (magic h) (version h) (frame_number h + 1) (frame_timestamp_ns h)
             1 (result_ready h) (current_state h)
             (cap_width next) (cap_height next) (cap_width next * 4)
             (vision_latency_ns h) (brain_latency_ns h) (total_latency_ns h)
             (num_results h) (results h) (pending_action h) (cap_pixels next))
  | P_WAIT => if result_ready h =? 0 then (P_WAIT, h) else (P_READ, h)
  | P_READ => (P_FILL, store_result_ready h 0)
  end.

End Producer.

(* ------------------------------------------------------------------------- *)
(** ** Frame handoff *)

Module Handoff.

Import Standalone Producer.

(** The two processes side by side. *)
Record System := mkSystem { producer_at : ProducerPc; consumer_at : ConsumerPc; world : World }.

(** One atomic step of either process. *)
Inductive Move := PRODUCE (next : Capture) | CONSUME.

Definition step (build : Build) (s : System) (m : Move) : System :=
  match m with
  | PRODUCE next =>
      let '(pc, h) := producer_step next (producer_at s) (shm (world s)) in
      mkSystem pc (consumer_at s) (with_shm (world s) h)
  | CONSUME =>
      let '(pc, w) := consumer_step build (consumer_at s) (world s) in
      mkSystem (producer_at s) pc w
  end.

(** The state after a schedule of moves, and every state passed on the way. *)
Definition run (build : Build) (s : System) (schedule : list Move) : System :=
  fold_left (step build) schedule s.

Fixpoint trace (build : Build) (s : System) (schedule : list Move) : list System :=
  match schedule with
  | [] => [s]
  | m :: rest => s :: trace build (step build s m) rest
  end.

Definition frame_flag (s : System) : bool := negb (frame_ready (shm (world s)) =? 0).
Definition result_flag (s : System) : bool := negb (result_ready (shm (world s)) =? 0).
Definition both_flags (s : System) : bool := frame_flag s && result_flag s.

(** Both flags clear, the producer about to write, the consumer about to poll. *)
Definition initial (s : System) : bool :=
  negb (frame_flag s) && negb (result_flag s)
  && match producer_at s, consumer_at s with P_FILL, AT_POLL => true | _, _ => false end.

Definition clearing (s : System) : bool :=
  match consumer_at s with AT_CLEAR => true | _ => false end.

(** What a step does to the flags and the two program counters. *)
Definition consumer_effect (fr rr : bool) (pc : ConsumerPc) : bool * bool * ConsumerPc :=
  match pc with
  | AT_POLL => (fr, rr, if fr then AT_VISION else AT_SLEEP)
  | AT_VISION => (fr, rr, AT_BRAIN)
  | AT_BRAIN => (fr, true, AT_CLEAR)
  | AT_CLEAR => (false, rr, AT_SLEEP)
  | AT_SLEEP => (fr, rr, AT_POLL)
  end.

Definition producer_effect (fr rr : bool) (pc : ProducerPc) : bool * bool * ProducerPc :=
  match pc with
  | P_FILL => (true, rr, P_WAIT)
  | P_WAIT => (fr, rr, if rr then P_READ else P_WAIT)
  | P_READ => (fr, false, P_FILL)
  end.

(** The protocol's invariant on flags and program counters:
    both flags are set only while the consumer is about to clear
    [frame_ready]; while the consumer works on a frame, or is idle with a
    frame pending, the producer waits and [result_ready] is clear; the
    producer writes a frame only with [result_ready] clear. *)
Definition guarded (fr rr : bool) (p : ProducerPc) (c : ConsumerPc) : bool :=
  let waiting := match p with P_WAIT => negb rr | _ => false end in
  implb (fr && rr) (match c with AT_CLEAR => true | _ => false end)
  && match c with
     | AT_VISION | AT_BRAIN => waiting
     | AT_POLL | AT_SLEEP => implb fr waiting
     | AT_CLEAR => true
     end
  && match p with P_FILL => negb rr | _ => true end.

Definition invariant (s : System) : bool :=
  guarded (frame_flag s) (result_flag s) (producer_at s) (consumer_at s).

(** A 2 by 2 white frame to capture, and a system about to start on it. *)
Definition capture : Capture :=
  mkCapture 2 2 (Fixtures.paint 2 2 (fun _ _ => Fixtures.white)).

Definition boot : System :=
  mkSystem P_FILL AT_POLL
    (mkWorld (store_frame_ready (Fixtures.header 0 0 []) 0)
             Orchestrator.sibling_engine Rules.s4_brain Fixtures.ticking).

(** One handoff cycle, move by move: the producer raises [frame_ready]; the
    consumer polls, runs vision, runs brain, clears [frame_ready] and sleeps;
    the producer sees [result_ready] and clears it. *)
Definition cycle : list Move :=
  [PRODUCE capture; CONSUME; CONSUME; CONSUME; CONSUME; CONSUME;
   PRODUCE capture; PRODUCE capture].

(** *** The calls of the tick and the flags *)

Lemma vision_process_frame_flags build st c h :
  exists status h' c',
    VisionEngine.vision_process_frame build st c (Some h) = (status, Some h', c') /\
    frame_ready h' = frame_ready h /\ result_ready h' = result_ready h.
Proof.
  unfold VisionEngine.vision_process_frame.
  destruct (frame_ready h =? 0); [now exists (-1), h, c|].
  destruct (get_time_ns c) as [start c1].
  destruct (VisionEngine.trigger_loop _ _ _ _ _ _ _ _) as [[slots n] c2].
  destruct (get_time_ns c2) as [stop c3].
  eexists _, _, _. split; [reflexivity|]. split; reflexivity.
Qed.

Lemma brain_process_flags st c h :
  exists h' st' c',
    LogicBrain.brain_process st c (Some h) = (0, Some h', st', c') /\
    frame_ready h' = frame_ready h /\ result_ready h' = 1.
Proof.
  unfold LogicBrain.brain_process.
  destruct (get_time_ns c) as [start c1].
  destruct (LogicBrain.brain_evaluate _ _ _) as [action st1].
  destruct (get_time_ns c1) as [stop c2].
  eexists _, _, _. split; [reflexivity|]. split; reflexivity.
Qed.

(** *** Steps act on flags and counters as the effect tables say *)

Lemma consume_effect build s :
  let s' := step build s CONSUME in
  (frame_flag s', result_flag s', consumer_at s')
  = consumer_effect (frame_flag s) (result_flag s) (consumer_at s)
  /\ producer_at s' = producer_at s.
Proof.
  destruct s as [p c w]. unfold step, frame_flag, result_flag.
  cbn [consumer_at producer_at world].
  destruct c; unfold consumer_step, consumer_effect.
  - destruct (get_time_ns (clock w)) as [t c']. cbn [shm].
    destruct (frame_ready (shm w) =? 0) eqn:E; cbn; rewrite E; auto.
  - destruct (vision_process_frame_flags build (vision w) (clock w) (shm w))
      as (status & h' & c' & E & Hf & Hr). rewrite E. cbn. rewrite Hf, Hr. auto.
  - destruct (brain_process_flags (brain w) (clock w) (shm w))
      as (h' & st' & c' & E & Hf & Hr). rewrite E. cbn. rewrite Hf, Hr. auto.
  - cbn. auto.
  - destruct (get_time_ns (clock w)) as [t c']. cbn. auto.
Qed.

Lemma produce_effect build s next :
  let s' := step build s (PRODUCE next) in
  (frame_flag s', result_flag s', producer_at s')
  = producer_effect (frame_flag s) (result_flag s) (producer_at s)
  /\ consumer_at s' = consumer_at s.
Proof.
  destruct s as [p c w]. unfold step, frame_flag, result_flag; simpl.
  destruct p; simpl; auto.
  destruct (result_ready (shm w) =? 0) eqn:E; simpl; rewrite ?E; auto.
Qed.

Lemma guarded_consume fr rr p c :
  guarded fr rr p c = true ->
  let '(fr', rr', c') := consumer_effect fr rr c in guarded fr' rr' p c' = true.
Proof. destruct fr, rr, p, c; simpl; intros H; try reflexivity; discriminate H. Qed.

Lemma guarded_produce fr rr p c :
  guarded fr rr p c = true ->
  let '(fr', rr', p') := producer_effect fr rr p in guarded fr' rr' p' c = true.
Proof. destruct fr, rr, p, c; simpl; intros H; try reflexivity; discriminate H. Qed.

Lemma invariant_step build s m :
  invariant s = true -> invariant (step build s m) = true.
Proof.
  unfold invariant. intros H. destruct m as [next|].
  - destruct (produce_effect build s next) as [E Ec]. rewrite Ec.
    apply guarded_produce in H.
    destruct (producer_effect _ _ _) as [[fr' rr'] p'].
    inversion E; subst. exact H.
  - destruct (consume_effect build s) as [E Ep]. rewrite Ep.
    apply guarded_consume in H.
    destruct (consumer_effect _ _ _) as [[fr' rr'] c'].
    inversion E; subst. exact H.
Qed.

Lemma invariant_run build schedule s :
  invariant s = true -> invariant (run build s schedule) = true.
Proof.
  unfold run. revert s; induction schedule as [|m rest IH]; intros s H; simpl.
  - exact H.
  - apply IH. now apply invariant_step.
Qed.

Lemma initial_invariant s : initial s = true -> invariant s = true.
Proof.
  unfold initial, invariant. destruct (frame_flag s), (result_flag s); simpl;
    try discriminate.
  destruct (producer_at s), (consumer_at s); simpl; intros H;
    try reflexivity; discriminate H.
Qed.

(** C9 (as amended): from a state with both flags clear, whatever the
    interleaving of producer and consumer steps, an observation point
    sees [frame_ready] and [result_ready] both set only while the consumer
    stands between [brain_process], which has stored [result_ready = 1], and
    its own [frame_ready = 0]; at every other point at most one of the flags
    is set. *)
Theorem both_flags_only_before_clear build s schedule :
  initial s = true ->
  both_flags (run build s schedule) = true ->
  clearing (run build s schedule) = true.
Proof.
  intros Hinit Hboth.
  pose proof (invariant_run build schedule s (initial_invariant s Hinit)) as Inv.
  unfold invariant, guarded in Inv. unfold both_flags in Hboth. unfold clearing.
  rewrite Hboth in Inv. simpl in Inv.
  destruct (consumer_at (run build s schedule)); try discriminate Inv; reflexivity.
Qed.

Lemma both_flags_only_before_clear_witness :
  clearing (run NO_SIMD boot (firstn 4 cycle)) = true.
Proof.
  apply (both_flags_only_before_clear NO_SIMD boot (firstn 4 cycle));
    vm_compute; reflexivity.
Defined.

(** C9 (as stated) fails: in the cycle, the state observed after
    [brain_process] and before the consumer's [frame_ready = 0] has both
    flags equal to 1. *)
Lemma both_flags_set_counterexample :
  initial boot = true /\
  map (fun s => (frame_ready (shm (world s)), result_ready (shm (world s))))
      (trace NO_SIMD boot cycle)
  = [(0, 0); (1, 0); (1, 0); (1, 0); (1, 1); (0, 1); (0, 1); (0, 1); (0, 0)] /\
  existsb both_flags (trace NO_SIMD boot cycle) = true.
Proof. repeat split; vm_compute; reflexivity. Qed.

(** The cycle ends where it began: flags clear, producer about to write,
    consumer about to poll. *)
Lemma cycle_closes :
  initial (run NO_SIMD boot cycle) = true.
Proof. vm_compute. reflexivity. Qed.

End Handoff.

(* ------------------------------------------------------------------------- *)
(** ** Expression evaluator *)

Module Expressions.

Import LogicBrain.

Local Open Scope nat_scope.

(** *** The text only gets shorter *)

Lemma skip_spaces_length e : String.length (skip_spaces e) <= String.length e.
Proof.
  induction e as [|c rest IH]; simpl; [lia|].
  destruct (isspace c); simpl; lia.
Qed.

Lemma read_digits_length e acc :
  String.length (snd (read_digits e acc)) <= String.length e.
Proof.
  revert acc; induction e as [|c rest IH]; intros acc; simpl; [lia|].
  destruct (isdigit c); simpl; [|lia]. specialize (IH (acc * 10 + (code c - 48))%Z). lia.
Qed.

Lemma strtol_length e : String.length (snd (strtol e)) <= String.length e.
Proof.
  unfold strtol. destruct e as [|c rest]; [simpl; lia|].
  destruct (Ascii.eqb c "-").
  - pose proof (read_digits_length rest 0) as H.
    destruct (read_digits rest 0) as [v r]. cbn [snd String.length] in *. lia.
  - pose proof (read_digits_length (String c rest) 0) as H.
    destruct (read_digits (String c rest) 0) as [v r]. cbn [snd] in *. lia.
Qed.

Lemma read_name_length e n :
  String.length (snd (read_name e n)) <= String.length e.
Proof.
  revert e; induction n as [|n IH]; intros [|c rest]; simpl; try lia.
  destruct (isalnum c || Ascii.eqb c "_"); simpl; [|lia].
  specialize (IH rest). destruct (read_name rest n) as [name r]; simpl in *. lia.
Qed.

(** What [tokenize] consumes: nothing more than the text, and at least one
    character for an operator. *)
Definition is_operator (t : Token) : bool :=
  match t with
  | TOKEN_NUMBER _ | TOKEN_VARIABLE _ | TOKEN_END => false
  | _ => true
  end.

Lemma advance_length k c rest :
  String.length (advance (S k) (String c rest)) <= String.length rest.
Proof.
  simpl. revert k; induction rest as [|d r IH]; intros [|k]; simpl; try lia.
  specialize (IH k). lia.
Qed.

Lemma tokenize_length e :
  String.length (snd (tokenize e)) <= String.length e /\
  (is_operator (fst (tokenize e)) = true ->
   String.length (snd (tokenize e)) < String.length e).
Proof.
  unfold tokenize. pose proof (skip_spaces_length e) as Hs.
  destruct (skip_spaces e) as [|c rest] eqn:E.
  - simpl. split; [lia | discriminate].
  - pose proof (strtol_length (String c rest)) as Hn.
    pose proof (read_name_length (String c rest) 31) as Hv.
    pose proof (advance_length 0 c rest) as H1.
    pose proof (advance_length 1 c rest) as H2.
    destruct (strtol (String c rest)) as [v e1].
    destruct (read_name (String c rest) 31) as [name e2].
    change (String.length (String c rest)) with (S (String.length rest)) in *.
    cbn [snd] in Hn, Hv.
    repeat match goal with
           | |- context [if ?b then _ else _] => destruct b
           end; cbn [fst snd is_operator];
      change (String.length (String c rest)) with (S (String.length rest));
      (split; [lia | try discriminate; intros _; lia]).
Qed.

(** *** Enough fuel always gives a result *)

Lemma eval_value_fuel_total vars n e :
  String.length e < n ->
  exists v e', eval_value_fuel n vars e = Some (v, e') /\
               String.length e' <= String.length e.
Proof.
  revert e; induction n as [|n IH]; intros e Hn; [lia|]. simpl.
  destruct (tokenize_length e) as [H1 _].
  destruct (tokenize e) as [token e1]; simpl in H1.
  destruct (tokenize_length e1) as [H2 H2'].
  destruct (tokenize e1) as [op e2]; simpl in H2, H2'.
  destruct op; try (eexists _, _; split; [reflexivity | lia]);
    (destruct (IH e2) as (v & e3 & -> & H3); [specialize (H2' eq_refl); lia|];
     eexists _, _; split; [reflexivity | specialize (H2' eq_refl); lia]).
Qed.

Lemma eval_value_total vars e :
  exists v e', eval_value vars e = Some (v, e') /\
               String.length e' <= String.length e.
Proof. apply eval_value_fuel_total. lia. Qed.

Lemma eval_condition_fuel_total vars n e :
  String.length e < n -> exists b, eval_condition_fuel n vars e = Some b.
Proof.
  revert e; induction n as [|n IH]; intros e Hn; [lia|]. simpl.
  destruct (eval_value_total vars e) as (lhs & e1 & -> & H1).
  destruct (tokenize_length e1) as [H2 _].
  destruct (tokenize e1) as [op e2]; simpl in H2.
  destruct (eval_value_total vars e2) as (rhs & e3 & E3 & H3).
  destruct (tokenize_length e3) as [H4 H4'].
  destruct (tokenize e3) as [logical e4] eqn:T4; simpl in H4, H4'.
  assert (Hrec : is_operator logical = true ->
                 exists b, eval_condition_fuel n vars e4 = Some b).
  { intros Hop. apply IH. specialize (H4' Hop). lia. }
  destruct op; try (eexists; reflexivity); rewrite E3, T4;
    (destruct logical; try (eexists; reflexivity);
     destruct (Hrec eq_refl) as [b ->];
     destruct (compare_values _ lhs rhs); eexists; reflexivity).
Qed.

(** The fuel [eval_condition] passes is enough: its default is never taken. *)
Theorem eval_condition_total vars condition :
  eval_condition_fuel (S (String.length condition)) vars condition
  = Some (eval_condition vars condition).
Proof.
  unfold eval_condition.
  destruct (eval_condition_fuel_total vars (S (String.length condition)) condition)
    as [b ->]; [lia | reflexivity].
Qed.

(** One unfolding of each evaluator. *)
Lemma eval_value_fuel_step vars n e :
  eval_value_fuel (S n) vars e
  = let '(token, e1) := tokenize e in
    let value :=
      match token with
      | TOKEN_NUMBER k => k
      | TOKEN_VARIABLE name => get_variable vars name
      | _ => 0%Z
      end in
    let '(op, e2) := tokenize e1 in
    match op with
    | TOKEN_OP_ADD =>
        match eval_value_fuel n vars e2 with
        | Some (v, e3) => Some (CInt.i32 (value + v), e3)
        | None => None
        end
    | TOKEN_OP_SUB =>
        match eval_value_fuel n vars e2 with
        | Some (v, e3) => Some (CInt.i32 (value - v), e3)
        | None => None
        end
    | _ => Some (value, e1)
    end.
Proof. reflexivity. Qed.

Lemma eval_condition_fuel_step vars n e :
  eval_condition_fuel (S n) vars e
  = match eval_value vars e with
    | None => None
    | Some (lhs, e1) =>
        let '(op, e2) := tokenize e1 in
        match op with
        | TOKEN_END => Some (negb (lhs =? 0)%Z)
        | _ =>
            match eval_value vars e2 with
            | None => None
            | Some (rhs, e3) =>
                let result := compare_values op lhs rhs in
                let '(logical, e4) := tokenize e3 in
                match logical with
                | TOKEN_OP_AND =>
                    if result then eval_condition_fuel n vars e4 else Some false
                | TOKEN_OP_OR =>
                    if result then Some true else eval_condition_fuel n vars e4
                | _ => Some result
                end
            end
        end
    end.
Proof. reflexivity. Qed.

(** More fuel changes nothing. *)
Lemma eval_value_fuel_more vars n e r :
  eval_value_fuel n vars e = Some r -> eval_value_fuel (S n) vars e = Some r.
Proof.
  revert e r; induction n as [|n IH]; intros e r; [discriminate|].
  rewrite (eval_value_fuel_step vars (S n) e), (eval_value_fuel_step vars n e).
  destruct (tokenize e) as [token e1]. destruct (tokenize e1) as [op e2].
  destruct op; try (intros H; exact H);
    (destruct (eval_value_fuel n vars e2) as [[v e3]|] eqn:E; [|discriminate];
     rewrite (IH _ _ E); intros H; exact H).
Qed.

Lemma eval_value_fuel_le vars n m e r :
  n <= m -> eval_value_fuel n vars e = Some r -> eval_value_fuel m vars e = Some r.
Proof. induction 1; auto using eval_value_fuel_more. Qed.

Lemma eval_value_fuel_enough vars n e r :
  eval_value_fuel n vars e = Some r -> eval_value vars e = Some r.
Proof.
  intros H. unfold eval_value.
  destruct (Nat.le_ge_cases n (S (String.length e))) as [Hle|Hge].
  - exact (eval_value_fuel_le vars _ _ e r Hle H).
  - destruct (eval_value_fuel_total vars (S (String.length e)) e) as (v & e' & E & _);
      [lia|].
    rewrite E. rewrite (eval_value_fuel_le vars _ _ e _ Hge E) in H. exact H.
Qed.

Lemma eval_condition_fuel_more vars n e b :
  eval_condition_fuel n vars e = Some b -> eval_condition_fuel (S n) vars e = Some b.
Proof.
  revert e b; induction n as [|n IH]; intros e b; [discriminate|].
  rewrite (eval_condition_fuel_step vars (S n) e), (eval_condition_fuel_step vars n e).
  destruct (eval_value vars e) as [[lhs e1]|]; [|discriminate].
  destruct (tokenize e1) as [op e2].
  destruct (eval_value vars e2) as [[rhs e3]|];
    [|destruct op; intros H; exact H].
  destruct (tokenize e3) as [logical e4]. cbv zeta.
  destruct op; try (intros H; exact H);
    (destruct logical; try (intros H; exact H);
     destruct (compare_values _ lhs rhs); try (intros H; exact H);
     apply IH).
Qed.

Lemma eval_condition_fuel_le vars n m e b :
  n <= m -> eval_condition_fuel n vars e = Some b ->
  eval_condition_fuel m vars e = Some b.
Proof. induction 1; auto using eval_condition_fuel_more. Qed.

Lemma eval_condition_fuel_enough vars n e b :
  eval_condition_fuel n vars e = Some b -> eval_condition vars e = b.
Proof.
  intros H. pose proof (eval_condition_total vars e) as T.
  destruct (Nat.le_ge_cases n (S (String.length e))) as [Hle|Hge].
  - rewrite (eval_condition_fuel_le vars _ _ e b Hle H) in T. congruence.
  - rewrite (eval_condition_fuel_le vars _ _ e _ Hge T) in H. congruence.
Qed.

(** *** The grammar of section 4.6, with its white space

    [condition := value relop value (logical condition)?], a lone [value]
    standing for [value != 0]; [value := atom (('+' | '-') value)?];
    [atom := NUMBER | IDENT]. Every token carries the white space written
    before it, and a condition the white space after its last token. *)

Inductive Atom :=
| NUMBER (negative : bool) (digits : string)
| IDENT (name : string).

Inductive AddOp := PLUS | MINUS.

Inductive Value :=
| ATOM (ws : string) (a : Atom)
| SUM (ws : string) (a : Atom) (ws_op : string) (op : AddOp) (rest : Value).

Inductive RelOp := GT | LT | GE | LE | EQ | NE.

Inductive Logical := AND | OR.

Inductive Condition :=
| TRUTH (v : Value) (ws_end : string)
| COMPARE (l : Value) (ws_op : string) (op : RelOp) (r : Value) (ws_end : string)
| CHAIN (l : Value) (ws_op : string) (op : RelOp) (r : Value)
        (ws_lg : string) (lg : Logical) (rest : Condition).

(** The text of a phrase, followed by the text [k]. *)
Definition atom_text (a : Atom) (k : string) : string :=
  match a with
  | NUMBER true digits => String "-" (digits ++ k)
  | NUMBER false digits => (digits ++ k)%string
  | IDENT name => (name ++ k)%string
  end.

Definition addop_text (op : AddOp) (k : string) : string :=
  match op with
  | PLUS => String "+" k
  | MINUS => String "-" k
  end.

Fixpoint value_text (v : Value) (k : string) : string :=
  match v with
  | ATOM ws a => (ws ++ atom_text a k)%string
  | SUM ws a ws_op op rest =>
      (ws ++ atom_text a (ws_op ++ addop_text op (value_text rest k)))%string
  end.

Definition relop_text (op : RelOp) (k : string) : string :=
  match op with
  | GT => String ">" k
  | LT => String "<" k
  | GE => String ">" (String "=" k)
  | LE => String "<" (String "=" k)
  | EQ => String "=" (String "=" k)
  | NE => String "!" (String "=" k)
  end.

Definition logical_text (lg : Logical) (k : string) : string :=
  match lg with
  | AND => String "&" (String "&" k)
  | OR => String "|" (String "|" k)
  end.

Fixpoint condition_text (c : Condition) : string :=
  match c with
  | TRUTH v ws_end => value_text v ws_end
  | COMPARE l ws_op op r ws_end =>
      value_text l (ws_op ++ relop_text op (value_text r ws_end))
  | CHAIN l ws_op op r ws_lg lg rest =>
      value_text l (ws_op ++ relop_text op
        (value_text r (ws_lg ++ logical_text lg (condition_text rest))))
  end.

(** Grammatical phrases: white space is white, a number is a non-empty run of
    digits, an identifier matches [[A-Za-z_][A-Za-z0-9_]*]. *)
Fixpoint all_chars (f : ascii -> bool) (s : string) : bool :=
  match s with
  | EmptyString => true
  | String c rest => f c && all_chars f rest
  end.

Definition blank (ws : string) : bool := all_chars isspace ws.

Definition name_char (c : ascii) : bool := isalnum c || Ascii.eqb c "_".

Definition grammatical_atom (a : Atom) : bool :=
  match a with
  | NUMBER _ (String c rest) => all_chars isdigit (String c rest)
  | NUMBER _ EmptyString => false
  | IDENT (String c rest) => (isalpha c || Ascii.eqb c "_") && all_chars name_char rest
  | IDENT EmptyString => false
  end.

Fixpoint grammatical_value (v : Value) : bool :=
  match v with
  | ATOM ws a => blank ws && grammatical_atom a
  | SUM ws a ws_op _ rest =>
      blank ws && grammatical_atom a && blank ws_op && grammatical_value rest
  end.

Fixpoint grammatical (c : Condition) : bool :=
  match c with
  | TRUTH v ws_end => grammatical_value v && blank ws_end
  | COMPARE l ws_op _ r ws_end =>
      grammatical_value l && blank ws_op && grammatical_value r && blank ws_end
  | CHAIN l ws_op _ r ws_lg _ rest =>
      grammatical_value l && blank ws_op && grammatical_value r && blank ws_lg
      && grammatical rest
  end.

(** What [tokenize] needs beyond the grammar: identifiers that fit its buffer
    of 31 characters, and no binary minus written directly before a digit. *)
Definition fits (a : Atom) : bool :=
  match a with
  | NUMBER _ _ => true
  | IDENT name => String.length name <=? 31
  end.

Definition digit_first (v : Value) : bool :=
  match v with
  | ATOM EmptyString (NUMBER false _) => true
  | SUM EmptyString (NUMBER false _) _ _ _ => true
  | _ => false
  end.

Fixpoint tokenizable_value (v : Value) : bool :=
  match v with
  | ATOM _ a => fits a
  | SUM _ a _ op rest =>
      fits a && tokenizable_value rest
      && match op with MINUS => negb (digit_first rest) | PLUS => true end
  end.

Fixpoint tokenizable (c : Condition) : bool :=
  match c with
  | TRUTH v _ => tokenizable_value v
  | COMPARE l _ _ r _ => tokenizable_value l && tokenizable_value r
  | CHAIN l _ _ r _ _ rest =>
      tokenizable_value l && tokenizable_value r && tokenizable rest
  end.

(** *** The right-recursive reading *)

Fixpoint digits_value (digits : string) (acc : Z) : Z :=
  match digits with
  | EmptyString => acc
  | String c rest => digits_value rest (acc * 10 + (code c - 48))%Z
  end.

(** A literal saturates at the bounds of [long] and is then narrowed to
    [int32_t]; an identifier is looked up on the blackboard. *)
Definition atom_value (vars : list VariableEntry) (a : Atom) : Z :=
  match a with
  | NUMBER true digits => CInt.i32 (Z.max CInt.LONG_MIN (- digits_value digits 0))
  | NUMBER false digits => CInt.i32 (Z.min CInt.LONG_MAX (digits_value digits 0))
  | IDENT name => get_variable vars name
  end.

(** [a - b + c] is [a - (b + c)], in 32-bit arithmetic. *)
Fixpoint value_of (vars : list VariableEntry) (v : Value) : Z :=
  match v with
  | ATOM _ a => atom_value vars a
  | SUM _ a _ PLUS rest => CInt.i32 (atom_value vars a + value_of vars rest)
  | SUM _ a _ MINUS rest => CInt.i32 (atom_value vars a - value_of vars rest)
  end.

Definition relation (op : RelOp) (l r : Z) : bool :=
  match op with
  | GT => (l >? r)%Z
  | LT => (l <? r)%Z
  | GE => (l >=? r)%Z
  | LE => (l <=? r)%Z
  | EQ => (l =? r)%Z
  | NE => negb (l =? r)%Z
  end.

(** [v1 relop v2 LOGICAL rest] is [(v1 relop v2) LOGICAL (rest)]. *)
Fixpoint truth_of (vars : list VariableEntry) (c : Condition) : bool :=
  match c with
  | TRUTH v _ => negb (value_of vars v =? 0)%Z
  | COMPARE l _ op r _ => relation op (value_of vars l) (value_of vars r)
  | CHAIN l _ op r _ AND rest =>
      relation op (value_of vars l) (value_of vars r) && truth_of vars rest
  | CHAIN l _ op r _ OR rest =>
      relation op (value_of vars l) (value_of vars r) || truth_of vars rest
  end.

(** *** Characters *)

Lemma name_start_facts c :
  isalpha c || Ascii.eqb c "_" = true ->
  isspace c = false /\ isdigit c = false /\ name_char c = true /\
  Ascii.eqb c "-" = false /\ Ascii.eqb c "+" = false /\
  Ascii.eqb c ">" = false /\ Ascii.eqb c "<" = false /\
  Ascii.eqb c "=" = false /\ Ascii.eqb c "!" = false /\
  Ascii.eqb c "&" = false /\ Ascii.eqb c "|" = false.
Proof.
  destruct c as [[] [] [] [] [] [] [] []]; vm_compute; intros H;
    try discriminate H; repeat split.
Qed.

Lemma digit_facts c :
  isdigit c = true ->
  isspace c = false /\ name_char c = true /\
  Ascii.eqb c "-" = false /\ Ascii.eqb c "=" = false.
Proof.
  destruct c as [[] [] [] [] [] [] [] []]; vm_compute; intros H;
    try discriminate H; repeat split.
Qed.

Lemma space_facts c :
  isspace c = true ->
  isdigit c = false /\ name_char c = false /\ Ascii.eqb c "=" = false.
Proof.
  destruct c as [[] [] [] [] [] [] [] []]; vm_compute; intros H;
    try discriminate H; repeat split.
Qed.

(** *** White space before a token *)

Lemma skip_spaces_blank ws s :
  blank ws = true -> skip_spaces (ws ++ s) = skip_spaces s.
Proof.
  induction ws as [|c ws IH]; simpl; [reflexivity|].
  intros H; apply andb_prop in H as [Hc Hws]. rewrite Hc. now apply IH.
Qed.

Lemma tokenize_blank ws s : blank ws = true -> tokenize (ws ++ s) = tokenize s.
Proof. intros H. unfold tokenize. now rewrite skip_spaces_blank. Qed.

Lemma tokenize_end ws : blank ws = true -> tokenize ws = (TOKEN_END, EmptyString).
Proof.
  intros H. unfold tokenize.
  replace (skip_spaces ws) with EmptyString; [reflexivity|].
  induction ws as [|c ws IH]; simpl; [reflexivity|].
  simpl in H; apply andb_prop in H as [Hc Hws]. rewrite Hc. now apply IH.
Qed.

(** *** Atoms *)

(** The text [k] cannot continue a number or a name. *)
Definition ends_atom (k : string) : bool :=
  match k with
  | String c _ => negb (name_char c)
  | EmptyString => true
  end.

Lemma read_digits_text digits k acc :
  all_chars isdigit digits = true -> ends_atom k = true ->
  read_digits (digits ++ k) acc = (digits_value digits acc, k).
Proof.
  revert acc; induction digits as [|c rest IH]; intros acc Hd Hk; simpl.
  - destruct k as [|c k']; [reflexivity|]. simpl in Hk. simpl.
    destruct (isdigit c) eqn:E; [|reflexivity].
    apply digit_facts in E as (_ & E & _). rewrite E in Hk. discriminate.
  - simpl in Hd; apply andb_prop in Hd as [Hc Hrest]. rewrite Hc. now apply IH.
Qed.

Lemma read_name_text name k n :
  all_chars name_char name = true -> String.length name <= n -> ends_atom k = true ->
  read_name (name ++ k) n = (name, k).
Proof.
  revert n; induction name as [|c rest IH]; intros n Hn Hlen Hk.
  - simpl. destruct k as [|c k']; destruct n as [|n]; try reflexivity.
    simpl in Hk. simpl. unfold name_char in Hk.
    destruct (isalnum c || Ascii.eqb c "_"); [discriminate|reflexivity].
  - destruct n as [|n]; [simpl in Hlen; lia|].
    simpl in Hn; apply andb_prop in Hn as [Hc Hrest]. simpl.
    unfold name_char in Hc. rewrite Hc.
    rewrite (IH n Hrest); [reflexivity | simpl in Hlen; lia | exact Hk].
Qed.

(** The token [tokenize] forms from an atom. *)
Definition atom_token (a : Atom) : Token :=
  match a with
  | NUMBER _ _ => TOKEN_NUMBER (atom_value [] a)
  | IDENT name => TOKEN_VARIABLE name
  end.

Lemma tokenize_atom a k :
  grammatical_atom a = true -> fits a = true -> ends_atom k = true ->
  tokenize (atom_text a k) = (atom_token a, k).
Proof.
  intros Hg Hf Hk. destruct a as [[|] [|c digits]|[|c name]]; try discriminate Hg.
  - (* -digits *)
    simpl in Hg. pose proof Hg as Hd. apply andb_prop in Hd as [Hc _].
    unfold atom_text, tokenize. cbn [skip_spaces]. replace (isspace "-") with false by reflexivity.
    cbn [starts_with_digit append]. rewrite Hc.
    replace (isdigit "-" || (Ascii.eqb "-" "-" && true)) with true by reflexivity.
    unfold strtol. replace (Ascii.eqb "-" "-") with true by reflexivity.
    change (String c (digits ++ k)) with (String c digits ++ k)%string.
    rewrite (read_digits_text (String c digits) k 0%Z Hg Hk). reflexivity.
  - (* digits *)
    simpl in Hg. pose proof Hg as Hd. apply andb_prop in Hd as [Hc _].
    destruct (digit_facts c Hc) as (Hs & _ & Hm & _).
    unfold atom_text, tokenize. cbn [append skip_spaces]. rewrite Hs, Hc. cbn [orb].
    unfold strtol. rewrite Hm.
    change (String c (digits ++ k)) with (String c digits ++ k)%string.
    rewrite (read_digits_text (String c digits) k 0%Z Hg Hk). reflexivity.
  - (* name *)
    simpl in Hg. apply andb_prop in Hg as [Hc Hrest].
    destruct (name_start_facts c Hc)
      as (Hs & Hd & Hn & Hminus & Hplus & Hgt & Hlt & Heq & Hne & Hand & Hor).
    unfold atom_text, tokenize. cbn [append skip_spaces]. rewrite Hs, Hd, Hminus.
    unfold two_chars. rewrite Hgt, Hlt, Heq, Hne, Hand, Hor, Hplus, Hc. cbn [andb orb].
    change (String c (name ++ k)) with (String c name ++ k)%string.
    rewrite read_name_text; [reflexivity | | | exact Hk].
    + simpl. now rewrite Hn, Hrest.
    + simpl in Hf. apply Nat.leb_le in Hf. simpl. lia.
Qed.

(** *** Operators *)

Definition addop_token (op : AddOp) : Token :=
  match op with PLUS => TOKEN_OP_ADD | MINUS => TOKEN_OP_SUB end.

Definition relop_token (op : RelOp) : Token :=
  match op with
  | GT => TOKEN_OP_GT | LT => TOKEN_OP_LT | GE => TOKEN_OP_GE
  | LE => TOKEN_OP_LE | EQ => TOKEN_OP_EQ | NE => TOKEN_OP_NE
  end.

Definition logical_token (lg : Logical) : Token :=
  match lg with AND => TOKEN_OP_AND | OR => TOKEN_OP_OR end.

Lemma tokenize_addop op k :
  (op = MINUS -> starts_with_digit k = false) ->
  tokenize (addop_text op k) = (addop_token op, k).
Proof.
  intros H. destruct op; unfold tokenize, addop_text; cbn.
  - reflexivity.
  - rewrite (H eq_refl). reflexivity.
Qed.

Lemma tokenize_relop op k :
  starts_with "=" k = false -> tokenize (relop_text op k) = (relop_token op, k).
Proof.
  intros H. destruct op; unfold tokenize, relop_text; cbn; rewrite ?H; reflexivity.
Qed.

Lemma tokenize_logical lg k : tokenize (logical_text lg k) = (logical_token lg, k).
Proof. destruct lg; reflexivity. Qed.

Lemma relation_compare op l r :
  compare_values (relop_token op) l r = relation op l r.
Proof. destruct op; reflexivity. Qed.

(** *** How a value's text begins, and what may follow an atom *)

Lemma atom_text_start a k :
  grammatical_atom a = true ->
  exists c rest, atom_text a k = String c rest /\ isspace c = false /\
                 Ascii.eqb c "=" = false /\
                 (isdigit c = true -> exists digits, a = NUMBER false digits).
Proof.
  destruct a as [[|] [|c digits]|[|c name]]; try discriminate; simpl; intros H.
  - exists "-"%char, (String c digits ++ k)%string. repeat split. discriminate.
  - apply andb_prop in H as [Hc _]. destruct (digit_facts c Hc) as (Hs & _ & _ & He).
    exists c, (digits ++ k)%string. repeat split; try assumption. eauto.
  - apply andb_prop in H as [Hc _].
    destruct (name_start_facts c Hc) as (Hs & Hd & _ & _ & _ & _ & _ & He & _).
    exists c, (name ++ k)%string. repeat split; try assumption. congruence.
Qed.

Lemma value_text_unfold v k :
  exists ws a k', value_text v k = (ws ++ atom_text a k')%string /\
                  (grammatical_value v = true -> blank ws = true /\ grammatical_atom a = true) /\
                  (digit_first v = false -> ws = EmptyString ->
                   forall digits, a <> NUMBER false digits).
Proof.
  destruct v as [ws a|ws a ws_op op rest]; simpl.
  - exists ws, a, k. split; [reflexivity|]. split.
    + intros H; apply andb_prop in H. exact H.
    + intros Hd -> digits ->. discriminate.
  - exists ws, a, (ws_op ++ addop_text op (value_text rest k))%string.
    split; [reflexivity|]. split.
    + intros H. repeat (apply andb_prop in H as [H ?]). auto.
    + intros Hd -> digits ->. discriminate.
Qed.

Lemma value_text_not_equals v k :
  grammatical_value v = true -> starts_with "=" (value_text v k) = false.
Proof.
  intros Hg. destruct (value_text_unfold v k) as (ws & a & k' & -> & H & _).
  destruct (H Hg) as [Hws Ha]. destruct ws as [|c ws]; simpl.
  - destruct (atom_text_start a k' Ha) as (c & rest & -> & _ & He & _). exact He.
  - simpl in Hws. apply andb_prop in Hws as [Hc _].
    now destruct (space_facts c Hc) as (_ & _ & He).
Qed.

Lemma value_text_not_digit v k :
  grammatical_value v = true -> digit_first v = false ->
  starts_with_digit (value_text v k) = false.
Proof.
  intros Hg Hd. destruct (value_text_unfold v k) as (ws & a & k' & -> & H & Hn).
  destruct (H Hg) as [Hws Ha]. destruct ws as [|c ws]; simpl.
  - destruct (atom_text_start a k' Ha) as (c & rest & -> & _ & _ & Hnum). simpl.
    destruct (isdigit c) eqn:E; [|reflexivity].
    destruct (Hnum eq_refl) as [digits ->]. now destruct (Hn Hd eq_refl digits).
  - simpl in Hws. apply andb_prop in Hws as [Hc _].
    now destruct (space_facts c Hc) as (Hdig & _).
Qed.

Lemma ends_atom_blank ws k :
  blank ws = true -> ends_atom k = true -> ends_atom (ws ++ k) = true.
Proof.
  destruct ws as [|c ws]; simpl; [auto|]. intros H _.
  apply andb_prop in H as [Hc _]. destruct (space_facts c Hc) as (_ & Hn & _).
  now rewrite Hn.
Qed.

(** The next token of [k] is neither [+] nor [-]. *)
Definition no_sum (k : string) : bool :=
  match fst (tokenize k) with
  | TOKEN_OP_ADD | TOKEN_OP_SUB => false
  | _ => true
  end.

(** *** Values *)

Lemma eval_value_text_fuel vars v k :
  grammatical_value v = true -> tokenizable_value v = true ->
  ends_atom k = true -> no_sum k = true ->
  exists n, eval_value_fuel n vars (value_text v k) = Some (value_of vars v, k).
Proof.
  intros Hg Ht Hk Hs. induction v as [ws a|ws a ws_op op rest IH].
  - simpl in Hg, Ht. apply andb_prop in Hg as [Hws Ha].
    exists 1. rewrite eval_value_fuel_step. cbn [value_text].
    rewrite (tokenize_blank ws _ Hws), (tokenize_atom a k Ha Ht Hk).
    unfold no_sum in Hs. destruct (tokenize k) as [op e2]; simpl in Hs.
    destruct a as [neg digits|name]; destruct op; try discriminate Hs; reflexivity.
  - simpl in Hg, Ht.
    apply andb_prop in Hg as [Hg Hrest]. apply andb_prop in Hg as [Hg Hwo].
    apply andb_prop in Hg as [Hws Ha].
    apply andb_prop in Ht as [Ht Hglue]. apply andb_prop in Ht as [Hfit Htr].
    destruct (IH Hrest Htr) as [n E].
    exists (S n). rewrite eval_value_fuel_step. cbn [value_text].
    rewrite (tokenize_blank ws _ Hws).
    rewrite (tokenize_atom a _ Ha Hfit);
      [|apply ends_atom_blank; [exact Hwo | destruct op; reflexivity]].
    rewrite (tokenize_blank ws_op _ Hwo).
    rewrite tokenize_addop.
    + rewrite E. destruct a as [neg digits|name]; destruct op; reflexivity.
    + intros ->. apply value_text_not_digit; [exact Hrest|].
      now apply negb_true_iff in Hglue.
Qed.

Lemma eval_value_text vars v k :
  grammatical_value v = true -> tokenizable_value v = true ->
  ends_atom k = true -> no_sum k = true ->
  eval_value vars (value_text v k) = Some (value_of vars v, k).
Proof.
  intros Hg Ht Hk Hs.
  destruct (eval_value_text_fuel vars v k Hg Ht Hk Hs) as [n E].
  exact (eval_value_fuel_enough vars n _ _ E).
Qed.

(** What follows a value in a condition. *)
Lemma after_value_end ws :
  blank ws = true -> ends_atom ws = true /\ no_sum ws = true.
Proof.
  intros H. split.
  - rewrite <- (ends_atom_blank ws EmptyString H eq_refl).
    f_equal. induction ws as [|c ws IH]; simpl; [reflexivity|].
    simpl in H. apply andb_prop in H as [_ H]. now rewrite <- IH.
  - unfold no_sum. now rewrite (tokenize_end ws H).
Qed.

Lemma after_value_relop ws op v k :
  blank ws = true -> grammatical_value v = true ->
  let text := (ws ++ relop_text op (value_text v k))%string in
  ends_atom text = true /\ no_sum text = true /\
  tokenize text = (relop_token op, value_text v k).
Proof.
  intros Hws Hv text. subst text.
  assert (T : tokenize (ws ++ relop_text op (value_text v k))
              = (relop_token op, value_text v k)).
  { rewrite (tokenize_blank ws _ Hws). apply tokenize_relop.
    now apply value_text_not_equals. }
  split; [|split; [|exact T]].
  - apply ends_atom_blank; [exact Hws | destruct op; reflexivity].
  - unfold no_sum. rewrite T. destruct op; reflexivity.
Qed.

Lemma after_value_logical ws lg k :
  blank ws = true ->
  let text := (ws ++ logical_text lg k)%string in
  ends_atom text = true /\ no_sum text = true /\
  tokenize text = (logical_token lg, k).
Proof.
  intros Hws text. subst text.
  assert (T : tokenize (ws ++ logical_text lg k) = (logical_token lg, k)).
  { rewrite (tokenize_blank ws _ Hws). apply tokenize_logical. }
  split; [|split; [|exact T]].
  - apply ends_atom_blank; [exact Hws | destruct lg; reflexivity].
  - unfold no_sum. rewrite T. destruct lg; reflexivity.
Qed.

(** *** Conditions *)

Lemma eval_condition_text_fuel vars c :
  grammatical c = true -> tokenizable c = true ->
  exists n, eval_condition_fuel n vars (condition_text c) = Some (truth_of vars c).
Proof.
  induction c as [v ws_end|l ws_op op r ws_end|l ws_op op r ws_lg lg rest IH];
    simpl; intros Hg Ht.
  - apply andb_prop in Hg as [Hv Hend].
    destruct (after_value_end ws_end Hend) as [Hk Hs].
    exists 1. rewrite eval_condition_fuel_step.
    rewrite (eval_value_text vars v ws_end Hv Ht Hk Hs).
    rewrite (tokenize_end ws_end Hend). reflexivity.
  - apply andb_prop in Hg as [Hg Hend]. apply andb_prop in Hg as [Hg Hr].
    apply andb_prop in Hg as [Hl Hws]. apply andb_prop in Ht as [Htl Htr].
    destruct (after_value_relop ws_op op r ws_end Hws Hr) as (Hk & Hs & T).
    destruct (after_value_end ws_end Hend) as [Hk' Hs'].
    exists 1. rewrite eval_condition_fuel_step.
    rewrite (eval_value_text vars l _ Hl Htl Hk Hs), T.
    rewrite (eval_value_text vars r ws_end Hr Htr Hk' Hs').
    rewrite (tokenize_end ws_end Hend), relation_compare.
    destruct op; reflexivity.
  - apply andb_prop in Hg as [Hg Hrest]. apply andb_prop in Hg as [Hg Hlg].
    apply andb_prop in Hg as [Hg Hr]. apply andb_prop in Hg as [Hl Hws].
    apply andb_prop in Ht as [Ht Htrest]. apply andb_prop in Ht as [Htl Htr].
    destruct (IH Hrest Htrest) as [n E].
    destruct (after_value_logical ws_lg lg (condition_text rest) Hlg) as (Hk' & Hs' & T').
    destruct (after_value_relop ws_op op r
                (ws_lg ++ logical_text lg (condition_text rest)) Hws Hr) as (Hk & Hs & T).
    exists (S n). rewrite eval_condition_fuel_step.
    rewrite (eval_value_text vars l _ Hl Htl Hk Hs), T.
    rewrite (eval_value_text vars r _ Hr Htr Hk' Hs'), T'.
    rewrite relation_compare. cbv zeta. rewrite E.
    destruct op, lg; cbn [relop_token logical_token];
      destruct (relation _ (value_of vars l) (value_of vars r)); reflexivity.
Qed.

(** C6 (as amended): for every condition of the grammar whose identifiers
    have at most 31 characters and in which no binary minus stands directly
    before a digit, whatever white space separates its tokens, and for every
    blackboard, [eval_condition] yields the right-recursive reading:
    [v1 relop v2 LOGICAL rest] is [(v1 relop v2) LOGICAL (rest)] with no
    precedence between [&&] and [||], a lone value is compared with 0, and
    inside a value [a - b + c] is [a - (b + c)]. *)
Theorem eval_condition_right_recursive vars c :
  grammatical c = true -> tokenizable c = true ->
  eval_condition vars (condition_text c) = truth_of vars c.
Proof.
  intros Hg Ht. destruct (eval_condition_text_fuel vars c Hg Ht) as [n E].
  exact (eval_condition_fuel_enough vars n _ _ E).
Qed.

(** [a - b + c > 0 || x == 1 && y != 2] on a blackboard where the first
    comparison fails: the reading is [(a - (b + c) > 0) || ((x == 1) && (y != 2))]. *)
Definition chained : Condition :=
  CHAIN (SUM "" (IDENT "a") " " MINUS (SUM " " (IDENT "b") " " PLUS (ATOM " " (IDENT "c"))))
        " " GT (ATOM " " (NUMBER false "0"))
        " " OR
        (CHAIN (ATOM " " (IDENT "x")) " " EQ (ATOM " " (NUMBER false "1"))
               " " AND
               (COMPARE (ATOM " " (IDENT "y")) " " NE (ATOM " " (NUMBER false "2")) "")).

Definition board : list VariableEntry :=
  [mkVar "a" 9; mkVar "b" 2; mkVar "c" 8; mkVar "x" 1; mkVar "y" 5].

Lemma eval_condition_right_recursive_witness :
  condition_text chained = "a - b + c > 0 || x == 1 && y != 2"%string /\
  eval_condition board (condition_text chained) = truth_of board chained.
Proof.
  split; [reflexivity|].
  apply (eval_condition_right_recursive board chained); vm_compute; reflexivity.
Defined.

(** The same shape read on numbers: [9 - 2 + 3] is [9 - (2 + 3) = 4]. *)
Lemma nine_minus_two_plus_three :
  eval_value [] "9 - 2 + 3" = Some (4%Z, EmptyString) /\
  eval_condition [] "9 - 2 + 3 == 4" = true.
Proof. split; vm_compute; reflexivity. Qed.

(** [9-2+3 > 0], written without spaces. *)
Definition glued : Condition :=
  COMPARE (SUM "" (NUMBER false "9") "" MINUS
               (SUM "" (NUMBER false "2") "" PLUS (ATOM "" (NUMBER false "3"))))
          " " GT (ATOM " " (NUMBER false "0")) "".

(** C6 (as stated) fails: [9-2+3 > 0] is a condition of the grammar, and its
    right-recursive reading [9 - (2 + 3) > 0] is true, but [eval_condition]
    returns false: [tokenize] reads [-2] as one number, so the value ends
    after [9] and the token that should be a relational operator is not. *)
Lemma glued_minus_counterexample :
  condition_text glued = "9-2+3 > 0"%string /\
  grammatical glued = true /\
  truth_of [] glued = true /\
  eval_condition [] (condition_text glued) = false /\
  tokenize "-2+3 > 0" = (TOKEN_NUMBER (-2), "+3 > 0"%string).
Proof. repeat split; vm_compute; reflexivity. Qed.

(** An identifier of 36 characters is read as two names, so a grammatical
    condition on it is not evaluated as the comparison it is. *)
Definition long_ident : Condition :=
  COMPARE (ATOM "" (IDENT Blackboard.long_name)) " " GT (ATOM " " (NUMBER true "1")) "".

Lemma long_identifier_split :
  grammatical long_ident = true /\
  truth_of [] long_ident = true /\
  eval_condition [] (condition_text long_ident) = false /\
  tokenize Blackboard.long_name
  = (TOKEN_VARIABLE "abcdefghijklmnopqrstuvwxyz01234", "56789"%string).
Proof. repeat split; vm_compute; reflexivity. Qed.

End Expressions.


(* ========================================================================= *)
(** * Template and trigger tables *)

Module Tables.

Import VisionEngine Fixtures.

Lemma fold_left_ext_in {A B} (f g : A -> B -> A) (l : list B) (a : A) :
  (forall a x, In x l -> f a x = g a x) -> fold_left f l a = fold_left g l a.
Proof.
  revert a; induction l as [|x l IH]; intros a H; [reflexivity|].
  cbn [fold_left]. rewrite (H a x (or_introl eq_refl)).
  apply IH. intros a' x' Hx. apply H. now right.
Qed.

Lemma nth_steps lo hi k d :
  Z.of_nat k < hi - lo -> nth k (steps lo hi 1) d = lo + Z.of_nat k.
Proof.
  intros H. unfold steps.
  replace ((hi - lo + 1 - 1) / 1) with (hi - lo) by (rewrite Z.div_1_r; lia).
  rewrite (nth_indep _ d (lo + 1 * Z.of_nat 0)) by (rewrite length_map, length_seq; lia).
  rewrite (map_nth (fun k => lo + 1 * Z.of_nat k)).
  rewrite seq_nth by lia. lia.
Qed.

Lemma steps_length lo hi : lo <= hi -> List.length (steps lo hi 1) = Z.to_nat (hi - lo).
Proof.
  intros H. unfold steps. rewrite length_map, length_seq.
  rewrite Z.div_1_r. f_equal. lia.
Qed.

(** The copy holds the source's bytes. *)
Lemma memcpy_at src n i : 0 <= i < n -> byte_at (memcpy src n) i = byte_at src i.
Proof.
  intros H. unfold memcpy. unfold byte_at at 1.
  destruct (i <? 0) eqn:E; [lia|].
  rewrite (nth_indep _ 0 (byte_at src 0))
    by (rewrite length_map, steps_length by lia; lia).
  rewrite (map_nth (byte_at src)). rewrite nth_steps by lia.
  f_equal. lia.
Qed.

(** The entry [vision_load_template] stores for [t]. *)
Definition stored (t : TemplateData) : TemplateData :=
  mkTemplate (tmpl_id t) (tmpl_name t)
             (memcpy (tmpl_data t) (size_t (CInt.i32 (tmpl_width t * tmpl_height t * 4))))
             (tmpl_width t) (tmpl_height t) (tmpl_threshold t) (tmpl_search_region t).

(** A template whose byte count fits an [int]. *)
Definition sized (t : TemplateData) : Prop :=
  0 <= tmpl_width t /\ 0 <= tmpl_height t /\
  tmpl_width t * tmpl_height t * 4 < 2147483648.

Lemma stored_size t :
  sized t -> size_t (CInt.i32 (tmpl_width t * tmpl_height t * 4))
             = tmpl_width t * tmpl_height t * 4.
Proof.
  intros (Hw & Hh & Hs). unfold size_t, CInt.i32.
  assert (0 <= tmpl_width t * tmpl_height t * 4) by nia.
  rewrite (Z.mod_small (_ + _)) by lia.
  rewrite Z.mod_small by lia. lia.
Qed.

Lemma stored_grey t tx ty :
  sized t -> In (tx, ty) (template_pixels t) ->
  grey (tmpl_data (stored t)) (ty * tmpl_width (stored t) * 4 + tx * 4)
  = grey (tmpl_data t) (ty * tmpl_width t * 4 + tx * 4).
Proof.
  intros Hs Hin. pose proof Hs as (Hw & Hh & Hlt).
  unfold template_pixels in Hin. apply Loops.in_grid in Hin as [Hx Hy].
  apply Loops.in_steps in Hx, Hy.
  unfold grey, stored. cbn [tmpl_data tmpl_width]. rewrite (stored_size t Hs).
  rewrite !memcpy_at by nia. reflexivity.
Qed.

Lemma stored_template_match build frame width height x y t :
  sized t ->
  template_match build frame width height x y (stored t)
  = template_match build frame width height x y t.
Proof.
  intros Hs.
  assert (Hp : template_pixels (stored t) = template_pixels t) by reflexivity.
  assert (Ho : outside_frame width height x y (stored t) = outside_frame width height x y t)
    by reflexivity.
  destruct build; unfold template_match, template_match_sse, template_match_scalar;
    rewrite Ho, Hp; destruct (outside_frame width height x y t); try reflexivity.
  - rewrite (fold_left_ext_in _
      (fun '(sp, sf, st) '(tx, ty) =>
         let fval := grey frame ((y + ty) * width * 4 + x * 4 + tx * 4) in
         let tval := grey (tmpl_data t) (ty * tmpl_width t * 4 + tx * 4) in
         (F32.add sp (F32.mul fval tval), F32.add sf (F32.mul fval fval),
          F32.add st (F32.mul tval tval)))); [reflexivity|].
    intros [[sp sf] st] [tx ty] Hin. cbv zeta. now rewrite (stored_grey t tx ty Hs Hin).
  - rewrite (fold_left_ext_in _
      (fun '(sp, sf, st) '(tx, ty) =>
         let fval := grey frame ((y + ty) * width * 4 + x * 4 + tx * 4) in
         let tval := grey (tmpl_data t) (ty * tmpl_width t * 4 + tx * 4) in
         (F64.add sp (F64.of_f32 (F32.mul fval tval)),
          F64.add sf (F64.of_f32 (F32.mul fval fval)),
          F64.add st (F64.of_f32 (F32.mul tval tval))))); [reflexivity|].
    intros [[sp sf] st] [tx ty] Hin. cbv zeta. now rewrite (stored_grey t tx ty Hs Hin).
  - rewrite (fold_left_ext_in _
      (fun '(sp, sf, st) '(tx, ty) =>
         let fval := grey frame ((y + ty) * width * 4 + x * 4 + tx * 4) in
         let tval := grey (tmpl_data t) (ty * tmpl_width t * 4 + tx * 4) in
         (F64.add sp (F64.of_f32 (F32.mul fval tval)),
          F64.add sf (F64.of_f32 (F32.mul fval fval)),
          F64.add st (F64.of_f32 (F32.mul tval tval))))); [reflexivity|].
    intros [[sp sf] st] [tx ty] Hin. cbv zeta. now rewrite (stored_grey t tx ty Hs Hin).
Qed.

(** The search reads its scores through [score_at] only. *)
Section Scores.

Variables f g : Z -> Z -> spec_float.
Hypothesis same : forall x y, f x y = g x y.

Lemma try_position_ext best p : try_position f best p = try_position g best p.
Proof. destruct best as [[s x] y], p as [a b]. unfold try_position. now rewrite same. Qed.

Lemma scan_ext positions best :
  fold_left (try_position f) positions best = fold_left (try_position g) positions best.
Proof.
  apply fold_left_ext_in. intros. apply try_position_ext.
Qed.

Lemma fine_columns_ext fuel y x best :
  fine_columns fuel f y x best = fine_columns fuel g y x best.
Proof.
  revert x best; induction fuel as [|fuel IH]; intros x best; [reflexivity|].
  cbn [fine_columns]. destruct best as [[s bx] by_].
  rewrite try_position_ext. now rewrite IH.
Qed.

Lemma fine_rows_ext fuel fuel_x y best :
  fine_rows fuel fuel_x f y best = fine_rows fuel fuel_x g y best.
Proof.
  revert y best; induction fuel as [|fuel IH]; intros y best; [reflexivity|].
  cbn [fine_rows]. destruct best as [[s bx] by_].
  rewrite fine_columns_ext.
  destruct (y <=? by_ + search_step); [|reflexivity].
  destruct (fine_columns fuel_x g y (bx - search_step) (s, bx, by_)); [apply IH | reflexivity].
Qed.

Lemma best_match_ext tmpl tmpl' width height :
  tmpl_width tmpl' = tmpl_width tmpl -> tmpl_height tmpl' = tmpl_height tmpl ->
  tmpl_search_region tmpl' = tmpl_search_region tmpl ->
  best_match f tmpl' width height = best_match g tmpl width height.
Proof.
  intros Hw Hh Hr. unfold best_match, coarse_match, coarse_positions, fine_match.
  rewrite Hw, Hh, Hr. rewrite scan_ext.
  destruct (fold_left (try_position g) _ _) as [[s x] y].
  now rewrite fine_rows_ext.
Qed.

End Scores.

Lemma stored_find_template build clock frame width height t :
  sized t ->
  vision_find_template build clock frame width height (stored t)
  = vision_find_template build clock frame width height t.
Proof.
  intros Hs. unfold vision_find_template.
  destruct (get_time_ns clock) as [now clock'].
  rewrite (best_match_ext
             (fun x y => template_match build frame width height x y (stored t))
             (fun x y => template_match build frame width height x y t)
             (fun x y => stored_template_match build frame width height x y t Hs)
             t (stored t) width height eq_refl eq_refl eq_refl).
  reflexivity.
Qed.

Lemma load_template_success malloc st t idx st' :
  vision_load_template malloc st (Some t) = (idx, st') -> idx <> -1 ->
  idx = Z.of_nat (List.length (g_templates st)) /\
  idx < RASHPLAYER_MAX_TEMPLATES /\
  st' = mkState (g_templates st ++ [stored t]) (g_triggers st)
                (g_vision_initialized st) (uninit_center st).
Proof.
  unfold vision_load_template.
  destruct (Z.of_nat (List.length (g_templates st)) >=? RASHPLAYER_MAX_TEMPLATES) eqn:E.
  - intros [= <- <-]. congruence.
  - destruct (malloc _).
    + intros [= <- <-] _. unfold RASHPLAYER_MAX_TEMPLATES in *. split; [reflexivity|]. split; [lia|reflexivity].
    + intros [= <- <-]. congruence.
Qed.

(** X1: a template trigger whose [template_id] is the index that
    [vision_load_template] returned is matched against the template that was
    loaded: the slot it fills is the result of [vision_find_template] on the
    caller's template, the deep copy holding the same pixels (for a template
    of non-negative size whose byte count fits an [int]). *)
Theorem loaded_template_is_searched build malloc st t idx st' shm start trigger slot clock :
  vision_load_template malloc st (Some t) = (idx, st') -> idx <> -1 ->
  sized t ->
  trig_params trigger = TRIGGER_TEMPLATE_MATCH idx ->
  run_trigger build st' shm start trigger slot clock
  = vision_find_template build clock (frame_data shm) (frame_width shm) (frame_height shm) t.
Proof.
  intros Hload Hidx Hs Hp.
  destruct (load_template_success malloc st t idx st' Hload Hidx) as (Hi & Hlt & ->).
  unfold run_trigger. rewrite Hp. cbn [g_templates].
  assert (Hi32 : CInt.i32 idx = idx).
  { unfold CInt.i32, RASHPLAYER_MAX_TEMPLATES in *. rewrite Z.mod_small by lia. lia. }
  rewrite Hi32, length_app. cbn [List.length].
  destruct (idx <? Z.of_nat (List.length (g_templates st) + 1)) eqn:E1;
    [|apply Z.ltb_ge in E1; lia].
  destruct (idx <? 0) eqn:E2; [apply Z.ltb_lt in E2; lia|].
  rewrite Hi, Nat2Z.id, nth_error_app2, Nat.sub_diag by lia. cbn [nth_error].
  now apply stored_find_template.
Qed.

Definition fresh : State := mkState [] [] true zero_point.

Definition spot : TemplateData :=
  mkTemplate 7 no_name (paint 1 1 (fun _ _ => white)) 1 1 F32.half zero_rect.

Lemma loaded_template_is_searched_witness :
  run_trigger NO_SIMD (snd (vision_load_template (fun _ => true) fresh (Some spot)))
              (header 2 2 (paint 2 2 (fun _ _ => white))) 5
              (mkTrigger 1 no_name (TRIGGER_TEMPLATE_MATCH 0) zero_rect true)
              zero_result ticking
  = vision_find_template NO_SIMD ticking (paint 2 2 (fun _ _ => white)) 2 2 spot.
Proof.
  apply (loaded_template_is_searched NO_SIMD (fun _ => true) fresh spot 0).
  - reflexivity.
  - discriminate.
  - unfold sized. simpl. lia.
  - reflexivity.
Defined.

(** A call of one of the two loaders. *)
Inductive Call :=
| LOAD (malloc : Z -> bool) (tmpl : option TemplateData)
| ADD (trigger : option VisualTrigger).

Definition call (st : State) (c : Call) : State :=
  match c with
  | LOAD malloc tmpl => snd (vision_load_template malloc st tmpl)
  | ADD trigger => snd (vision_add_trigger st trigger)
  end.

Definition within_capacity (st : State) : Prop :=
  Z.of_nat (List.length (g_templates st)) <= RASHPLAYER_MAX_TEMPLATES /\
  Z.of_nat (List.length (g_triggers st)) <= RASHPLAYER_MAX_TRIGGERS.

(** [l'] keeps every entry of [l] at its index. *)
Definition keeps {A} (l l' : list A) : Prop :=
  forall i x, nth_error l i = Some x -> nth_error l' i = Some x.

Lemma keeps_refl {A} (l : list A) : keeps l l.
Proof. intros i x H. exact H. Qed.

Lemma keeps_app {A} (l extra : list A) : keeps l (l ++ extra).
Proof.
  intros i x H. rewrite nth_error_app1; [exact H|].
  apply nth_error_Some. congruence.
Qed.

Lemma keeps_trans {A} (l1 l2 l3 : list A) : keeps l1 l2 -> keeps l2 l3 -> keeps l1 l3.
Proof. intros H1 H2 i x H. auto. Qed.

Lemma call_keeps st c :
  within_capacity st ->
  within_capacity (call st c) /\
  keeps (g_templates st) (g_templates (call st c)) /\
  keeps (g_triggers st) (g_triggers (call st c)).
Proof.
  unfold within_capacity, RASHPLAYER_MAX_TEMPLATES, RASHPLAYER_MAX_TRIGGERS.
  intros [Ht Hg]. destruct c as [malloc [t|]|[t|]]; cbn [call];
    unfold vision_load_template, vision_add_trigger,
           RASHPLAYER_MAX_TEMPLATES, RASHPLAYER_MAX_TRIGGERS;
    try (cbn [snd]; repeat split; auto using keeps_refl; fail).
  - destruct (Z.of_nat (List.length (g_templates st)) >=? 32) eqn:E;
      [cbn [snd]; repeat split; auto using keeps_refl|].
    destruct (malloc _); cbn [snd g_templates g_triggers];
      [|repeat split; auto using keeps_refl].
    rewrite length_app. cbn [List.length].
    repeat split; auto using keeps_refl, keeps_app; lia.
  - destruct (Z.of_nat (List.length (g_triggers st)) >=? 64) eqn:E;
      cbn [snd g_templates g_triggers]; [repeat split; auto using keeps_refl|].
    rewrite length_app. cbn [List.length].
    repeat split; auto using keeps_refl, keeps_app; lia.
Qed.

(** X2: whatever sequence of [vision_load_template] and [vision_add_trigger]
    calls follows (null arguments, failed allocations and full tables
    included), the tables never hold more than 32 templates and 64 triggers,
    and every template and trigger stays at the index it was given. *)
Theorem tables_keep_entries st calls :
  within_capacity st ->
  within_capacity (fold_left call calls st) /\
  keeps (g_templates st) (g_templates (fold_left call calls st)) /\
  keeps (g_triggers st) (g_triggers (fold_left call calls st)).
Proof.
  revert st; induction calls as [|c calls IH]; intros st H; cbn [fold_left].
  - auto using keeps_refl.
  - destruct (call_keeps st c H) as (H1 & H2 & H3).
    destruct (IH (call st c) H1) as (H4 & H5 & H6).
    eauto using keeps_trans.
Qed.

Lemma tables_keep_entries_witness :
  nth_error
    (g_templates
       (fold_left call
          [ADD None; LOAD (fun _ => false) (Some spot); LOAD (fun _ => true) (Some spot)]
          (call fresh (LOAD (fun _ => true) (Some spot))))) 0
  = Some (stored spot).
Proof.
  apply (tables_keep_entries (call fresh (LOAD (fun _ => true) (Some spot)))
           [ADD None; LOAD (fun _ => false) (Some spot); LOAD (fun _ => true) (Some spot)]).
  - unfold within_capacity. vm_compute. split; discriminate.
  - reflexivity.
Defined.

End Tables.

(* ========================================================================= *)
(** * The trigger loop: which slots a frame fills *)

Module Frames.

Import VisionEngine Fixtures.

(** The [trigger_id] a trigger leaves in its slot: its own, or the
    template's when the template case copies a search result over the slot. *)
Definition slot_id (st : State) (t : VisualTrigger) : Z :=
  match trig_params t with
  | TRIGGER_TEMPLATE_MATCH template_id =>
      if CInt.i32 template_id <? Z.of_nat (List.length (g_templates st)) then
        match (if CInt.i32 template_id <? 0 then None
               else nth_error (g_templates st) (Z.to_nat (CInt.i32 template_id))) with
        | Some tmpl => tmpl_id tmpl
        | None => trig_id t
        end
      else trig_id t
  | _ => trig_id t
  end.

Definition active (st : State) : list VisualTrigger := filter trig_active (g_triggers st).

Definition no_trigger : VisualTrigger := mkTrigger 0 no_name TRIGGER_OCR_REGION zero_rect false.

Lemma run_trigger_id build st shm start trigger slot clock :
  res_trigger_id (fst (run_trigger build st shm start trigger slot clock))
  = slot_id st trigger.
Proof.
  unfold run_trigger, slot_id. destruct (trig_params trigger) as [idx|c|c hz|].
  - destruct (CInt.i32 idx <? Z.of_nat (List.length (g_templates st))); [|reflexivity].
    destruct (if CInt.i32 idx <? 0 then None else nth_error _ _) as [tmpl|]; [|reflexivity].
    unfold vision_find_template. destruct (get_time_ns clock) as [now clock'].
    destruct (best_match _ _ _ _) as [[s x] y]. reflexivity.
  - destruct (vision_find_color_region _ _ _ _ _ _ _ _) as [count center]. reflexivity.
  - destruct (vision_detect_edge _ _ _ _ _) as [ret pos]. reflexivity.
  - reflexivity.
Qed.

Lemma trigger_loop_active build st shm start triggers slots n clock :
  (n <= 16)%nat -> (16 <= List.length slots)%nat ->
  let '(slots', n', _) := trigger_loop build st shm start triggers slots n clock in
  n' = Nat.min (n + List.length (filter trig_active triggers)) 16 /\
  List.length slots' = List.length slots /\
  (forall i, (i < n \/ n' <= i)%nat -> nth i slots' zero_result = nth i slots zero_result) /\
  (forall i, (n <= i < n')%nat ->
     res_trigger_id (nth i slots' zero_result)
     = slot_id st (nth (i - n) (filter trig_active triggers) no_trigger)).
Proof.
  revert slots n clock; induction triggers as [|t rest IH]; intros slots n clock Hn Hlen;
    cbn [trigger_loop filter].
  - cbn [List.length]. repeat split; intros; try lia; try reflexivity.
  - destruct (Z.of_nat n <? 16) eqn:E.
    + destruct (trig_active t) eqn:Ea.
      * pose proof (run_trigger_id build st shm start t (nth n slots zero_result) clock)
          as Hid.
        destruct (run_trigger build st shm start t (nth n slots zero_result) clock)
          as [r clock'].
        cbn [fst] in Hid.
        specialize (IH (store slots n r) (S n) clock').
        destruct (trigger_loop build st shm start rest (store slots n r) (S n) clock')
          as [[slots' n'] clock''].
        destruct IH as (Hcount & Hl & Hold & Hnew);
          [lia | rewrite Orchestrator.store_length; lia |].
        rewrite Orchestrator.store_length in Hl. cbn [List.length].
        split; [lia|]. split; [exact Hl|]. split.
        -- intros i Hi. rewrite Hold by lia. apply Orchestrator.nth_store_other. lia.
        -- intros i Hi. destruct (Nat.eq_dec i n) as [->|Hne].
           ++ rewrite Hold by lia. rewrite Orchestrator.nth_store_same by lia.
              rewrite Nat.sub_diag. exact Hid.
           ++ rewrite Hnew by lia.
              replace (i - n)%nat with (S (i - S n)) by lia. reflexivity.
      * apply IH; assumption.
    + assert (n = 16)%nat by lia. subst n.
      repeat split; intros; try lia; try reflexivity.
Qed.

(** X3: a call of [vision_process_frame] on a ready frame returns 0 and sets
    [num_results] to the number of active triggers, or to 16 when there are
    more; slot [i] below that carries the id of the [i]-th active trigger in
    registration order (the template's id where a template search was
    copied over it), the slots from [num_results] on keep what they held,
    and the flags, the state, the pending action and the frame are left as
    they were. *)
Theorem process_frame_fills_active build st clock h :
  frame_ready h <> 0 -> List.length (results h) = 16%nat ->
  let '(status, shm, _) := vision_process_frame build st clock (Some h) in
  status = 0 /\
  exists h', shm = Some h' /\
    num_results h' = Z.min (Z.of_nat (List.length (active st))) 16 /\
    (forall i, (Z.of_nat i < num_results h') ->
       res_trigger_id (nth i (results h') zero_result)
       = slot_id st (nth i (active st) no_trigger)) /\
    (forall i, (num_results h' <= Z.of_nat i) ->
       nth i (results h') zero_result = nth i (results h) zero_result) /\
    frame_ready h' = frame_ready h /\ result_ready h' = result_ready h /\
    current_state h' = current_state h /\ pending_action h' = pending_action h /\
    frame_data h' = frame_data h.
Proof.
  intros Hready Hlen. unfold vision_process_frame.
  replace (frame_ready h =? 0) with false by lia.
  destruct (get_time_ns clock) as [start clock1].
  pose proof (trigger_loop_active build st h start (g_triggers st) (results h) 0 clock1
                (Nat.le_0_l 16)) as Hloop.
  destruct (trigger_loop build st h start (g_triggers st) (results h) 0 clock1)
    as [[slots n] clock2].
  destruct (get_time_ns clock2) as [stop clock3].
  destruct Hloop as (Hn & Hl & Hold & Hnew); [lia|].
  split; [reflexivity|]. eexists. split; [reflexivity|].
  cbn [set_vision_output num_results results frame_ready result_ready current_state
       pending_action frame_data].
  cbn [Nat.add] in Hn. fold (active st) in Hn, Hnew.
  repeat split; try reflexivity.
  - lia.
  - intros i Hi. rewrite Hnew by lia. now rewrite Nat.sub_0_r.
  - intros i Hi. apply Hold. lia.
Qed.

Definition two_active : State :=
  mkState []
          [mkTrigger 4 no_name TRIGGER_OCR_REGION zero_rect true;
           mkTrigger 5 no_name TRIGGER_OCR_REGION zero_rect false;
           mkTrigger 6 no_name (TRIGGER_TEMPLATE_MATCH 3) zero_rect true]
          true zero_point.

Lemma process_frame_fills_active_witness :
  let '(status, shm, _) :=
    vision_process_frame NO_SIMD two_active ticking
                         (Some (header 2 2 (paint 2 2 (fun _ _ => white)))) in
  status = 0 /\
  exists h', shm = Some h' /\
    num_results h' = Z.min (Z.of_nat (List.length (active two_active))) 16 /\
    (forall i, (Z.of_nat i < num_results h') ->
       res_trigger_id (nth i (results h') zero_result)
       = slot_id two_active (nth i (active two_active) no_trigger)) /\
    (forall i, (num_results h' <= Z.of_nat i) ->
       nth i (results h') zero_result
       = nth i (results (header 2 2 (paint 2 2 (fun _ _ => white)))) zero_result) /\
    frame_ready h' = frame_ready (header 2 2 (paint 2 2 (fun _ _ => white))) /\
    result_ready h' = result_ready (header 2 2 (paint 2 2 (fun _ _ => white))) /\
    current_state h' = current_state (header 2 2 (paint 2 2 (fun _ _ => white))) /\
    pending_action h' = pending_action (header 2 2 (paint 2 2 (fun _ _ => white))) /\
    frame_data h' = frame_data (header 2 2 (paint 2 2 (fun _ _ => white))).
Proof.
  apply (process_frame_fills_active NO_SIMD two_active ticking
           (header 2 2 (paint 2 2 (fun _ _ => white)))).
  - vm_compute. discriminate.
  - reflexivity.
Defined.

End Frames.

(* ========================================================================= *)
(** * Edge detection: the strongest row or column *)

Module Edges.

Import VisionEngine Fixtures.

(** [gradient_sum] of the row or column [pos]: the inner loop of
    [vision_detect_edge] over the clipped region. *)
Definition gradient_sum (frame : list Z) (width height : Z) (region : Rect2D)
    (horizontal : bool) (pos : Z) : Z :=
  let '(rx, ry, rw, rh) := clip_region region width height in
  if horizontal then
    fold_left (fun sum x =>
                 sum + grad frame ((pos + 1) * width * 4 + x * 4)
                                  ((pos - 1) * width * 4 + x * 4))
              (steps rx (rx + rw) 1) 0
  else
    fold_left (fun sum y =>
                 sum + grad frame (y * width * 4 + (pos + 1) * 4)
                                  (y * width * 4 + (pos - 1) * 4))
              (steps ry (ry + rh) 1) 0.

(** The rows (columns) the outer loop visits: the clipped region without
    its first and last one. *)
Definition scanned (width height : Z) (region : Rect2D) (horizontal : bool) : Z * Z :=
  let '(rx, ry, rw, rh) := clip_region region width height in
  if horizontal then (ry + 1, ry + rh - 1) else (rx + 1, rx + rw - 1).

Lemma steps_cons lo hi : lo < hi -> steps lo hi 1 = lo :: steps (lo + 1) hi 1.
Proof.
  intros H. unfold steps. rewrite !Z.div_1_r.
  replace (Z.to_nat (hi - lo + 1 - 1)) with (S (Z.to_nat (hi - (lo + 1) + 1 - 1))) by lia.
  cbn [seq map]. f_equal; [lia|].
  rewrite <- seq_shift, map_map. apply map_ext. intros k. lia.
Qed.

(** The loop indices come in increasing order. *)
Lemma steps_split lo hi before p after :
  steps lo hi 1 = before ++ p :: after ->
  (forall y, In y before -> lo <= y < p) /\ (forall y, In y after -> p < y < hi).
Proof.
  revert lo; induction before as [|a before IH]; intros lo H.
  - destruct (Z_lt_le_dec lo hi) as [Hlt|Hge];
      [|rewrite Loops.steps_empty in H by lia; discriminate].
    rewrite steps_cons in H by lia. cbn [app] in H. injection H as <- <-.
    split; [intros y []|]. intros y Hy. apply Loops.in_steps in Hy. lia.
  - destruct (Z_lt_le_dec lo hi) as [Hlt|Hge];
      [|rewrite Loops.steps_empty in H by lia; discriminate].
    rewrite steps_cons in H by lia. cbn [app] in H. injection H as <- H.
    destruct (IH (lo + 1) H) as [Hb Ha].
    assert (Hp : In p (steps (lo + 1) hi 1)) by (rewrite H; apply in_elt).
    apply Loops.in_steps in Hp.
    split; [|exact Ha]. intros y [<-|Hy]; [lia|]. specialize (Hb y Hy). lia.
Qed.

Section Strongest.

Variable g : Z -> Z.

(** The scan keeps the first position of the largest sum above its start. *)
Lemma edge_scan positions max_gradient edge_pos :
  let '(m, p) := fold_left (edge_step g) positions (max_gradient, edge_pos) in
  (m = max_gradient /\ p = edge_pos /\ forall y, In y positions -> g y <= max_gradient) \/
  (m = g p /\ max_gradient < m /\
   exists before after, positions = before ++ p :: after /\
     (forall y, In y before -> g y < g p) /\ (forall y, In y after -> g y <= g p)).
Proof.
  revert max_gradient edge_pos;
    induction positions as [|x rest IH]; intros max_gradient edge_pos; cbn [fold_left].
  - left. repeat split. intros y [].
  - unfold edge_step at 2. destruct (g x >? max_gradient) eqn:E.
    + specialize (IH (g x) x).
      destruct (fold_left (edge_step g) rest (g x, x)) as [m p].
      destruct IH as [(-> & -> & Hall)|(Hm & Hlt & before & after & -> & Hb & Ha)].
      * right. split; [reflexivity|]. split; [lia|].
        exists [], rest. split; [reflexivity|]. split; [intros y []|exact Hall].
      * right. split; [exact Hm|]. split; [lia|].
        exists (x :: before), after. split; [reflexivity|]. split; [|exact Ha].
        intros y [<-|Hy]; [lia | auto].
    + specialize (IH max_gradient edge_pos).
      destruct (fold_left (edge_step g) rest (max_gradient, edge_pos)) as [m p].
      destruct IH as [(-> & -> & Hall)|(Hm & Hlt & before & after & -> & Hb & Ha)].
      * left. repeat split. intros y [<-|Hy]; [lia | auto].
      * right. split; [exact Hm|]. split; [exact Hlt|].
        exists (x :: before), after. split; [reflexivity|]. split; [|exact Ha].
        intros y [<-|Hy]; [lia | auto].
Qed.

Lemma edge_scan_steps lo hi :
  let '(m, p) := fold_left (edge_step g) (steps lo hi 1) (0, -1) in
  (m = 0 /\ p = -1 /\ forall y, lo <= y < hi -> g y <= 0) \/
  (m = g p /\ 0 < m /\ lo <= p < hi /\
   (forall y, lo <= y < hi -> g y <= g p) /\ (forall y, lo <= y < p -> g y < g p)).
Proof.
  pose proof (edge_scan (steps lo hi 1) 0 (-1)) as H.
  destruct (fold_left (edge_step g) (steps lo hi 1) (0, -1)) as [m p].
  destruct H as [(-> & -> & Hall)|(Hm & Hlt & before & after & Hsplit & Hb & Ha)].
  - left. repeat split. intros y Hy. apply Hall. now apply Loops.in_steps.
  - right. destruct (steps_split lo hi before p after Hsplit) as [Hbo Hao].
    assert (Hp : lo <= p < hi) by (apply Loops.in_steps; rewrite Hsplit; apply in_elt).
    assert (Hcase : forall y, lo <= y < hi -> In y before \/ y = p \/ In y after).
    { intros y Hy. apply Loops.in_steps in Hy. rewrite Hsplit in Hy.
      apply in_app_or in Hy as [Hy|[Hy|Hy]]; auto. }
    repeat split; try lia.
    + intros y Hy. destruct (Hcase y Hy) as [Hy'|[->|Hy']]; [|lia|auto].
      specialize (Hb y Hy'). lia.
    + intros y Hy. destruct (Hcase y) as [Hy'|[->|Hy']]; [lia|auto|lia|].
      specialize (Hao y Hy'). lia.
Qed.

End Strongest.

(** X4: [vision_detect_edge] scans the rows (columns, for a vertical edge)
    of the clipped region without the first and the last. When none of them
    has a positive gradient sum it reports position -1 and returns -1.
    Otherwise the position it reports is the first scanned row (column) of
    largest gradient sum, it lies strictly between the frame's first and
    last row (column), and the return value is 0 exactly when that sum
    exceeds 1000. *)
Theorem detect_edge_strongest frame width height region horizontal :
  let g := gradient_sum frame width height region horizontal in
  let '(lo, hi) := scanned width height region horizontal in
  let '(ret, pos) := vision_detect_edge frame width height region horizontal in
  (pos = -1 /\ ret = -1 /\ forall y, lo <= y < hi -> g y <= 0) \/
  (lo <= pos < hi /\
   0 < pos < (if horizontal then height else width) - 1 /\
   (forall y, lo <= y < hi -> g y <= g pos) /\
   (forall y, lo <= y < pos -> g y < g pos) /\
   0 < g pos /\ (ret = 0 <-> 1000 < g pos) /\ (ret = -1 <-> g pos <= 1000)).
Proof.
  unfold gradient_sum, scanned, vision_detect_edge.
  pose proof (ColorScan.clip_region_in_frame region width height) as Hclip.
  destruct (clip_region region width height) as [[[rx ry] rw] rh].
  destruct Hclip as (Hx & Hy & Hw & Hh).
  destruct horizontal.
  - pose proof (edge_scan_steps
                  (fun y => fold_left
                     (fun sum x => sum + grad frame ((y + 1) * width * 4 + x * 4)
                                                    ((y - 1) * width * 4 + x * 4))
                     (steps rx (rx + rw) 1) 0)
                  (ry + 1) (ry + rh - 1)) as H.
    cbv beta in H.
    destruct (fold_left _ (steps (ry + 1) (ry + rh - 1) 1) (0, -1)) as [m p].
    destruct H as [(-> & -> & Hall)|(Hm & Hlt & Hp & Hmax & Hfirst)].
    + left. repeat split. exact Hall.
    + right. rewrite Hm in *.
      destruct (_ >? 1000) eqn:E; repeat split; intros; try lia; auto.
  - pose proof (edge_scan_steps
                  (fun x => fold_left
                     (fun sum y => sum + grad frame (y * width * 4 + (x + 1) * 4)
                                                    (y * width * 4 + (x - 1) * 4))
                     (steps ry (ry + rh) 1) 0)
                  (rx + 1) (rx + rw - 1)) as H.
    cbv beta in H.
    destruct (fold_left _ (steps (rx + 1) (rx + rw - 1) 1) (0, -1)) as [m p].
    destruct H as [(-> & -> & Hall)|(Hm & Hlt & Hp & Hmax & Hfirst)].
    + left. repeat split. exact Hall.
    + right. rewrite Hm in *.
      destruct (_ >? 1000) eqn:E; repeat split; intros; try lia; auto.
Qed.

End Edges.

(* ========================================================================= *)
(** * The colour scan across builds *)

Module Colours.

Import VisionEngine Fixtures.

(** The four pixels of every block are the columns up to the last whole
    block. *)
Lemma blocks_flatten rx n s :
  flat_map (fun x => [x; x + 1; x + 2; x + 3])
           (map (fun k => rx + 4 * Z.of_nat k) (seq s n))
  = map (fun k => rx + 1 * Z.of_nat k) (seq (4 * s) (4 * n)).
Proof.
  revert s; induction n as [|n IH]; intros s; [reflexivity|].
  replace (4 * S n)%nat with (S (S (S (S (4 * n))))) by lia.
  cbn [seq map flat_map app]. rewrite IH.
  replace (4 * S s)%nat with (S (S (S (S (4 * s))))) by lia.
  repeat (f_equal; try lia).
Qed.

Lemma block_columns rx rw :
  flat_map (fun x => [x; x + 1; x + 2; x + 3]) (steps rx (rx + rw - 3) 4)
  = steps rx (rx + 4 * (rw / 4)) 1.
Proof.
  unfold steps. rewrite blocks_flatten. rewrite Z.div_1_r. f_equal. f_equal.
  replace (rx + rw - 3 - rx + 4 - 1) with rw by lia.
  replace (rx + 4 * (rw / 4) - rx + 1 - 1) with (4 * (rw / 4)) by lia.
  destruct (Z_lt_le_dec (rw / 4) 0); lia.
Qed.

Section Scan.

Variables (frame : list Z) (width : Z) (target : ColorHSV) (tolerance cap : Z).

(** Once the cap is reached the block scan changes nothing more. *)
Lemma scan_sse_full ps a :
  cap <= match_count a -> scan_sse frame width target tolerance cap ps a = a.
Proof.
  revert a; induction ps as [|[x y] ps IH]; intros a H; cbn [scan_sse]; [reflexivity|].
  replace (match_count a <? cap) with false by lia. now apply IH.
Qed.

Lemma scan_sse_scalar ps a :
  match_count a < cap ->
  scan_sse frame width target tolerance cap ps a
  = scan_scalar frame width target tolerance cap ps a.
Proof.
  revert a; induction ps as [|[x y] ps IH]; intros a H; cbn [scan_sse scan_scalar];
    [reflexivity|].
  replace (match_count a <? cap) with true by lia.
  destruct (hsv_close target (pixel_hsv frame width x y) tolerance); [|now apply IH].
  cbv zeta. destruct (match_count (acc_add a x y) >=? cap) eqn:E.
  - apply scan_sse_full. lia.
  - apply IH. lia.
Qed.

(** The centre of a scan is a position between the scanned ones. *)
Lemma scan_center ps lx hx ly hy count c :
  (forall p, In p ps -> lx <= fst p < hx /\ ly <= snd p < hy) ->
  0 <= lx -> 0 <= ly -> hx <= 1920 -> hy <= 1080 -> 0 < cap ->
  color_result (scan_scalar frame width target tolerance cap ps (mkAcc 0 0 0)) true
  = (count, Some c) ->
  lx <= pt_x c < hx /\ ly <= pt_y c < hy.
Proof.
  intros Hps Hlx Hly Hhx Hhy Hcap.
  rewrite ColorScan.scan_scalar_hits by (simpl; lia).
  cbn [match_count sum_x sum_y]. rewrite Z.sub_0_r.
  set (found := ColorScan.hits frame width target tolerance cap ps).
  unfold color_result. cbn [match_count sum_x sum_y]. rewrite andb_true_r.
  destruct (0 + Z.of_nat (List.length found) >? 0) eqn:E; [|discriminate].
  intros [= _ <-]. cbn [pt_x pt_y]. rewrite ?Z.add_0_l.
  assert (Hin : forall p, In p found -> lx <= fst p < hx /\ ly <= snd p < hy).
  { intros p Hp. apply Hps. subst found. unfold ColorScan.hits in Hp.
    assert (Hf : In p (filter (ColorScan.hit frame width target tolerance) ps)).
    { rewrite <- (firstn_skipn (Z.to_nat cap)). apply in_or_app. now left. }
    now apply filter_In in Hf as [Hf _]. }
  assert (Hne : found <> []) by (destruct found; [discriminate | congruence]).
  assert (Hx : lx <= Z.quot (ColorScan.total (map fst found)) (Z.of_nat (List.length found))
               < hx).
  { rewrite <- (length_map fst found). apply ColorScan.mean_range; [| |lia].
    - destruct found; [congruence | discriminate].
    - apply Forall_forall. intros x Hx. apply in_map_iff in Hx as (p & <- & Hp).
      apply (Hin p Hp). }
  assert (Hy : ly <= Z.quot (ColorScan.total (map snd found)) (Z.of_nat (List.length found))
               < hy).
  { rewrite <- (length_map snd found). apply ColorScan.mean_range; [| |lia].
    - destruct found; [congruence | discriminate].
    - apply Forall_forall. intros y Hy. apply in_map_iff in Hy as (p & <- & Hp).
      apply (Hin p Hp). }
  unfold CInt.div, CInt.i32. rewrite !Z.mod_small by lia. lia.
Qed.

End Scan.

(** The region [vision_find_color_region] hands on: the caller's, or the
    whole frame for a null pointer. *)
Definition resolved (region : option Rect2D) (width height : Z) : Rect2D :=
  match region with Some r => r | None => mkRect 0 0 width height end.

(** X5: on x86-64 [vision_find_color_region] returns what the scalar scan
    returns on the clipped region with its width rounded down to a multiple
    of 4: the last [rw mod 4] columns are never looked at. *)
Theorem sse_scans_whole_blocks frame width height region color tolerance out_center :
  vision_find_color_region USE_SSE frame width height region color tolerance out_center
  = let '(rx, ry, rw, rh) := clip_region (resolved region width height) width height in
    color_result
      (scan_scalar frame width color tolerance 10000
                   (grid (steps ry (ry + rh) 1) (steps rx (rx + 4 * (rw / 4)) 1))
                   (mkAcc 0 0 0))
      out_center.
Proof.
  unfold vision_find_color_region, find_color_sse, resolved.
  destruct (clip_region _ width height) as [[[rx ry] rw] rh].
  rewrite block_columns. rewrite scan_sse_scalar by (simpl; lia). reflexivity.
Qed.

(** X6: when the clipped region's width is a multiple of 4, the three
    builds return the same count and write the same centre. *)
Theorem builds_agree_on_whole_blocks b1 b2 frame width height region color tolerance
    out_center :
  snd (fst (clip_region (resolved region width height) width height)) mod 4 = 0 ->
  vision_find_color_region b1 frame width height region color tolerance out_center
  = vision_find_color_region b2 frame width height region color tolerance out_center.
Proof.
  intros H.
  assert (Hsse : vision_find_color_region USE_SSE frame width height region color tolerance
                                          out_center
                 = vision_find_color_region NO_SIMD frame width height region color
                                            tolerance out_center).
  { unfold vision_find_color_region, find_color_sse, find_color_scalar.
    fold (resolved region width height).
    destruct (clip_region _ width height) as [[[rx ry] rw] rh]. cbn [fst snd] in H.
    rewrite block_columns. rewrite scan_sse_scalar by (simpl; lia).
    replace (4 * (rw / 4)) with rw; [reflexivity|].
    pose proof (Z.div_mod rw 4). lia. }
  destruct b1, b2; try reflexivity; try exact Hsse; now symmetry.
Qed.

Lemma builds_agree_on_whole_blocks_witness :
  vision_find_color_region USE_SSE ColorScan.half_yellow 8 1 None ColorScan.yellow_hsv 15 true
  = vision_find_color_region NO_SIMD ColorScan.half_yellow 8 1 None ColorScan.yellow_hsv 15
                             true.
Proof.
  apply (builds_agree_on_whole_blocks USE_SSE NO_SIMD). reflexivity.
Defined.

Lemma region_pixels_in_frame region width height rw' p :
  let '(rx, ry, rw, rh) := clip_region region width height in
  rw' <= rw ->
  In p (grid (steps ry (ry + rh) 1) (steps rx (rx + rw') 1)) ->
  0 <= fst p < width /\ 0 <= snd p < height.
Proof.
  pose proof (ColorScan.clip_region_in_frame region width height) as Hclip.
  destruct (clip_region region width height) as [[[rx ry] rw] rh].
  intros Hrw Hp. destruct p as [x y]. apply Loops.in_grid in Hp.
  rewrite !Loops.in_steps in Hp. cbn [fst snd]. lia.
Qed.

Lemma color_region_center build frame width height region color tolerance count c :
  width <= 1920 -> height <= 1080 ->
  vision_find_color_region build frame width height region color tolerance true
  = (count, Some c) ->
  0 <= pt_x c < width /\ 0 <= pt_y c < height.
Proof.
  intros Hw Hh.
  assert (Hscalar : find_color_scalar frame width height (resolved region width height)
                                      color tolerance true 10000 = (count, Some c) ->
                    0 <= pt_x c < width /\ 0 <= pt_y c < height).
  { unfold find_color_scalar.
    pose proof (fun p => region_pixels_in_frame (resolved region width height) width height
                           (snd (fst (clip_region (resolved region width height)
                                                  width height))) p) as Hin.
    destruct (clip_region _ width height) as [[[rx ry] rw] rh]. cbn [fst snd] in Hin.
    apply (scan_center frame width color tolerance 10000 _ 0 width 0 height); try lia.
    intros p Hp. apply Hin; [lia | exact Hp]. }
  destruct build; [|exact Hscalar|exact Hscalar].
  unfold vision_find_color_region, find_color_sse. fold (resolved region width height).
  pose proof (fun p => region_pixels_in_frame (resolved region width height) width height
                         (4 * (snd (fst (clip_region (resolved region width height)
                                                     width height)) / 4)) p) as Hin.
  destruct (clip_region _ width height) as [[[rx ry] rw] rh]. cbn [fst snd] in Hin.
  rewrite block_columns. rewrite scan_sse_scalar by (simpl; lia).
  apply (scan_center frame width color tolerance 10000 _ 0 width 0 height); try lia.
  intros p Hp. apply Hin; [|exact Hp]. pose proof (Z.div_mod rw 4).
  pose proof (Z.mod_pos_bound rw 4). lia.
Qed.

(** The pixels a build looks at: the clipped region, in the SSE build
    without the columns after its last whole block of four. *)
Definition scanned (build : Build) (region : Rect2D) (width height : Z) : list (Z * Z) :=
  let '(rx, ry, rw, rh) := clip_region region width height in
  grid (steps ry (ry + rh) 1)
       (steps rx (rx + match build with USE_SSE => 4 * (rw / 4) | _ => rw end) 1).

(** The truncated mean of the columns and of the rows of [found]. *)
Definition centre_of (found : list (Z * Z)) : Point2D :=
  mkPoint (CInt.i32 (Z.quot (ColorScan.total (map fst found)) (Z.of_nat (List.length found))))
          (CInt.i32 (Z.quot (ColorScan.total (map snd found)) (Z.of_nat (List.length found)))).

Lemma scan_result frame width target tolerance cap ps :
  0 < cap ->
  let found := ColorScan.hits frame width target tolerance cap ps in
  color_result (scan_scalar frame width target tolerance cap ps (mkAcc 0 0 0)) true
  = (Z.of_nat (List.length found),
     if Z.of_nat (List.length found) >? 0 then Some (centre_of found) else None).
Proof.
  intros Hcap. cbv zeta. rewrite ColorScan.scan_scalar_hits by (simpl; lia).
  unfold color_result, centre_of. simpl. rewrite Z.sub_0_r, andb_true_r. reflexivity.
Qed.

(** In every build the count is the number of matching pixels among the
    scanned ones, up to 10000, and the centre their mean. *)
Lemma color_region_mean build frame width height region color tolerance :
  let found := ColorScan.hits frame width color tolerance 10000
                              (scanned build region width height) in
  vision_find_color_region build frame width height (Some region) color tolerance true
  = (Z.of_nat (List.length found),
     if Z.of_nat (List.length found) >? 0 then Some (centre_of found) else None).
Proof.
  cbv zeta. unfold vision_find_color_region, find_color_neon, find_color_sse,
                   find_color_scalar, scanned.
  destruct (clip_region region width height) as [[[rx ry] rw] rh].
  destruct build.
  - rewrite block_columns. rewrite scan_sse_scalar by (simpl; lia).
    apply scan_result. lia.
  - apply scan_result. lia.
  - apply scan_result. lia.
Qed.

(** X7: in every build, a colour trigger whose slot says [found] has counted
    more than 100 matching pixels among the pixels the build scans (the
    first 10000 in row-major order at most); the location it reports is the
    truncated mean of their columns and of their rows, which lies inside
    the frame (of at most 1920 by 1080), and the confidence is 1.0. *)
Theorem colour_trigger_location_in_frame build st shm start trigger slot clock color :
  trig_params trigger = TRIGGER_COLOR_MATCH color ->
  frame_width shm <= 1920 -> frame_height shm <= 1080 ->
  res_found (fst (run_trigger build st shm start trigger slot clock)) = true ->
  let r := fst (run_trigger build st shm start trigger slot clock) in
  let found := ColorScan.hits (frame_data shm) (frame_width shm) color 15 10000
                              (scanned build (trig_region trigger)
                                       (frame_width shm) (frame_height shm)) in
  res_location r = centre_of found /\
  100 < Z.of_nat (List.length found) /\
  0 <= pt_x (res_location r) < frame_width shm /\
  0 <= pt_y (res_location r) < frame_height shm /\
  res_confidence r = F32.one /\
  fst (vision_find_color_region build (frame_data shm) (frame_width shm)
                                (frame_height shm) (Some (trig_region trigger))
                                color 15 true)
  = Z.of_nat (List.length found).
Proof.
  intros Hp Hw Hh. unfold run_trigger. rewrite Hp.
  pose proof (color_region_center build (frame_data shm) (frame_width shm) (frame_height shm)
                (Some (trig_region trigger)) color 15) as Hc.
  pose proof (color_region_mean build (frame_data shm) (frame_width shm) (frame_height shm)
                (trig_region trigger) color 15) as Hm.
  cbv zeta in Hm.
  set (found := ColorScan.hits (frame_data shm) (frame_width shm) color 15 10000
                               (scanned build (trig_region trigger)
                                        (frame_width shm) (frame_height shm))) in *.
  destruct (vision_find_color_region _ _ _ _ _ _ _ _) as [count center].
  cbn [fst snd res_found res_location res_confidence].
  intros Hfound. injection Hm as Hcount Hcenter.
  assert (Hbig : 100 < count) by lia.
  rewrite <- Hcount in Hcenter. replace (count >? 0) with true in Hcenter by lia.
  subst center. specialize (Hc count (centre_of found) Hw Hh eq_refl).
  replace (count >? 0) with true by lia. rewrite <- Hcount.
  repeat split; lia.
Qed.

Definition yellow_trigger : VisualTrigger :=
  mkTrigger 1 no_name (TRIGGER_COLOR_MATCH ColorScan.yellow_hsv) zero_rect true.

(** A frame of 18 by 8 yellow pixels: the SSE build leaves out the last two
    columns. *)
Definition yellow_frame : SharedMemoryHeader := header 18 8 (paint 18 8 (fun _ _ => yellow)).

Lemma colour_trigger_location_in_frame_witness :
  let r := fst (run_trigger USE_SSE Tables.fresh yellow_frame 0 yellow_trigger zero_result
                            ticking) in
  let found := ColorScan.hits (frame_data yellow_frame) 18 ColorScan.yellow_hsv 15 10000
                              (scanned USE_SSE zero_rect 18 8) in
  res_location r = centre_of found /\
  100 < Z.of_nat (List.length found) /\
  0 <= pt_x (res_location r) < 18 /\ 0 <= pt_y (res_location r) < 8 /\
  res_confidence r = F32.one /\
  fst (vision_find_color_region USE_SSE (frame_data yellow_frame) 18 8
                                (Some zero_rect) ColorScan.yellow_hsv 15 true)
  = Z.of_nat (List.length found).
Proof.
  apply (colour_trigger_location_in_frame USE_SSE Tables.fresh yellow_frame 0 yellow_trigger
           zero_result ticking ColorScan.yellow_hsv).
  - reflexivity.
  - vm_compute. discriminate.
  - vm_compute. discriminate.
  - vm_compute. reflexivity.
Defined.

(** X28: without SSE, [vision_find_color_region] counts the pixels of the
    clipped region that pass the tolerance test, in row-major order and up
    to 10000 of them, and the centre it writes is the truncated mean of the
    columns and of the rows of those pixels; nothing is written when there
    is none. *)
Theorem scalar_scan_counts_matches build frame width height region color tolerance :
  build <> USE_SSE ->
  let '(rx, ry, rw, rh) := clip_region (resolved region width height) width height in
  let pixels := grid (steps ry (ry + rh) 1) (steps rx (rx + rw) 1) in
  let matching := filter (ColorScan.hit frame width color tolerance) pixels in
  let found := firstn (Z.to_nat 10000) matching in
  let count := Z.min 10000 (Z.of_nat (List.length matching)) in
  vision_find_color_region build frame width height region color tolerance true
  = (count,
     if count >? 0
     then Some (mkPoint (CInt.i32 (Z.quot (ColorScan.total (map fst found)) count))
                        (CInt.i32 (Z.quot (ColorScan.total (map snd found)) count)))
     else None).
Proof.
  intros Hb.
  assert (H : vision_find_color_region build frame width height region color tolerance true
              = find_color_scalar frame width height (resolved region width height)
                                  color tolerance true 10000)
    by (destruct build; [contradiction | reflexivity | reflexivity]).
  rewrite H. clear H.
  pose proof (ColorScan.find_color_scalar_counts frame width height
                (resolved region width height) color tolerance 10000 ltac:(lia)) as H.
  destruct (clip_region _ width height) as [[[rx ry] rw] rh]. cbv zeta in *.
  rewrite H. unfold ColorScan.hits.
  rewrite length_firstn, Nat2Z.inj_min, Z2Nat.id by lia.
  reflexivity.
Qed.

Lemma scalar_scan_counts_matches_witness :
  fst (vision_find_color_region NO_SIMD ColorScan.half_yellow 8 1 None ColorScan.yellow_hsv
                                15 true) = 4.
Proof.
  pose proof (scalar_scan_counts_matches NO_SIMD ColorScan.half_yellow 8 1 None
                ColorScan.yellow_hsv 15 ltac:(discriminate)) as H.
  cbv zeta in H. rewrite H. reflexivity.
Defined.

(** X29: the tolerance test of the three scans measures hue on a circle of
    180 steps, so it is symmetric in the two colours, and for hues up to 180
    it cannot tell a pixel of hue 180 (which [rgb_to_hsv] can produce) from
    one of hue 0. *)
Theorem hue_distance_is_circular target c tolerance :
  0 <= hsv_h target <= 180 ->
  let dh := Z.abs (hsv_h c - hsv_h target) in
  hsv_close target c tolerance
  = (Z.min dh (180 - dh) <=? tolerance)
    && (Z.abs (hsv_s c - hsv_s target) <=? tolerance)
    && (Z.abs (hsv_v c - hsv_v target) <=? tolerance) /\
  hsv_close target c tolerance = hsv_close c target tolerance /\
  hsv_close target (mkHSV 180 (hsv_s c) (hsv_v c)) tolerance
  = hsv_close target (mkHSV 0 (hsv_s c) (hsv_v c)) tolerance.
Proof.
  intros Ht dh. subst dh. unfold hsv_close, CInt.abs. cbn [hsv_h hsv_s hsv_v].
  repeat split.
  - destruct (Z.abs (hsv_h c - hsv_h target) >? 90) eqn:E;
      f_equal; f_equal; f_equal; lia.
  - replace (Z.abs (hsv_h target - hsv_h c)) with (Z.abs (hsv_h c - hsv_h target)) by lia.
    replace (Z.abs (hsv_s target - hsv_s c)) with (Z.abs (hsv_s c - hsv_s target)) by lia.
    replace (Z.abs (hsv_v target - hsv_v c)) with (Z.abs (hsv_v c - hsv_v target)) by lia.
    reflexivity.
  - destruct (Z.abs (180 - hsv_h target) >? 90) eqn:E1;
      destruct (Z.abs (0 - hsv_h target) >? 90) eqn:E2;
      f_equal; f_equal; f_equal; lia.
Qed.

Lemma hue_distance_is_circular_witness :
  hsv_close (mkHSV 5 200 200) (mkHSV 180 200 200) 15
  = hsv_close (mkHSV 5 200 200) (mkHSV 0 200 200) 15.
Proof.
  apply (hue_distance_is_circular (mkHSV 5 200 200) (mkHSV 180 200 200) 15).
  vm_compute. split; discriminate.
Defined.

End Colours.

(* ========================================================================= *)
(** * Template search: where the reported box lies *)

Module Boxes.

Import VisionEngine Fixtures.

(** The template lies within the frame at [(x, y)]. *)
Definition lies_within (tmpl : TemplateData) (width height x y : Z) : Prop :=
  0 < tmpl_width tmpl /\ 0 < tmpl_height tmpl /\
  0 <= x /\ x + tmpl_width tmpl <= width /\
  0 <= y /\ y + tmpl_height tmpl <= height.

(** Both matchers give a score above 0 only where the template lies_within. *)
Lemma template_match_fits build frame width height tmpl x y :
  F32.ltb F32.zero (template_match build frame width height x y tmpl) = true ->
  lies_within tmpl width height x y.
Proof.
  assert (Hout : outside_frame width height x y tmpl = false ->
                 0 < tmpl_width tmpl -> 0 < tmpl_height tmpl ->
                 lies_within tmpl width height x y).
  { unfold outside_frame, lies_within. intros H.
    repeat (apply orb_false_elim in H as [H ?]). lia. }
  destruct (Z_lt_le_dec 0 (tmpl_width tmpl)) as [Hw|Hw];
    [destruct (Z_lt_le_dec 0 (tmpl_height tmpl)) as [Hh|Hh]|].
  - unfold template_match.
    destruct build; unfold template_match_sse, template_match_scalar;
      (destruct (outside_frame width height x y tmpl) eqn:O; [discriminate | auto]).
  - intros H. exfalso. revert H. unfold template_match.
    destruct build; unfold template_match_sse, template_match_scalar;
      rewrite (TemplateSearch.template_pixels_empty tmpl (or_intror Hh));
      destruct (outside_frame width height x y tmpl); vm_compute; discriminate.
  - intros H. exfalso. revert H. unfold template_match.
    destruct build; unfold template_match_sse, template_match_scalar;
      rewrite (TemplateSearch.template_pixels_empty tmpl (or_introl Hw));
      destruct (outside_frame width height x y tmpl); vm_compute; discriminate.
Qed.

Section Scan.

Variable score_at : Z -> Z -> spec_float.
Variable scored : Z -> Z -> Prop.

Hypothesis positive_scored :
  forall x y, F32.ltb F32.zero (score_at x y) = true -> scored x y.

(** The best so far is a position that was scored above 0, with its score. *)
Definition placed (best : Best) : Prop :=
  let '(s, x, y) := best in
  F32.ltb F32.zero s = true /\ s = score_at x y /\ scored x y.

Lemma scan_placed positions best :
  best = TemplateSearch.unset \/ placed best ->
  fold_left (try_position score_at) positions best = TemplateSearch.unset \/
  placed (fold_left (try_position score_at) positions best).
Proof.
  revert best; induction positions as [|[a b] rest IH]; intros best H; cbn [fold_left];
    [exact H|].
  apply IH. destruct H as [->|H].
  - unfold try_position, TemplateSearch.unset.
    destruct (F32.ltb F32.zero (score_at a b)) eqn:E; [right | left; reflexivity].
    repeat split; auto.
  - destruct best as [[s x] y]. unfold try_position.
    destruct (F32.ltb s (score_at a b)) eqn:E; [|right; exact H].
    right. destruct H as (Hs & _ & _).
    pose proof (TemplateSearch.ltb_positive _ _ Hs E) as Hp.
    repeat split; auto.
Qed.

End Scan.

(** What [vision_find_template] leaves in [best_score], [best_x], [best_y]. *)
Lemma best_match_placed build frame width height tmpl :
  let score_at := fun x y => template_match build frame width height x y tmpl in
  best_match score_at tmpl width height = TemplateSearch.unset \/
  placed score_at (lies_within tmpl width height) (best_match score_at tmpl width height).
Proof.
  intros score_at.
  rewrite (TemplateSearch.best_match_is_scan score_at width height
             (fun x y => TemplateSearch.template_match_inside build frame width height
                           tmpl x y)).
  apply scan_placed; [|left; reflexivity].
  intros x y. apply template_match_fits.
Qed.


Lemma leb_positive t s :
  F32.ltb F32.zero t = true -> F32.leb t s = true -> F32.ltb F32.zero s = true.
Proof.
  destruct t as [[]|[]| |[] mt et], s as [[]|[]| |[] ms es]; cbn;
    intros; try discriminate; reflexivity.
Qed.

(** X9: for a template whose threshold is above 0, a result that says
    [found] has its bounding box within the frame and its location inside
    the box. *)
Theorem found_template_in_frame build clock frame width height tmpl :
  F32.ltb F32.zero (tmpl_threshold tmpl) = true ->
  res_found (fst (vision_find_template build clock frame width height tmpl)) = true ->
  let r := fst (vision_find_template build clock frame width height tmpl) in
  let box := res_bounding_box r in
  0 <= rect_x box /\ rect_x box + rect_width box <= width /\
  0 <= rect_y box /\ rect_y box + rect_height box <= height /\
  0 <= pt_x (res_location r) < width /\ 0 <= pt_y (res_location r) < height.
Proof.
  unfold vision_find_template. destruct (get_time_ns clock) as [now clock'].
  pose proof (best_match_placed build frame width height tmpl) as H. cbv zeta in H.
  destruct (best_match _ tmpl width height) as [[s x] y].
  cbn [fst res_found res_bounding_box res_location rect_x rect_y rect_width
       rect_height pt_x pt_y].
  intros Ht Hfound. pose proof (leb_positive _ _ Ht Hfound) as Hs.
  destruct H as [[= -> -> ->]|(_ & _ & Hfits)]; [discriminate|].
  destruct Hfits as (Hw & Hh & Hx & Hxw & Hy & Hyh).
  unfold CInt.div.
  pose proof (Z.quot_pos (tmpl_width tmpl) 2).
  pose proof (Z.quot_lt (tmpl_width tmpl) 2).
  pose proof (Z.quot_pos (tmpl_height tmpl) 2).
  pose proof (Z.quot_lt (tmpl_height tmpl) 2).
  repeat split; try assumption; try lia.
Qed.

Lemma found_template_in_frame_witness :
  let r := fst (vision_find_template NO_SIMD ticking TemplateSearch.noisy 12 12
                                     TemplateSearch.patch) in
  let box := res_bounding_box r in
  0 <= rect_x box /\ rect_x box + rect_width box <= 12 /\
  0 <= rect_y box /\ rect_y box + rect_height box <= 12 /\
  0 <= pt_x (res_location r) < 12 /\ 0 <= pt_y (res_location r) < 12.
Proof.
  apply (found_template_in_frame NO_SIMD ticking TemplateSearch.noisy 12 12
           TemplateSearch.patch).
  - vm_compute. reflexivity.
  - vm_compute. reflexivity.
Defined.

End Boxes.

(* ========================================================================= *)
(** * The state machine behind [brain_process] *)

Module Machine.

Import LogicBrain Fixtures.

Definition is_detecting (s : GameState) : bool :=
  match s with GAME_STATE_DETECTING => true | _ => false end.

Definition is_halted (s : GameState) : bool :=
  match s with GAME_STATE_PAUSED | GAME_STATE_ERROR => true | _ => false end.

(** [brain_evaluate] touches the blackboard only. *)
Lemma brain_evaluate_keeps st results count :
  g_current_state (snd (brain_evaluate st results count)) = g_current_state st /\
  g_rules (snd (brain_evaluate st results count)) = g_rules st /\
  g_brain_initialized (snd (brain_evaluate st results count)) = g_brain_initialized st.
Proof.
  unfold brain_evaluate. destruct results as [rs|]; [|auto].
  destruct (count <=? 0); [auto|].
  destruct (select_rule _ _); auto.
Qed.

(** The only way into [GAME_STATE_ACTION_PENDING]. *)
Lemma fsm_transition_pending current vision_results action_pending :
  is_action_pending (fsm_transition current vision_results action_pending)
  = is_detecting current && action_pending.
Proof.
  destruct current; cbn; try reflexivity.
  - now destruct (vision_results >? 0).
  - destruct action_pending; [reflexivity|]. now destruct (vision_results =? 0).
Qed.

Lemma fsm_transition_halted current vision_results action_pending :
  (is_halted current = true ->
   fsm_transition current vision_results action_pending = current) /\
  (is_halted current = false ->
   is_halted (fsm_transition current vision_results action_pending) = false).
Proof.
  destruct current; cbn; split; intros; try discriminate; try reflexivity.
  - now destruct (vision_results >? 0).
  - destruct action_pending; [reflexivity|]. now destruct (vision_results =? 0).
Qed.

(** The header, the brain and the clock after [brain_process] on a mapped
    header. *)
Definition after (st : State) (clock : Clock) (h : SharedMemoryHeader)
    : SharedMemoryHeader * State * Clock :=
  match brain_process st clock (Some h) with
  | (_, Some h', st', clock') => (h', st', clock')
  | (_, None, st', clock') => (h, st', clock')
  end.

(** What one call does to the header and the state, in terms of the action
    [brain_evaluate] returns and the state the brain was in. *)
Lemma brain_process_effect st clock h :
  let action := fst (brain_evaluate st (Some (results h)) (CInt.i32 (num_results h))) in
  let delivered := is_detecting (g_current_state st) && negb (is_none (act_type action)) in
  exists has_results,
  let '(status, shm, st', _) := brain_process st clock (Some h) in
  status = 0 /\ exists h', shm = Some h' /\
    g_current_state st'
    = fsm_transition (g_current_state st) has_results (negb (is_none (act_type action))) /\
    is_action_pending (g_current_state st') = delivered /\
    pending_action h' = (if delivered then action else pending_action h) /\
    current_state h' = g_current_state st' /\
    result_ready h' = 1 /\
    g_rules st' = g_rules st /\
    frame_ready h' = frame_ready h /\ num_results h' = num_results h /\
    results h' = results h /\ frame_data h' = frame_data h.
Proof.
  intros action delivered. subst action delivered. unfold brain_process.
  destruct (get_time_ns clock) as [start clock1].
  pose proof (brain_evaluate_keeps st (Some (results h)) (CInt.i32 (num_results h)))
    as (Hs & Hr & _).
  destruct (brain_evaluate st (Some (results h)) (CInt.i32 (num_results h)))
    as [action st1].
  cbn [fst snd] in *.
  destruct (get_time_ns clock1) as [stop clock2].
  eexists. split; [reflexivity|]. eexists. split; [reflexivity|].
  cbn [g_current_state g_rules pending_action current_state result_ready frame_ready
       num_results results frame_data].
  rewrite Hs, Hr, fsm_transition_pending.
  rewrite (andb_comm (negb (is_none (act_type action)))).
  destruct (is_detecting (g_current_state st)), (negb (is_none (act_type action)));
    repeat split; reflexivity.
Qed.

(** X10: [brain_process] on a mapped header returns 0 and sets
    [result_ready]; it overwrites [pending_action] exactly when the brain was
    in [GAME_STATE_DETECTING] and [brain_evaluate] returned an action other
    than [ACTION_NONE], which is also exactly when the new state is
    [GAME_STATE_ACTION_PENDING]; the state it publishes is the brain's, and
    the results, the frame and [frame_ready] are left as they were. *)
Theorem brain_process_delivers st clock h :
  let action := fst (brain_evaluate st (Some (results h)) (CInt.i32 (num_results h))) in
  let delivered := is_detecting (g_current_state st) && negb (is_none (act_type action)) in
  let '(status, shm, st', _) := brain_process st clock (Some h) in
  status = 0 /\ exists h', shm = Some h' /\
    is_action_pending (g_current_state st') = delivered /\
    pending_action h' = (if delivered then action else pending_action h) /\
    current_state h' = g_current_state st' /\
    result_ready h' = 1 /\
    frame_ready h' = frame_ready h /\ num_results h' = num_results h /\
    results h' = results h /\ frame_data h' = frame_data h.
Proof.
  intros action delivered.
  destruct (brain_process_effect st clock h) as [has_results H].
  destruct (brain_process st clock (Some h)) as [[[status shm] st'] clock'].
  destruct H as (Hstatus & h' & Hshm & _ & H1 & H2 & H3 & H4 & _ & H5).
  split; [exact Hstatus|]. exists h'. repeat split; tauto.
Qed.

Lemma after_effect st clock h :
  let action := fst (brain_evaluate st (Some (results h)) (CInt.i32 (num_results h))) in
  let delivered := is_detecting (g_current_state st) && negb (is_none (act_type action)) in
  exists has_results,
  let '(h', st', _) := after st clock h in
  g_current_state st'
  = fsm_transition (g_current_state st) has_results (negb (is_none (act_type action))) /\
  pending_action h' = (if delivered then action else pending_action h) /\
  current_state h' = g_current_state st'.
Proof.
  intros action delivered.
  destruct (brain_process_effect st clock h) as [has_results H].
  exists has_results. unfold after.
  destruct (brain_process st clock (Some h)) as [[[status shm] st'] clock'].
  destruct H as (_ & h' & -> & H1 & _ & H2 & H3 & _). auto.
Qed.

(** X11: once the brain is in [GAME_STATE_ACTION_PENDING], the next two
    calls of [brain_process] lead to [GAME_STATE_EXECUTING] and then to
    [GAME_STATE_DETECTING] whatever the headers hold, and neither call
    writes [pending_action]: an action is delivered at most every third
    call. *)
Theorem pending_action_settles st clock h1 h2 :
  g_current_state st = GAME_STATE_ACTION_PENDING ->
  let '(h1', st1, clock1) := after st clock h1 in
  let '(h2', st2, _) := after st1 clock1 h2 in
  current_state h1' = GAME_STATE_EXECUTING /\ pending_action h1' = pending_action h1 /\
  current_state h2' = GAME_STATE_DETECTING /\ pending_action h2' = pending_action h2.
Proof.
  intros Hs.
  destruct (after_effect st clock h1) as [r1 H1].
  destruct (after st clock h1) as [[h1' st1] clock1].
  destruct (after_effect st1 clock1 h2) as [r2 H2].
  destruct (after st1 clock1 h2) as [[h2' st2] clock2].
  destruct H1 as (Hs1 & Hp1 & Hc1). destruct H2 as (Hs2 & Hp2 & Hc2).
  rewrite Hs in Hs1, Hp1. cbn in Hs1, Hp1.
  rewrite Hs1 in Hs2, Hp2. cbn in Hs2, Hp2.
  repeat split; congruence.
Qed.

(** Two results with trigger ids 1 and 2 in the first slots of a header. *)
Definition sighting : SharedMemoryHeader :=
  mkShm 1380012872 1 1 0 1 0 GAME_STATE_IDLE 2 2 8 0 0 0 2
        (Rules.s4_results ++ repeat zero_result 14) zero_action
        (paint 2 2 (fun _ _ => white)).

Definition pending_brain : State :=
  mkState (g_rules Rules.s4_brain) [] GAME_STATE_ACTION_PENDING true.

Lemma pending_action_settles_witness :
  let '(h1', st1, clock1) := after pending_brain ticking sighting in
  let '(h2', st2, _) := after st1 clock1 sighting in
  current_state h1' = GAME_STATE_EXECUTING /\ pending_action h1' = pending_action sighting /\
  current_state h2' = GAME_STATE_DETECTING /\ pending_action h2' = pending_action sighting.
Proof.
  apply (pending_action_settles pending_brain ticking sighting sighting). reflexivity.
Defined.

(** The brain after [brain_process] on each header of a list in turn. *)
Fixpoint process_all (st : State) (clock : Clock) (headers : list SharedMemoryHeader) : State :=
  match headers with
  | [] => st
  | h :: rest => let '(_, st', clock') := after st clock h in process_all st' clock' rest
  end.

(** X12: [brain_process] never leaves [GAME_STATE_PAUSED] or
    [GAME_STATE_ERROR] and never enters them: after any number of calls a
    brain that was in one of the two is still in it, and a brain that was
    in neither is in neither. *)
Theorem halted_only_by_request st clock headers :
  (is_halted (g_current_state st) = true ->
   g_current_state (process_all st clock headers) = g_current_state st) /\
  (is_halted (g_current_state st) = false ->
   is_halted (g_current_state (process_all st clock headers)) = false).
Proof.
  revert st clock; induction headers as [|h rest IH]; intros st clock; cbn [process_all];
    [auto|].
  destruct (after_effect st clock h) as [r H].
  destruct (after st clock h) as [[h' st'] clock'].
  destruct H as (Hs & _ & _).
  destruct (fsm_transition_halted (g_current_state st) r
              (negb (is_none (act_type
                 (fst (brain_evaluate st (Some (results h)) (CInt.i32 (num_results h))))))))
    as [Hstay Hnever].
  rewrite <- Hs in Hstay, Hnever.
  destruct (IH st' clock') as [IH1 IH2]. split; intros Hh.
  - rewrite <- (Hstay Hh). apply IH1. rewrite (Hstay Hh). exact Hh.
  - apply IH2. now apply Hnever.
Qed.

Lemma halted_only_by_request_witness :
  g_current_state
    (process_all (snd (brain_set_state Rules.s4_brain GAME_STATE_PAUSED)) ticking
         [sighting; sighting; sighting])
  = GAME_STATE_PAUSED.
Proof.
  apply (halted_only_by_request (snd (brain_set_state Rules.s4_brain GAME_STATE_PAUSED))
           ticking [sighting; sighting; sighting]).
  reflexivity.
Defined.

(** [has_results] of [brain_process]: there is a result and every populated
    slot says [found]. *)
Definition all_found (h : SharedMemoryHeader) : bool :=
  (num_results h >? 0)
  && forallb res_found (firstn (Z.to_nat (num_results h)) (results h)).

Lemma after_state st clock h :
  let action := fst (brain_evaluate st (Some (results h)) (CInt.i32 (num_results h))) in
  g_current_state (snd (fst (after st clock h)))
  = fsm_transition (g_current_state st) (if all_found h then 1 else 0)
                   (negb (is_none (act_type action))).
Proof.
  unfold after, brain_process, all_found.
  destruct (get_time_ns clock) as [start clock1].
  pose proof (brain_evaluate_keeps st (Some (results h)) (CInt.i32 (num_results h)))
    as (Hs & _ & _).
  destruct (brain_evaluate st (Some (results h)) (CInt.i32 (num_results h)))
    as [action st1].
  cbn [fst snd] in *.
  destruct (get_time_ns clock1) as [stop clock2].
  cbn [fst snd g_current_state]. now rewrite Hs.
Qed.

(** X27: an idle brain starts detecting on the first frame whose populated
    result slots all say [found] (and there is at least one), and stays
    idle otherwise, whatever the rules say; a detecting brain for which no
    rule fires goes back to idle as soon as one populated slot is not
    found or there is none. *)
Theorem sighting_drives_detection st clock h :
  let action := fst (brain_evaluate st (Some (results h)) (CInt.i32 (num_results h))) in
  let next := g_current_state (snd (fst (after st clock h))) in
  (g_current_state st = GAME_STATE_IDLE ->
   next = if all_found h then GAME_STATE_DETECTING else GAME_STATE_IDLE) /\
  (g_current_state st = GAME_STATE_DETECTING -> act_type action = ACTION_NONE ->
   next = if all_found h then GAME_STATE_DETECTING else GAME_STATE_IDLE).
Proof.
  intros action next. subst next. rewrite after_state. fold action.
  split.
  - intros ->. cbn [fsm_transition]. now destruct (all_found h).
  - intros -> ->. cbn [fsm_transition is_none negb]. now destruct (all_found h).
Qed.

Lemma sighting_drives_detection_witness :
  g_current_state (snd (fst (after Rules.s4_brain ticking sighting)))
  = if all_found sighting then GAME_STATE_DETECTING else GAME_STATE_IDLE.
Proof.
  apply (proj1 (sighting_drives_detection Rules.s4_brain ticking sighting)). reflexivity.
Defined.

End Machine.

(* ========================================================================= *)
(** * The blackboard across [brain_evaluate] *)

Module Store.

Import LogicBrain Fixtures.

Definition names (vars : list VariableEntry) : list string := map var_name vars.

(** The table fits [g_variables] and every name fits its [name[32]]. *)
Definition well_formed (vars : list VariableEntry) : Prop :=
  Z.of_nat (List.length vars) <= MAX_VARIABLES /\
  Forall (fun n => (String.length n <= 31)%nat) (names vars).

Lemma absent_names vars name : Blackboard.absent vars name <-> ~ In name (names vars).
Proof.
  unfold Blackboard.absent, names. rewrite Forall_forall. split.
  - intros H Hin. apply in_map_iff in Hin as (v & Hv & Hin). exact (H v Hin Hv).
  - intros H v Hin Hv. apply H. apply in_map_iff. now exists v.
Qed.

(** [set_variable] keeps the names, or adds the truncated name at the end
    of a table that has room. *)
Lemma set_variable_names vars name value :
  names (snd (set_variable vars name value)) = names vars \/
  (names (snd (set_variable vars name value)) = names vars ++ [strncpy name 31] /\
   Z.of_nat (List.length vars) < MAX_VARIABLES).
Proof.
  unfold set_variable.
  destruct (replace_variable vars name value) as [vars'|] eqn:E.
  - left. destruct (Blackboard.replace_variable_shape vars name value vars' E)
      as (before & v & after & -> & _ & Hv & ->).
    cbn [snd]. unfold names. rewrite !map_app. cbn [map var_name]. now rewrite Hv.
  - destruct (Z.of_nat (List.length vars) >=? MAX_VARIABLES) eqn:F; cbn [snd]; [now left|].
    right. unfold names. rewrite map_app. split; [reflexivity | lia].
Qed.

Lemma set_variable_length vars name value :
  (List.length vars <= List.length (snd (set_variable vars name value))
   <= List.length vars + 1)%nat.
Proof.
  pose proof (f_equal (@List.length string)) as F. unfold names in *.
  destruct (set_variable_names vars name value) as [H|[H _]]; apply F in H;
    unfold names in H; rewrite ?length_app, !length_map in H; cbn [List.length] in H; lia.
Qed.

Lemma set_variable_well_formed vars name value :
  well_formed vars -> well_formed (snd (set_variable vars name value)).
Proof.
  intros [Hlen Hall]. unfold well_formed.
  pose proof (set_variable_length vars name value) as Hl.
  destruct (set_variable_names vars name value) as [H|[H Hroom]]; rewrite H.
  - split; [|exact Hall].
    apply (f_equal (@List.length string)) in H. unfold names in H.
    rewrite !length_map in H. lia.
  - split; [lia|]. apply Forall_app. split; [exact Hall|].
    constructor; [apply Blackboard.strncpy_length | constructor].
Qed.

(** [later] holds the names of [earlier] at the same indices. *)
Definition extends (earlier later : list VariableEntry) : Prop :=
  exists added, names later = names earlier ++ added.

Lemma extends_refl vars : extends vars vars.
Proof. exists []. now rewrite app_nil_r. Qed.

Lemma extends_trans a b c : extends a b -> extends b c -> extends a c.
Proof. intros [x Hx] [y Hy]. exists (x ++ y). now rewrite Hy, Hx, app_assoc. Qed.

Lemma set_variable_extends vars name value :
  extends vars (snd (set_variable vars name value)).
Proof.
  destruct (set_variable_names vars name value) as [H|[H _]].
  - exists []. now rewrite app_nil_r.
  - now exists [strncpy name 31].
Qed.

Lemma ingest_result_kept vars r :
  well_formed vars ->
  well_formed (ingest_result vars r) /\ extends vars (ingest_result vars r).
Proof.
  intros H. unfold ingest_result. destruct (res_found r); [|auto using extends_refl].
  cbv zeta.
  repeat match goal with
         | |- context [if ?b then _ else _] => destruct b
         end;
    (split;
     [repeat apply set_variable_well_formed; exact H
     |repeat (eapply extends_trans; [|apply set_variable_extends]); apply extends_refl]).
Qed.

Lemma ingest_results_kept rs vars :
  well_formed vars ->
  well_formed (fold_left ingest_result rs vars) /\
  extends vars (fold_left ingest_result rs vars).
Proof.
  revert vars; induction rs as [|r rs IH]; intros vars H; cbn [fold_left];
    [auto using extends_refl|].
  destruct (ingest_result_kept vars r H) as [H1 H2].
  destruct (IH _ H1) as [H3 H4]. eauto using extends_trans.
Qed.

(** X13: [brain_evaluate] keeps the blackboard within its arrays and never
    forgets a name: from a table of at most 64 entries with names of at
    most 31 characters it leaves such a table, whose names are the old ones
    in their order, followed by the ones it added. *)
Theorem blackboard_keeps_names st results count :
  well_formed (g_variables st) ->
  well_formed (g_variables (snd (brain_evaluate st results count))) /\
  extends (g_variables st) (g_variables (snd (brain_evaluate st results count))).
Proof.
  intros H. unfold brain_evaluate. destruct results as [rs|]; [|auto using extends_refl].
  destruct (count <=? 0); [auto using extends_refl|].
  destruct (ingest_results_kept (firstn (Z.to_nat count) rs) (g_variables st) H).
  destruct (select_rule _ _); auto.
Qed.

Lemma blackboard_keeps_names_witness :
  well_formed (g_variables (snd (brain_evaluate Rules.s4_brain (Some Rules.s4_results) 2))).
Proof.
  apply (blackboard_keeps_names Rules.s4_brain (Some Rules.s4_results) 2).
  split; [vm_compute; discriminate | constructor].
Defined.

(** *** Reading after writing *)

Lemma get_variable_snoc vars e other :
  var_name e <> other -> get_variable (vars ++ [e]) other = get_variable vars other.
Proof.
  intros H. induction vars as [|v rest IH]; cbn [app get_variable].
  - apply String.eqb_neq in H. now rewrite H.
  - now rewrite IH.
Qed.

(** The variable is in the table, or the table has room for [room] more. *)
Definition tracked (vars : list VariableEntry) (name : string) (room : Z) : Prop :=
  In name (names vars) \/ Z.of_nat (List.length vars) + room <= MAX_VARIABLES.

Lemma tracked_less vars name room room' :
  room' <= room -> tracked vars name room -> tracked vars name room'.
Proof. unfold tracked. intros H [Hin|Hr]; [now left | right; lia]. Qed.

(** Writing under another name. *)
Lemma set_other vars n value name room :
  n <> name -> strncpy n 31 <> name -> tracked vars name (room + 1) ->
  get_variable (snd (set_variable vars n value)) name = get_variable vars name /\
  tracked (snd (set_variable vars n value)) name room.
Proof.
  intros Hn Hs Ht. split.
  - unfold set_variable. destruct (replace_variable vars n value) as [vars'|] eqn:E.
    + cbn [snd]. now apply (Blackboard.get_other_after_replace vars n value vars' name E).
    + destruct (Z.of_nat (List.length vars) >=? MAX_VARIABLES); cbn [snd]; [reflexivity|].
      now apply get_variable_snoc.
  - pose proof (set_variable_length vars n value) as Hl.
    destruct (set_variable_extends vars n value) as [added Ha].
    destruct Ht as [Hin|Hr]; [left | right; lia].
    rewrite Ha. apply in_or_app. now left.
Qed.

(** Writing under the name itself. *)
Lemma set_same vars name value room :
  (String.length name <= 31)%nat -> tracked vars name (room + 1) -> 0 <= room ->
  get_variable (snd (set_variable vars name value)) name = value /\
  tracked (snd (set_variable vars name value)) name room.
Proof.
  intros Hlen Ht Hroom. unfold set_variable.
  destruct (replace_variable vars name value) as [vars'|] eqn:E.
  - cbn [snd]. split; [now apply (Blackboard.get_after_replace vars name value vars' E)|].
    left. destruct (Blackboard.replace_variable_shape vars name value vars' E)
      as (before & v & after & -> & _ & Hv & ->).
    unfold names. rewrite map_app. apply in_or_app. right. now left.
  - apply Blackboard.replace_variable_none in E.
    destruct Ht as [Hin|Hr]; [now apply absent_names in E|].
    replace (Z.of_nat (List.length vars) >=? MAX_VARIABLES) with false by lia.
    cbn [snd]. rewrite (Blackboard.strncpy_short name 31 Hlen). split.
    + rewrite (Blackboard.get_variable_app_absent vars _ name E).
      cbn [get_variable var_name var_value]. now rewrite String.eqb_refl.
    + left. unfold names. rewrite map_app. apply in_or_app. right. now left.
Qed.

(** The names under which a result is also stored: trigger id, coordinate
    and name. *)
Definition aliases : list (Z * (Point2D -> Z) * string) :=
  [(1, pt_x, "bird_x"%string); (1, pt_y, "bird_y"%string);
   (2, pt_x, "gap_center_x"%string); (2, pt_y, "gap_center_y"%string)].

(** The coordinate of the last found result with trigger id [id], or [old]
    when there is none. *)
Definition last_sighting (id : Z) (proj : Point2D -> Z) (rs : list VisionResult) (old : Z)
    : Z :=
  fold_left (fun v r => if res_found r && (res_trigger_id r =? id)
                        then proj (res_location r) else v)
            rs old.

Lemma ingest_result_alias vars r id proj name room :
  In (id, proj, name) aliases -> 0 <= room -> tracked vars name (room + 5) ->
  get_variable (ingest_result vars r) name
  = (if res_found r && (res_trigger_id r =? id) then proj (res_location r)
     else get_variable vars name) /\
  tracked (ingest_result vars r) name room.
Proof.
  intros Hin Hroom Ht. unfold ingest_result.
  destruct (res_found r); cbn [andb];
    [|split; [reflexivity | apply (tracked_less vars name (room + 5)); [lia | exact Ht]]].
  cbv zeta.
  set (tx := ("trigger_" ++ decimal (res_trigger_id r) ++ "_x")%string).
  set (ty := ("trigger_" ++ decimal (res_trigger_id r) ++ "_y")%string).
  set (tf := ("trigger_" ++ decimal (res_trigger_id r) ++ "_found")%string).
  assert (Hq : forall t, In t [tx; ty; tf] -> t <> name /\ strncpy t 31 <> name).
  { intros t Ht'. cbn [In] in Hin, Ht'.
    destruct Ht' as [<-|[<-|[<-|[]]]];
      destruct Hin as [[= <- <- <-]|[[= <- <- <-]|[[= <- <- <-]|[[= <- <- <-]|[]]]]];
      split; subst tx ty tf; cbn; discriminate. }
  destruct (Hq tx) as [Hx1 Hx2]; [cbn; auto|].
  destruct (Hq ty) as [Hy1 Hy2]; [cbn; auto|].
  destruct (Hq tf) as [Hf1 Hf2]; [cbn; auto|]. clear Hq.
  replace (room + 5) with (room + 1 + 1 + 1 + 1 + 1) in Ht by lia.
  destruct (set_other vars tx (pt_x (res_location r)) name _ Hx1 Hx2 Ht) as [G1 T1].
  set (v1 := snd (set_variable vars tx (pt_x (res_location r)))) in *.
  destruct (set_other v1 ty (pt_y (res_location r)) name _ Hy1 Hy2 T1) as [G2 T2].
  set (v2 := snd (set_variable v1 ty (pt_y (res_location r)))) in *.
  destruct (set_other v2 tf 1 name _ Hf1 Hf2 T2) as [G3 T3].
  set (v3 := snd (set_variable v2 tf 1)) in *.
  assert (G : get_variable v3 name = get_variable vars name) by congruence.
  clear G1 G2 G3 T1 T2. cbn [In] in Hin.
  destruct (res_trigger_id r =? 1) eqn:E1; [|destruct (res_trigger_id r =? 2) eqn:E2].
  - assert (Hid : res_trigger_id r = 1) by lia.
    destruct Hin as [[= <- <- <-]|[[= <- <- <-]|[[= <- <- <-]|[[= <- <- <-]|[]]]]];
      rewrite Hid; cbn [Z.eqb Pos.eqb].
    + destruct (set_same v3 "bird_x" (pt_x (res_location r)) (room + 1)) as [A1 A2];
        [cbn; lia | exact T3 | lia|].
      destruct (set_other _ "bird_y" (pt_y (res_location r)) "bird_x" room
                  ltac:(discriminate) ltac:(cbn; discriminate) A2) as [B1 B2].
      split; [congruence | exact B2].
    + destruct (set_other v3 "bird_x" (pt_x (res_location r)) "bird_y" (room + 1)
                  ltac:(discriminate) ltac:(cbn; discriminate) T3) as [A1 A2].
      destruct (set_same (snd (set_variable v3 "bird_x" (pt_x (res_location r))))
                         "bird_y" (pt_y (res_location r)) room) as [B1 B2];
        [cbn; lia | exact A2 | lia|].
      split; [exact B1 | exact B2].
    + destruct (set_other v3 "bird_x" (pt_x (res_location r)) "gap_center_x" (room + 1)
                  ltac:(discriminate) ltac:(cbn; discriminate) T3) as [A1 A2].
      destruct (set_other _ "bird_y" (pt_y (res_location r)) "gap_center_x" room
                  ltac:(discriminate) ltac:(cbn; discriminate) A2) as [B1 B2].
      split; [congruence | exact B2].
    + destruct (set_other v3 "bird_x" (pt_x (res_location r)) "gap_center_y" (room + 1)
                  ltac:(discriminate) ltac:(cbn; discriminate) T3) as [A1 A2].
      destruct (set_other _ "bird_y" (pt_y (res_location r)) "gap_center_y" room
                  ltac:(discriminate) ltac:(cbn; discriminate) A2) as [B1 B2].
      split; [congruence | exact B2].
  - assert (Hid : res_trigger_id r = 2) by lia.
    destruct Hin as [[= <- <- <-]|[[= <- <- <-]|[[= <- <- <-]|[[= <- <- <-]|[]]]]];
      rewrite Hid; cbn [Z.eqb Pos.eqb].
    + destruct (set_other v3 "gap_center_x" (pt_x (res_location r)) "bird_x" (room + 1)
                  ltac:(discriminate) ltac:(cbn; discriminate) T3) as [A1 A2].
      destruct (set_other _ "gap_center_y" (pt_y (res_location r)) "bird_x" room
                  ltac:(discriminate) ltac:(cbn; discriminate) A2) as [B1 B2].
      split; [congruence | exact B2].
    + destruct (set_other v3 "gap_center_x" (pt_x (res_location r)) "bird_y" (room + 1)
                  ltac:(discriminate) ltac:(cbn; discriminate) T3) as [A1 A2].
      destruct (set_other _ "gap_center_y" (pt_y (res_location r)) "bird_y" room
                  ltac:(discriminate) ltac:(cbn; discriminate) A2) as [B1 B2].
      split; [congruence | exact B2].
    + destruct (set_same v3 "gap_center_x" (pt_x (res_location r)) (room + 1)) as [A1 A2];
        [cbn; lia | exact T3 | lia|].
      destruct (set_other _ "gap_center_y" (pt_y (res_location r)) "gap_center_x" room
                  ltac:(discriminate) ltac:(cbn; discriminate) A2) as [B1 B2].
      split; [congruence | exact B2].
    + destruct (set_other v3 "gap_center_x" (pt_x (res_location r)) "gap_center_y" (room + 1)
                  ltac:(discriminate) ltac:(cbn; discriminate) T3) as [A1 A2].
      destruct (set_same (snd (set_variable v3 "gap_center_x" (pt_x (res_location r))))
                         "gap_center_y" (pt_y (res_location r)) room) as [B1 B2];
        [cbn; lia | exact A2 | lia|].
      split; [exact B1 | exact B2].
  - assert (Hid : (res_trigger_id r =? id) = false).
    { destruct Hin as [[= <- <- <-]|[[= <- <- <-]|[[= <- <- <-]|[[= <- <- <-]|[]]]]];
        assumption. }
    rewrite Hid. split; [exact G|].
    apply (tracked_less v3 name (room + 1 + 1)); [lia | exact T3].
Qed.

Lemma ingest_results_alias rs vars id proj name :
  In (id, proj, name) aliases ->
  tracked vars name (5 * Z.of_nat (List.length rs)) ->
  get_variable (fold_left ingest_result rs vars) name
  = last_sighting id proj rs (get_variable vars name).
Proof.
  intros Hin. revert vars; induction rs as [|r rs IH]; intros vars Ht;
    cbn [fold_left last_sighting]; [reflexivity|].
  destruct (ingest_result_alias vars r id proj name (5 * Z.of_nat (List.length rs)) Hin)
    as [Hg Ht']; [lia | |].
  { apply (tracked_less vars name (5 * Z.of_nat (List.length (r :: rs)))); [|exact Ht].
    cbn [List.length]. lia. }
  rewrite (IH _ Ht'). unfold last_sighting. now rewrite Hg.
Qed.

(** X14: the variables [bird_x], [bird_y] (trigger id 1) and [gap_center_x],
    [gap_center_y] (trigger id 2) follow the results: when the variable is
    already on the blackboard, or the table has room for five entries per
    result, then after [brain_evaluate] it holds the coordinate of the last
    found result with that trigger id among the first [count], and what it
    held before when there is none. *)
Theorem alias_tracks_last_sighting st rs count id proj name :
  In (id, proj, name) aliases ->
  0 < count ->
  tracked (g_variables st) name (5 * count) ->
  get_variable (g_variables (snd (brain_evaluate st (Some rs) count))) name
  = last_sighting id proj (firstn (Z.to_nat count) rs) (get_variable (g_variables st) name).
Proof.
  intros Hin Hcount Ht. unfold brain_evaluate.
  replace (count <=? 0) with false by lia.
  assert (Hg : get_variable (fold_left ingest_result (firstn (Z.to_nat count) rs)
                                       (g_variables st)) name
               = last_sighting id proj (firstn (Z.to_nat count) rs)
                               (get_variable (g_variables st) name)).
  { apply ingest_results_alias; [exact Hin|].
    apply (tracked_less _ name (5 * count)); [|exact Ht].
    pose proof (firstn_le_length (Z.to_nat count) rs). lia. }
  destruct (select_rule _ _); exact Hg.
Qed.

Lemma alias_tracks_last_sighting_witness :
  get_variable (g_variables (snd (brain_evaluate Rules.s4_brain (Some Rules.s4_results) 2)))
               "gap_center_y"
  = last_sighting 2 pt_y (firstn (Z.to_nat 2) Rules.s4_results)
                  (get_variable (g_variables Rules.s4_brain) "gap_center_y").
Proof.
  apply (alias_tracks_last_sighting Rules.s4_brain Rules.s4_results 2 2 pt_y
                                    "gap_center_y").
  - cbn. auto.
  - lia.
  - right. vm_compute. discriminate.
Defined.

End Store.

(* ========================================================================= *)
(** * Flappy Bird detection *)

Module FlappyBird.

Import GameFunctions Fixtures.

(** *** The value channel of the float conversion *)

(** [c / 255.0f] *)
Definition to_unit (c : Z) : spec_float := F32.div (F32.of_Z c) (F32.of_Z 255).

Definition bytes : list Z := map Z.of_nat (seq 0 256).

Lemma in_bytes c : 0 <= c <= 255 -> In c bytes.
Proof.
  intros H. unfold bytes. apply in_map_iff. exists (Z.to_nat c). split; [lia|].
  apply in_seq. lia.
Qed.

(** The 256 quotients keep the order of the bytes, and scaling one back
    gives the byte again. *)
Definition entry (c : Z) : Z * spec_float := (c, to_unit c).

Definition table : list (Z * spec_float) := map entry bytes.

Definition scales_back (p : Z * spec_float) : bool :=
  F32.trunc (F32.mul (snd p) (F32.of_Z 255)) =? fst p.

Definition ordered (p q : Z * spec_float) : bool :=
  Bool.eqb (F32.ltb (snd p) (snd q)) (fst p <? fst q).

Definition unit_table_ok : bool :=
  forallb (fun p => scales_back p && forallb (ordered p) table) table.

Lemma unit_table : unit_table_ok = true.
Proof. vm_compute. reflexivity. Qed.

Lemma in_table c : 0 <= c <= 255 -> In (entry c) table.
Proof. intros H. unfold table. apply in_map. now apply in_bytes. Qed.

Lemma to_unit_facts a b :
  0 <= a <= 255 -> 0 <= b <= 255 ->
  F32.trunc (F32.mul (to_unit a) (F32.of_Z 255)) = a /\
  F32.ltb (to_unit a) (to_unit b) = (a <? b).
Proof.
  intros Ha Hb.
  pose proof (proj1 (forallb_forall _ _) unit_table (entry a) (in_table a Ha)) as H.
  apply andb_prop in H as [H1 H2]. split.
  - apply Z.eqb_eq in H1. exact H1.
  - pose proof (proj1 (forallb_forall _ _) H2 (entry b) (in_table b Hb)) as H3.
    apply Bool.eqb_prop in H3. exact H3.
Qed.

Lemma fmaxf_to_unit a b :
  0 <= a <= 255 -> 0 <= b <= 255 ->
  F32.fmaxf (to_unit a) (to_unit b) = to_unit (Z.max a b).
Proof.
  intros Ha Hb. unfold F32.fmaxf.
  destruct (to_unit_facts a b Ha Hb) as [_ ->].
  destruct (a <? b) eqn:E; f_equal; lia.
Qed.

(** X15: for all bytes [r], [g], [b] the value channel of the binary32
    [rgb_to_hsv] is the largest of the three, as in the integer conversion
    of the vision engine: the two roundings of [c / 255.0f * 255.0f] never
    lose a unit. *)
Theorem float_value_is_max r g b :
  0 <= r <= 255 -> 0 <= g <= 255 -> 0 <= b <= 255 ->
  hsv_v (rgb_to_hsv r g b) = Z.max (Z.max r g) b /\
  hsv_v (rgb_to_hsv r g b) = hsv_v (VisionEngine.rgb_to_hsv r g b).
Proof.
  intros Hr Hg Hb.
  assert (Hv : hsv_v (rgb_to_hsv r g b) = Z.max (Z.max r g) b).
  { unfold rgb_to_hsv. cbv zeta. cbn [hsv_v].
    fold (to_unit r) (to_unit g) (to_unit b).
    rewrite (fmaxf_to_unit r g Hr Hg), (fmaxf_to_unit (Z.max r g) b) by lia.
    destruct (to_unit_facts (Z.max (Z.max r g) b) 0) as [-> _]; try lia.
    unfold CInt.u8. apply Z.mod_small. lia. }
  split; [exact Hv|]. rewrite Hv.
  unfold VisionEngine.rgb_to_hsv. cbv zeta. cbn [hsv_v].
  destruct (r >? g) eqn:E1; [destruct (r >? b) eqn:E2 | destruct (g >? b) eqn:E2]; lia.
Qed.

Lemma float_value_is_max_witness :
  hsv_v (rgb_to_hsv 255 0 1) = Z.max (Z.max 255 0) 1 /\
  hsv_v (rgb_to_hsv 255 0 1) = hsv_v (VisionEngine.rgb_to_hsv 255 0 1).
Proof. apply (float_value_is_max 255 0 1); lia. Defined.

(** *** The bird's bounding box *)

Section Bird.

Variables (frame_data : list Z) (width channels : Z) (hsv_low hsv_high : Z * Z * Z).

(** The pixels of [ps] whose colour is in range. *)
Definition in_range (ps : list (Z * Z)) : list (Z * Z) :=
  filter (fun p => pixel_in_range frame_data width channels hsv_low hsv_high (fst p) (snd p))
         ps.

(** [best] is the bounding box of the pixels [seen], each side touched. *)
Definition bounds (best : BlobBounds) (seen : list (Z * Z)) : Prop :=
  pixel_count best = Z.of_nat (List.length seen) /\
  (seen <> [] ->
   (forall p, In p seen ->
      min_x best <= fst p <= max_x best /\ min_y best <= snd p <= max_y best) /\
   (exists p, In p seen /\ fst p = min_x best) /\
   (exists p, In p seen /\ fst p = max_x best) /\
   (exists p, In p seen /\ snd p = min_y best) /\
   (exists p, In p seen /\ snd p = max_y best)).

Lemma blob_add_bounds best seen x y :
  bounds best seen -> bounds (blob_add best x y) (seen ++ [(x, y)]).
Proof.
  intros [Hc Hb]. unfold blob_add. destruct (pixel_count best =? 0) eqn:E.
  - assert (seen = []) by (destruct seen; [reflexivity | cbn [List.length] in Hc; lia]).
    subst seen. split; [cbn; lia|]. intros _. cbn [app min_x max_x min_y max_y].
    split; [intros p [<-|[]]; cbn; lia|].
    repeat split; exists (x, y); cbn; auto.
  - assert (Hne : seen <> []) by (intros ->; cbn in Hc; lia).
    destruct (Hb Hne) as (Hall & (p1 & Hp1 & E1) & (p2 & Hp2 & E2) & (p3 & Hp3 & E3)
                          & (p4 & Hp4 & E4)).
    split; [cbn [pixel_count]; rewrite length_app; cbn [List.length]; lia|].
    intros _. cbn [min_x max_x min_y max_y]. split.
    + intros p Hp. apply in_app_or in Hp as [Hp|[<-|[]]].
      * specialize (Hall p Hp).
        destruct (x <? min_x best) eqn:?, (x >? max_x best) eqn:?,
                 (y <? min_y best) eqn:?, (y >? max_y best) eqn:?; lia.
      * cbn [fst snd].
        destruct (x <? min_x best) eqn:?, (x >? max_x best) eqn:?,
                 (y <? min_y best) eqn:?, (y >? max_y best) eqn:?; lia.
    + repeat split.
      * destruct (x <? min_x best);
          [exists (x, y); split; [apply in_or_app; right; apply in_eq | reflexivity]
          |exists p1; split; [apply in_or_app; now left | exact E1]].
      * destruct (x >? max_x best);
          [exists (x, y); split; [apply in_or_app; right; apply in_eq | reflexivity]
          |exists p2; split; [apply in_or_app; now left | exact E2]].
      * destruct (y <? min_y best);
          [exists (x, y); split; [apply in_or_app; right; apply in_eq | reflexivity]
          |exists p3; split; [apply in_or_app; now left | exact E3]].
      * destruct (y >? max_y best);
          [exists (x, y); split; [apply in_or_app; right; apply in_eq | reflexivity]
          |exists p4; split; [apply in_or_app; now left | exact E4]].
Qed.

Lemma blob_scan_bounds ps best seen :
  bounds best seen ->
  bounds (blob_scan frame_data width channels hsv_low hsv_high ps best)
         (seen ++ in_range ps).
Proof.
  revert best seen; induction ps as [|[x y] ps IH]; intros best seen H;
    unfold blob_scan, in_range; cbn [fold_left filter fst snd].
  - now rewrite app_nil_r.
  - destruct (pixel_in_range frame_data width channels hsv_low hsv_high x y).
    + change ((x, y) :: filter _ ps) with ([(x, y)] ++ in_range ps). rewrite app_assoc.
      apply IH. now apply blob_add_bounds.
    + apply IH. exact H.
Qed.

End Bird.

(** The pixels [detect_bird_color] scans: the search region cut at the
    frame's right and bottom edges. *)
Definition bird_pixels (width height : Z) (search_region : option (Z * Z * Z * Z))
    : list (Z * Z) :=
  let '(sx, sy, sw, sh) := search_bounds search_region width height in
  let sw := if sx + sw >? width then width - sx else sw in
  let sh := if sy + sh >? height then height - sy else sh in
  grid (steps sy (sy + sh) 1) (steps sx (sx + sw) 1).

(** X16: [detect_bird_color] reports a bird exactly when more than 200 of
    the scanned pixels are in the colour range, and the box it reports is
    then the bounding box of all of them: every such pixel lies in it, each
    of its four sides holds one, and the centre is the corner plus half the
    size. *)
Theorem bird_box_is_tight frame_data width height channels search_region hsv_low hsv_high :
  let hits := in_range frame_data width channels hsv_low hsv_high
                       (bird_pixels width height search_region) in
  match detect_bird_color frame_data width height channels search_region hsv_low hsv_high
  with
  | None => Z.of_nat (List.length hits) <= 200
  | Some bird =>
      200 < Z.of_nat (List.length hits) /\
      (forall p, In p hits ->
         bird_x bird <= fst p < bird_x bird + bird_width bird /\
         bird_y bird <= snd p < bird_y bird + bird_height bird) /\
      (exists p, In p hits /\ fst p = bird_x bird) /\
      (exists p, In p hits /\ fst p = bird_x bird + bird_width bird - 1) /\
      (exists p, In p hits /\ snd p = bird_y bird) /\
      (exists p, In p hits /\ snd p = bird_y bird + bird_height bird - 1) /\
      bird_center_x bird = bird_x bird + Z.quot (bird_width bird) 2 /\
      bird_center_y bird = bird_y bird + Z.quot (bird_height bird) 2
  end.
Proof.
  unfold detect_bird_color, bird_pixels.
  destruct (search_bounds search_region width height) as [[[sx sy] sw] sh].
  set (ps := grid _ _). cbv zeta.
  pose proof (blob_scan_bounds frame_data width channels hsv_low hsv_high ps
                (mkBlob 0 0 0 0 0) []) as H.
  cbn [app] in H.
  destruct H as [Hc Hb]; [split; [reflexivity | congruence]|].
  set (best := blob_scan frame_data width channels hsv_low hsv_high ps (mkBlob 0 0 0 0 0))
    in *.
  destruct (pixel_count best >? 200) eqn:E; [|lia].
  assert (Hne : in_range frame_data width channels hsv_low hsv_high ps <> [])
    by (intros Hnil; rewrite Hnil in Hc; cbn [List.length] in Hc; lia).
  destruct (Hb Hne) as (Hall & (p1 & Hp1 & E1) & (p2 & Hp2 & E2) & (p3 & Hp3 & E3)
                        & (p4 & Hp4 & E4)).
  cbn [bird_x bird_y bird_width bird_height bird_center_x bird_center_y].
  split; [lia|]. split; [intros p Hp; specialize (Hall p Hp); lia|].
  repeat split.
  - now exists p1.
  - exists p2. split; [exact Hp2 | lia].
  - now exists p3.
  - exists p4. split; [exact Hp4 | lia].
Qed.

(** *** The leftmost gap *)

Lemma in_pipe_pairs pipe_count i j :
  In (i, j) (pipe_pairs pipe_count) <-> 0 <= i < j /\ j < pipe_count.
Proof.
  unfold pipe_pairs. rewrite in_flat_map. split.
  - intros (i' & Hi & Hj). apply Loops.in_steps in Hi.
    apply in_map_iff in Hj as (j' & [= <- <-] & Hj). apply Loops.in_steps in Hj. lia.
  - intros [Hi Hj]. exists i. split; [apply Loops.in_steps; lia|].
    apply in_map_iff. exists j. split; [reflexivity | apply Loops.in_steps; lia].
Qed.

Section Gap.

Variable pipes : list PipeDetection.

(** [best_x] and [*out_gap] after the pairs [seen]: nothing yet, or the
    first pair of smallest [pair_x] among the pairs that form one. *)
Definition leftmost (seen : list (Z * Z)) (acc : Z * option GapInfo) : Prop :=
  (acc = (999999, None) /\
   forall i j, In (i, j) seen -> forms_pair pipes i j = true -> 999999 <= pair_x pipes i j)
  \/
  (exists i j, In (i, j) seen /\ forms_pair pipes i j = true /\
     acc = (pair_x pipes i j, Some (gap_of pipes i j)) /\ pair_x pipes i j < 999999 /\
     forall i' j', In (i', j') seen -> forms_pair pipes i' j' = true ->
                   pair_x pipes i j <= pair_x pipes i' j').

Lemma gap_step_leftmost seen acc p :
  leftmost seen acc -> leftmost (seen ++ [p]) (gap_step pipes acc p).
Proof.
  destruct p as [a b]. unfold gap_step.
  intros [[-> Hnone]|(i & j & Hin & Hf & -> & Hlt & Hmin)]; cbn [fst].
  - destruct (forms_pair pipes a b) eqn:F; [destruct (pair_x pipes a b <? 999999) eqn:E|].
    + right. exists a, b. split; [apply in_or_app; right; apply in_eq|].
      repeat split; try assumption; try lia.
      intros i' j' Hin' F'. apply in_app_or in Hin' as [Hin'|[[= <- <-]|[]]]; [|lia].
      specialize (Hnone i' j' Hin' F'). lia.
    + left. split; [reflexivity|].
      intros i' j' Hin' F'. apply in_app_or in Hin' as [Hin'|[[= <- <-]|[]]]; [auto | lia].
    + left. split; [reflexivity|].
      intros i' j' Hin' F'. apply in_app_or in Hin' as [Hin'|[[= <- <-]|[]]];
        [auto | congruence].
  - destruct (forms_pair pipes a b) eqn:F;
      [destruct (pair_x pipes a b <? pair_x pipes i j) eqn:E|].
    + right. exists a, b. split; [apply in_or_app; right; apply in_eq|].
      repeat split; try assumption; try lia.
      intros i' j' Hin' F'. apply in_app_or in Hin' as [Hin'|[[= <- <-]|[]]]; [|lia].
      specialize (Hmin i' j' Hin' F'). lia.
    + right. exists i, j. split; [apply in_or_app; now left|].
      repeat split; try assumption.
      intros i' j' Hin' F'. apply in_app_or in Hin' as [Hin'|[[= <- <-]|[]]]; [auto | lia].
    + right. exists i, j. split; [apply in_or_app; now left|].
      repeat split; try assumption.
      intros i' j' Hin' F'. apply in_app_or in Hin' as [Hin'|[[= <- <-]|[]]];
        [auto | congruence].
Qed.

Lemma gap_scan_leftmost ps seen acc :
  leftmost seen acc -> leftmost (seen ++ ps) (fold_left (gap_step pipes) ps acc).
Proof.
  revert seen acc; induction ps as [|p ps IH]; intros seen acc H; cbn [fold_left].
  - now rewrite app_nil_r.
  - change (p :: ps) with ([p] ++ ps). rewrite app_assoc. apply IH.
    now apply gap_step_leftmost.
Qed.

End Gap.

(** X17: [find_leftmost_gap] returns [false], writing nothing, exactly when
    no two pipes [i < j < pipe_count] form a pair (centres less than 100
    apart, one top and one bottom) whose mean centre is below 999999;
    otherwise the gap it writes is that of such a pair with the smallest
    mean centre: no pair lies further left. *)
Theorem leftmost_gap_is_leftmost pipes pipe_count :
  match find_leftmost_gap pipes pipe_count with
  | None =>
      forall i j, 0 <= i < j -> j < pipe_count -> forms_pair pipes i j = true ->
                  999999 <= pair_x pipes i j
  | Some gap =>
      exists i j, 0 <= i < j /\ j < pipe_count /\ forms_pair pipes i j = true /\
        gap = gap_of pipes i j /\ gap_x gap = pair_x pipes i j /\ gap_x gap < 999999 /\
        forall i' j', 0 <= i' < j' -> j' < pipe_count -> forms_pair pipes i' j' = true ->
                      gap_x gap <= pair_x pipes i' j'
  end.
Proof.
  unfold find_leftmost_gap. destruct (pipe_count <? 2) eqn:E; [intros; lia|].
  pose proof (gap_scan_leftmost pipes (pipe_pairs pipe_count) [] (999999, None)) as H.
  cbn [app] in H.
  destruct H as [[-> Hnone]|(i & j & Hin & Hf & -> & Hlt & Hmin)].
  - left. split; [reflexivity|]. intros i j [].
  - cbn [snd]. intros i j Hi Hj. apply Hnone. apply in_pipe_pairs. lia.
  - cbn [snd]. apply in_pipe_pairs in Hin. exists i, j.
    repeat split; try assumption; try lia.
    intros i' j' Hi' Hj'. apply Hmin. apply in_pipe_pairs. lia.
Qed.

(** *** Pipe segments *)

Lemma pairs_snoc {A} (R : A -> A -> Prop) (l : list A) (x : A) :
  ForallOrdPairs R l -> Forall (fun a => R a x) l -> ForallOrdPairs R (l ++ [x]).
Proof.
  induction 1 as [|a l Ha Hl IH]; intros Hx; cbn [app].
  - constructor; constructor.
  - inversion Hx as [|? ? Hax Hlx]; subst. constructor.
    + apply Forall_app. split; [exact Ha | constructor; [exact Hax | constructor]].
    + now apply IH.
Qed.

Section Segments.

Variables (cs : Columns) (height sx sh col_width max_pipes : Z).
Hypothesis wide : 0 < col_width.

(** A pipe as the loop writes it: large enough, not left of the region, its
    centre at the corner plus half the size. *)
Definition pipe_shaped (p : PipeDetection) : Prop :=
  20 < pipe_width p /\ 50 < pipe_height p /\ sx <= pipe_x p /\
  pipe_center_x p = pipe_x p + Z.quot (pipe_width p) 2 /\
  pipe_center_y p = pipe_y p + Z.quot (pipe_height p) 2.

(** [q] starts at least one column right of where [p] ends. *)
Definition apart (p q : PipeDetection) : Prop :=
  pipe_x p + pipe_width p + col_width <= pipe_x q.

(** [p] ends at least one column left of column [c]. *)
Definition ends_before (c : Z) (p : PipeDetection) : Prop :=
  pipe_x p + pipe_width p + col_width <= sx + c * col_width.

(** The column the next pipe cannot start before. *)
Definition frontier (s : Segments) (col : Z) : Z :=
  if in_pipe s then pipe_start_col s else col.

Definition segments_invariant (s : Segments) (col : Z) : Prop :=
  Forall pipe_shaped (out_pipes s) /\
  ForallOrdPairs apart (out_pipes s) /\
  Forall (ends_before (frontier s col)) (out_pipes s) /\
  (in_pipe s = true -> 0 <= pipe_start_col s < col).

Lemma ends_before_later c c' p : c <= c' -> ends_before c p -> ends_before c' p.
Proof. unfold ends_before. intros H Hp. nia. Qed.

Lemma segment_step_invariant s col :
  0 <= col -> segments_invariant s col ->
  segments_invariant (segment_step cs height sx sh col_width s col) (col + 1) /\
  (List.length (out_pipes s)
   <= List.length (out_pipes (segment_step cs height sx sh col_width s col))
   <= List.length (out_pipes s) + 1)%nat.
Proof.
  intros Hcol (Hw & Hp & He & Hs). unfold segment_step.
  destruct (nth (Z.to_nat col) (column_counts cs) 0 >? CInt.div sh 4) eqn:Ec;
    destruct (in_pipe s) eqn:Ei; cbn [andb negb].
  - (* inside a pipe, one more of its columns *)
    split; [|lia]. unfold segments_invariant, frontier in *. rewrite Ei in *.
    repeat split; try assumption; specialize (Hs eq_refl); lia.
  - (* a pipe starts *)
    split; [|cbn [out_pipes]; lia]. unfold segments_invariant, frontier in *.
    cbn [out_pipes in_pipe pipe_start_col]. rewrite Ei in *.
    repeat split; try assumption; lia.
  - (* a pipe ends *)
    specialize (Hs eq_refl). unfold frontier in He. rewrite Ei in He.
    destruct (vertical_bounds cs height (pipe_start_col s) col) as [py ph_max].
    destruct (((col - pipe_start_col s) * col_width >? 20) && (ph_max - py + 1 >? 50))
      eqn:Esize.
    + apply andb_prop in Esize as [E1 E2].
      split; [|cbn [out_pipes]; rewrite length_app; cbn [List.length]; lia].
      unfold segments_invariant, frontier. cbn [out_pipes in_pipe pipe_start_col].
      repeat split; try discriminate.
      * apply Forall_app. split; [exact Hw|]. constructor; [|constructor].
        unfold pipe_shaped, CInt.div.
        cbn [pipe_x pipe_y pipe_width pipe_height pipe_center_x pipe_center_y].
        repeat split; try lia; nia.
      * apply pairs_snoc; [exact Hp|].
        apply (Forall_impl _ (P := ends_before (pipe_start_col s))); [|exact He].
        intros p Hpe. unfold apart, ends_before in *. cbn [pipe_x]. lia.
      * apply Forall_app. split.
        -- apply (Forall_impl _ (P := ends_before (pipe_start_col s))); [|exact He].
           intros p. apply ends_before_later. lia.
        -- constructor; [|constructor]. unfold ends_before. cbn [pipe_x pipe_width]. lia.
    + split; [|cbn [out_pipes]; lia].
      unfold segments_invariant, frontier. cbn [out_pipes in_pipe pipe_start_col].
      repeat split; try assumption; try discriminate.
      apply (Forall_impl _ (P := ends_before (pipe_start_col s))); [|exact He].
      intros p. apply ends_before_later. lia.
  - (* between pipes *)
    split; [|lia]. unfold segments_invariant, frontier in *. rewrite Ei in *.
    repeat split; try assumption; try discriminate.
    apply (Forall_impl _ (P := ends_before col)); [|exact He].
    intros p. apply ends_before_later. lia.
Qed.

Lemma segment_loop_invariant n col hi s :
  Z.to_nat (hi - col) = n -> 0 <= col -> segments_invariant s col ->
  let s' := segment_loop cs height sx sh col_width max_pipes (steps col hi 1) s in
  Forall pipe_shaped (out_pipes s') /\
  ForallOrdPairs apart (out_pipes s') /\
  Forall (ends_before (Z.max col hi)) (out_pipes s') /\
  Z.of_nat (List.length (out_pipes s'))
  <= Z.max (Z.of_nat (List.length (out_pipes s))) max_pipes.
Proof.
  revert col s; induction n as [|n IH]; intros col s Hn Hcol Hinv; cbv zeta.
  - rewrite Loops.steps_empty by lia. cbn [segment_loop].
    destruct Hinv as (Hw & Hp & He & Hs). repeat split; try assumption; [|lia].
    apply (Forall_impl _ (P := ends_before (frontier s col))); [|exact He].
    intros p. apply ends_before_later. unfold frontier.
    destruct (in_pipe s); [specialize (Hs eq_refl)|]; lia.
  - rewrite Edges.steps_cons by lia. cbn [segment_loop].
    destruct (Z.of_nat (List.length (out_pipes s)) <? max_pipes) eqn:E.
    + destruct (segment_step_invariant s col Hcol Hinv) as [Hinv' Hlen].
      destruct (IH (col + 1) _ ltac:(lia) ltac:(lia) Hinv') as (Hw & Hp & He & Hl).
      repeat split; try assumption; [|lia].
      apply (Forall_impl _ (P := ends_before (Z.max (col + 1) hi))); [|exact He].
      intros p. apply ends_before_later. lia.
    + destruct Hinv as (Hw & Hp & He & Hs). repeat split; try assumption; [|lia].
      apply (Forall_impl _ (P := ends_before (frontier s col))); [|exact He].
      intros p. apply ends_before_later. unfold frontier.
      destruct (in_pipe s); [specialize (Hs eq_refl)|]; lia.
Qed.

End Segments.

(** [col_width] of [detect_pipes_color]. *)
Definition column_width (sw : Z) : Z :=
  if CInt.div sw MAX_COLUMNS <? 1 then 1 else CInt.div sw MAX_COLUMNS.

Lemma detect_pipes_segments frame_data width height channels search_region hsv_low hsv_high
    max_pipes :
  let pipes := detect_pipes_color frame_data width height channels search_region
                                  hsv_low hsv_high max_pipes in
  let '(sx, _, sw, _) := search_bounds search_region width height in
  Forall (pipe_shaped sx) pipes /\
  ForallOrdPairs (apart (column_width sw)) pipes /\
  Forall (ends_before sx (column_width sw) MAX_COLUMNS) pipes /\
  Z.of_nat (List.length pipes) <= Z.max 0 max_pipes.
Proof.
  unfold detect_pipes_color.
  destruct (search_bounds search_region width height) as [[[sx sy] sw] sh]. cbv zeta.
  fold (column_width sw).
  assert (Hcw : 0 < column_width sw)
    by (unfold column_width; destruct (CInt.div sw MAX_COLUMNS <? 1) eqn:E; lia).
  set (cs := column_scan _ _ _ _ _ _ _ _ _).
  assert (Hinit : segments_invariant sx (column_width sw) (mkSegments [] false 0) 0).
  { unfold segments_invariant, frontier. cbn [out_pipes in_pipe].
    repeat split; try constructor; discriminate. }
  exact (segment_loop_invariant cs height sx sh (column_width sw) max_pipes Hcw
           (Z.to_nat (MAX_COLUMNS - 0)) 0 MAX_COLUMNS (mkSegments [] false 0)
           eq_refl (Z.le_refl 0) Hinit).
Qed.

(** X18: [detect_pipes_color] writes at most [max_pipes] pipes; each is
    more than 20 wide and more than 50 high, starts at or right of the
    region's left edge and ends within the 100 columns, with its centre at
    the corner plus half the size; and they come from left to right, each
    starting at least one column width right of where the one before
    ends. *)
Theorem pipes_are_separated frame_data width height channels search_region hsv_low hsv_high
    max_pipes :
  let pipes := detect_pipes_color frame_data width height channels search_region
                                  hsv_low hsv_high max_pipes in
  let '(sx, _, sw, _) := search_bounds search_region width height in
  Z.of_nat (List.length pipes) <= Z.max 0 max_pipes /\
  Forall (fun p => pipe_shaped sx p /\
                   pipe_x p + pipe_width p <= sx + 99 * column_width sw) pipes /\
  ForallOrdPairs (apart (column_width sw)) pipes.
Proof.
  intros pipes.
  pose proof (detect_pipes_segments frame_data width height channels search_region
                hsv_low hsv_high max_pipes) as H.
  cbv zeta in H. fold pipes in H.
  destruct (search_bounds search_region width height) as [[[sx sy] sw] sh].
  destruct H as (Hw & Hp & He & Hl).
  split; [exact Hl|]. split; [|exact Hp].
  apply Forall_forall. intros p Hin.
  rewrite Forall_forall in Hw, He. specialize (Hw p Hin). specialize (He p Hin).
  split; [exact Hw|]. unfold ends_before, MAX_COLUMNS in He. lia.
Qed.

(** X19: [extract_game_variables] reports between 0 and 10 pipes, and a gap
    only when it reports at least two of them; the fields of a bird or gap
    that was not found keep what [out_vars] held before the call. *)
Theorem extracted_variables_consistent frame_data width height channels out_vars :
  let vars := extract_game_variables frame_data width height channels out_vars in
  0 <= var_pipe_count vars <= 10 /\
  (var_gap_found vars = true -> 2 <= var_pipe_count vars) /\
  (var_gap_found vars = false ->
   var_gap_center_x vars = var_gap_center_x out_vars /\
   var_gap_center_y vars = var_gap_center_y out_vars) /\
  (var_bird_found vars = false ->
   var_bird_x vars = var_bird_x out_vars /\ var_bird_y vars = var_bird_y out_vars).
Proof.
  unfold extract_game_variables. cbv zeta.
  pose proof (detect_pipes_segments frame_data width height channels None
                (35, 100, 100) (85, 255, 255) 10) as Hp.
  cbv zeta in Hp. cbn [search_bounds] in Hp. destruct Hp as (_ & _ & _ & Hlen).
  set (pipes := detect_pipes_color _ _ _ _ _ _ _ _) in *.
  destruct (detect_bird_color _ _ _ _ _ _ _) as [bird|];
    (unfold find_leftmost_gap;
     destruct (Z.of_nat (List.length pipes) <? 2) eqn:E;
     [|destruct (snd (fold_left _ _ _)) as [gap|]]);
    cbn [var_pipe_count var_gap_found var_bird_found var_gap_center_x var_gap_center_y
         var_bird_x var_bird_y];
    repeat split; intros; try discriminate; try reflexivity; lia.
Qed.

End FlappyBird.

(* ========================================================================= *)
(** * Conditions on any text *)

Module Conditions.

Import LogicBrain Expressions.

(** Leading white space is skipped by the first [tokenize]. *)
Lemma eval_value_fuel_blank vars n ws s :
  blank ws = true ->
  eval_value_fuel n vars (ws ++ s) = eval_value_fuel n vars s.
Proof.
  intros H. destruct n as [|n]; [reflexivity|].
  rewrite !eval_value_fuel_step. now rewrite (tokenize_blank ws s H).
Qed.

Lemma eval_value_blank vars ws s :
  blank ws = true -> eval_value vars (ws ++ s) = eval_value vars s.
Proof.
  intros H. destruct (eval_value_total vars s) as (v & e' & E & _). rewrite E.
  apply (eval_value_fuel_enough vars (S (String.length s))).
  rewrite eval_value_fuel_blank by exact H. exact E.
Qed.

Lemma eval_condition_fuel_blank vars n ws s :
  blank ws = true ->
  eval_condition_fuel n vars (ws ++ s) = eval_condition_fuel n vars s.
Proof.
  intros H. destruct n as [|n]; [reflexivity|].
  rewrite !eval_condition_fuel_step. now rewrite (eval_value_blank vars ws s H).
Qed.

(** X20: white space in front of a condition does not change its value,
    whatever the rest of the text is (well formed or not). *)
Theorem leading_space_is_skipped vars ws condition :
  blank ws = true ->
  eval_condition vars (ws ++ condition) = eval_condition vars condition.
Proof.
  intros H.
  apply (eval_condition_fuel_enough vars (S (String.length condition))).
  rewrite eval_condition_fuel_blank by exact H.
  apply eval_condition_total.
Qed.

Lemma leading_space_is_skipped_witness :
  eval_condition Expressions.board ("  " ++ " 9-2+3 > 0")
  = eval_condition Expressions.board " 9-2+3 > 0".
Proof.
  apply (leading_space_is_skipped Expressions.board "  " " 9-2+3 > 0"). reflexivity.
Defined.

(** X21: a condition that is empty or holds white space only is false on
    every blackboard: a rule with such a condition never fires. *)
Theorem blank_condition_is_false vars ws :
  blank ws = true -> eval_condition vars ws = false.
Proof.
  intros H. apply (eval_condition_fuel_enough vars 1).
  rewrite eval_condition_fuel_step.
  assert (Hv : eval_value vars ws = Some (0, EmptyString)).
  { apply (eval_value_fuel_enough vars 1). rewrite eval_value_fuel_step.
    rewrite (tokenize_end ws H). reflexivity. }
  rewrite Hv. reflexivity.
Qed.

Lemma blank_condition_is_false_witness :
  eval_condition Expressions.board "   " = false.
Proof. apply (blank_condition_is_false Expressions.board "   "). reflexivity. Defined.

(** X22: the evaluation of a condition ends on every text and every
    blackboard: the nesting of [eval_condition] calls never exceeds the
    length of the text, so every recursion bound above it gives the result,
    and the same one. *)
Theorem condition_evaluation_terminates vars condition n :
  (String.length condition < n)%nat ->
  eval_condition_fuel n vars condition = Some (eval_condition vars condition).
Proof.
  intros Hn. destruct (eval_condition_fuel_total vars n condition Hn) as [b Hb].
  rewrite Hb. f_equal. symmetry. now apply (eval_condition_fuel_enough vars n).
Qed.

Lemma condition_evaluation_terminates_witness :
  eval_condition_fuel 20 Expressions.board " 9-2+3 > 0"
  = Some (eval_condition Expressions.board " 9-2+3 > 0").
Proof.
  apply (condition_evaluation_terminates Expressions.board " 9-2+3 > 0" 20).
  simpl. lia.
Defined.

End Conditions.

(* ========================================================================= *)
(** * Start, stop and refusal *)

Module Lifecycle.

Import Fixtures.

(** X23: [vision_process_frame] returns -1 exactly for a null header or one
    whose [frame_ready] is 0, and then neither the header nor the clock is
    touched; otherwise it returns 0. *)
Theorem unready_frame_is_refused build st clock shm :
  let '(status, shm', clock') := VisionEngine.vision_process_frame build st clock shm in
  (status = -1 /\ shm' = shm /\ clock' = clock /\
   (shm = None \/ exists h, shm = Some h /\ frame_ready h = 0)) \/
  (status = 0 /\ exists h h', shm = Some h /\ frame_ready h <> 0 /\ shm' = Some h' /\
                              frame_number h' = frame_number h /\
                              frame_ready h' = frame_ready h).
Proof.
  unfold VisionEngine.vision_process_frame. destruct shm as [h|].
  - destruct (frame_ready h =? 0) eqn:E.
    + left. repeat split. right. exists h. split; [reflexivity | lia].
    + destruct (get_time_ns clock) as [start clock1].
      destruct (VisionEngine.trigger_loop _ _ _ _ _ _ _ _) as [[slots n] clock2].
      destruct (get_time_ns clock2) as [stop clock3].
      right. split; [reflexivity|]. exists h. eexists.
      repeat split; try reflexivity. lia.
  - left. repeat split. now left.
Qed.

(** X24: [vision_init] on an engine that is already initialized changes
    nothing, whatever its tables hold, and on one that is not it empties
    both tables and marks it initialized. After [vision_shutdown], also
    when [vision_init] is called again, no trigger and no template is left,
    so the next frame fills no slot: [num_results] is 0 and the result
    slots keep what they held. *)
Theorem vision_restart_clears_tables build st running clock h :
  let stopped := VisionEngine.vision_shutdown st in
  let restarted := snd (VisionEngine.vision_init stopped) in
  frame_ready h <> 0 ->
  (VisionEngine.g_vision_initialized running = true ->
   VisionEngine.vision_init running = (0, running)) /\
  (VisionEngine.g_vision_initialized running = false ->
   fst (VisionEngine.vision_init running) = 0 /\
   VisionEngine.g_templates (snd (VisionEngine.vision_init running)) = [] /\
   VisionEngine.g_triggers (snd (VisionEngine.vision_init running)) = [] /\
   VisionEngine.g_vision_initialized (snd (VisionEngine.vision_init running)) = true) /\
  VisionEngine.g_templates stopped = [] /\ VisionEngine.g_triggers stopped = [] /\
  VisionEngine.g_vision_initialized stopped = false /\
  VisionEngine.g_templates restarted = [] /\ VisionEngine.g_triggers restarted = [] /\
  VisionEngine.g_vision_initialized restarted = true /\
  (forall s, In s [stopped; restarted] ->
     exists h', snd (fst (VisionEngine.vision_process_frame build s clock (Some h)))
                = Some h' /\
                num_results h' = 0 /\ results h' = results h).
Proof.
  intros stopped restarted Hready. subst stopped restarted.
  unfold VisionEngine.vision_shutdown, VisionEngine.vision_init.
  cbn [VisionEngine.g_vision_initialized VisionEngine.g_templates VisionEngine.g_triggers
       snd].
  split; [intros ->; reflexivity|].
  split; [intros ->; repeat split|].
  repeat split.
  intros s [<-|[<-|[]]]; unfold VisionEngine.vision_process_frame;
    (replace (frame_ready h =? 0) with false by lia);
    destruct (get_time_ns clock) as [start clock1];
    cbn [VisionEngine.g_triggers VisionEngine.trigger_loop];
    destruct (get_time_ns clock1) as [stop clock2];
    eexists; repeat split.
Qed.

Definition ready_frame : SharedMemoryHeader := header 2 2 (paint 2 2 (fun _ _ => white)).

(** An initialized engine with three triggers is left as it is. *)
Lemma vision_restart_clears_tables_witness :
  VisionEngine.vision_init Frames.two_active = (0, Frames.two_active).
Proof.
  apply (vision_restart_clears_tables NO_SIMD Frames.two_active Frames.two_active ticking
                                      ready_frame).
  - vm_compute. discriminate.
  - reflexivity.
Defined.

(** X25: [brain_load_rules] is all or nothing. With a null pointer or a
    count outside 1..256 it returns -1 and changes nothing; otherwise it
    returns 0, the table holds the first [count] of the given rules and
    nothing of what was loaded before, at most 256 of them, and the
    blackboard and the state are kept. *)
Theorem load_rules_all_or_nothing st rules count :
  let '(status, st') := LogicBrain.brain_load_rules st rules count in
  (status = -1 /\ st' = st /\ (rules = None \/ count <= 0 \/ LogicBrain.MAX_RULES < count)) \/
  (status = 0 /\ 1 <= count <= LogicBrain.MAX_RULES /\
   exists rs, rules = Some rs /\
     LogicBrain.g_rules st' = firstn (Z.to_nat count) rs /\
     Z.of_nat (List.length (LogicBrain.g_rules st')) <= count /\
     (Z.of_nat (List.length rs) >= count ->
      Z.of_nat (List.length (LogicBrain.g_rules st')) = count) /\
     LogicBrain.g_variables st' = LogicBrain.g_variables st /\
     LogicBrain.g_current_state st' = LogicBrain.g_current_state st).
Proof.
  unfold LogicBrain.brain_load_rules, LogicBrain.MAX_RULES.
  destruct rules as [rs|]; [|left; auto].
  destruct ((count <=? 0) || (count >? 256)) eqn:E.
  - left. apply orb_prop in E. repeat split. right. destruct E; lia.
  - right. apply orb_false_elim in E as [E1 E2]. split; [reflexivity|]. split; [lia|].
    exists rs. cbn [LogicBrain.g_rules LogicBrain.g_variables LogicBrain.g_current_state].
    pose proof (firstn_le_length (Z.to_nat count) rs).
    repeat split; try lia.
    intros Hlen. rewrite firstn_length_le by lia. lia.
Qed.

(** The actions of successive [brain_evaluate] calls, each on the state the
    call before it left. *)
Fixpoint evaluations (st : LogicBrain.State) (inputs : list (option (list VisionResult) * Z))
    : list ActionCommand :=
  match inputs with
  | [] => []
  | (results, count) :: rest =>
      let '(action, st') := LogicBrain.brain_evaluate st results count in
      action :: evaluations st' rest
  end.

(** Without rules no call returns an action, and the table stays empty. *)
Lemma no_rules_no_action st inputs :
  LogicBrain.g_rules st = [] ->
  Forall (fun action => act_type action = ACTION_NONE) (evaluations st inputs).
Proof.
  revert st; induction inputs as [|[results count] rest IH]; intros st Hr;
    cbn [evaluations]; [constructor|].
  assert (H : act_type (fst (LogicBrain.brain_evaluate st results count)) = ACTION_NONE /\
              LogicBrain.g_rules (snd (LogicBrain.brain_evaluate st results count)) = []).
  { unfold LogicBrain.brain_evaluate. destruct results as [rs|]; [|auto].
    destruct (count <=? 0); [auto|]. rewrite Hr. cbn. auto. }
  destruct (LogicBrain.brain_evaluate st results count) as [action st'].
  destruct H as [Ha Hs]. constructor; [exact Ha | now apply IH].
Qed.

(** X26: [brain_init] on a brain that is already initialized changes
    nothing, whatever its tables hold. A brain that was shut down and
    initialized again is idle with no rule and an empty blackboard, and
    until rules are loaded every [brain_evaluate] call of any sequence of
    calls returns [ACTION_NONE], whatever the results are and whatever the
    calls before wrote on the blackboard. *)
Theorem brain_restart_forgets_rules st running inputs :
  let restarted := snd (LogicBrain.brain_init (LogicBrain.brain_shutdown st)) in
  (LogicBrain.g_brain_initialized running = true ->
   LogicBrain.brain_init running = (0, running)) /\
  LogicBrain.g_rules restarted = [] /\ LogicBrain.g_variables restarted = [] /\
  LogicBrain.brain_get_state restarted = GAME_STATE_IDLE /\
  LogicBrain.g_brain_initialized restarted = true /\
  Forall (fun action => act_type action = ACTION_NONE) (evaluations restarted inputs).
Proof.
  intros restarted.
  split; [unfold LogicBrain.brain_init; intros ->; reflexivity|].
  repeat split. apply no_rules_no_action. reflexivity.
Qed.

End Lifecycle.
